(** * Partition refinement (fst/partition.h): a shallow embedding

    The class template [Partition<T>] keeps a partition of the elements
    [0 .. num_elements - 1] into classes.  Every class owns two doubly
    linked lists threaded through the element array: its 'no' subset and
    its 'yes' subset.  [SplitOn] moves an element to the 'yes' subset of
    its class, [FinalizeSplit] turns every class with a non trivial split
    into two classes.

    The index type [T] (a signed integer type, a template parameter) is
    modelled by [Z], the increment of the epoch counter yes_counter_ with
    its wrap-around; [std::vector] is modelled by [list] with stdpp's
    lookup and insert.  [operator[]] is unchecked in the source: an access
    out of range is the outcome [Undefined] here.

    The last part embeds [FstDrawer::EscapeChars] of
    fst/script/draw-impl.h, the one function of that file that does not
    depend on the FST, symbol table and stream classes. *)

From stdpp Require Import base numbers list.

Local Open Scope Z_scope.

(** ** Outcomes of a member function *)

Inductive outcome (A : Type) : Type :=
  | Ok (a : A)      (* the call returns *)
  | CheckFailed     (* a CHECK failed: the process is aborted *)
  | Undefined       (* unchecked access out of the bounds of a vector *)
  | Diverges.       (* a loop that never ends *)

Arguments Ok {A} a.
Arguments CheckFailed {A}.
Arguments Undefined {A}.
Arguments Diverges {A}.

#[global] Instance outcome_ret : MRet outcome := λ A a, Ok a.

#[global] Instance outcome_bind : MBind outcome := λ A B f m,
  match m with
  | Ok a => f a
  | CheckFailed => CheckFailed
  | Undefined => Undefined
  | Diverges => Diverges
  end.

#[global] Instance outcome_fmap : FMap outcome := λ A B f m,
  match m with
  | Ok a => Ok (f a)
  | CheckFailed => CheckFailed
  | Undefined => Undefined
  | Diverges => Diverges
  end.

(** Modelled from the spec: the CHECK macro (fst/compat.h, not part of the
    sources at hand).  The spec asks that a violated invariant fails fast
    and loudly (abort/assert): a false condition ends the call with
    [CheckFailed], a true one lets it go on. *)
Definition CHECK (b : bool) : outcome unit :=
  if b then Ok () else CheckFailed.

(** ** The data model *)

(** struct Element: no constructor, [vector::resize] value-initialises it. *)
Record Element : Type := mkElement {
  class_id : Z;       (* class-id of this element *)
  yes : Z;            (* in the 'yes' set iff yes == yes_counter_ *)
  next_element : Z;   (* next in the 'no' or 'yes' list, negative = NULL *)
  prev_element : Z    (* previous in that list, negative = NULL *)
}.

(** struct Class. *)
Record Class : Type := mkClass {
  size : Z;       (* number of elements, 'no' plus 'yes' subsets *)
  yes_size : Z;   (* number of elements of the 'yes' subset *)
  no_head : Z;    (* head of the 'no' list, -1 means no element *)
  yes_head : Z    (* head of the 'yes' list, -1 means no element *)
}.

(** Class(): size(0), yes_size(0), no_head(-1), yes_head(-1). *)
Definition new_Class : Class := mkClass 0 0 (-1) (-1).

(** A value-initialised Element: all fields zero. *)
Definition zero_Element : Element := mkElement 0 0 0 0.

Record Partition : Type := mkPartition {
  elements_ : list Element;
  classes_ : list Class;
  visited_classes_ : list Z;
  yes_counter_ : Z
}.

(** Field assignments. *)
Definition set_class_id (v : Z) (e : Element) : Element :=
  mkElement v (yes e) (next_element e) (prev_element e).
Definition set_yes (v : Z) (e : Element) : Element :=
  mkElement (class_id e) v (next_element e) (prev_element e).
Definition set_next_element (v : Z) (e : Element) : Element :=
  mkElement (class_id e) (yes e) v (prev_element e).
Definition set_prev_element (v : Z) (e : Element) : Element :=
  mkElement (class_id e) (yes e) (next_element e) v.

Definition set_size (v : Z) (c : Class) : Class :=
  mkClass v (yes_size c) (no_head c) (yes_head c).
Definition set_yes_size (v : Z) (c : Class) : Class :=
  mkClass (size c) v (no_head c) (yes_head c).
Definition set_no_head (v : Z) (c : Class) : Class :=
  mkClass (size c) (yes_size c) v (yes_head c).
Definition set_yes_head (v : Z) (c : Class) : Class :=
  mkClass (size c) (yes_size c) (no_head c) v.

Definition with_elements (es : list Element) (p : Partition) : Partition :=
  mkPartition es (classes_ p) (visited_classes_ p) (yes_counter_ p).
Definition with_classes (cs : list Class) (p : Partition) : Partition :=
  mkPartition (elements_ p) cs (visited_classes_ p) (yes_counter_ p).
Definition with_visited (vs : list Z) (p : Partition) : Partition :=
  mkPartition (elements_ p) (classes_ p) vs (yes_counter_ p).
Definition with_yes_counter (y : Z) (p : Partition) : Partition :=
  mkPartition (elements_ p) (classes_ p) (visited_classes_ p) y.

(** ** Unchecked vector accesses *)

(** v[i] read: a negative [T] index converts to a huge [size_t]. *)
Definition at_index {A : Type} (v : list A) (i : Z) : outcome A :=
  if decide (0 <= i) then
    match v !! Z.to_nat i with
    | Some a => Ok a
    | None => Undefined
    end
  else Undefined.

(** v[i] = f (v[i]). *)
Definition modify_index {A : Type} (v : list A) (i : Z) (f : A → A)
  : outcome (list A) :=
  _ ← at_index v i; Ok (alter f (Z.to_nat i) v).

Definition elem (p : Partition) (i : Z) : outcome Element :=
  at_index (elements_ p) i.
Definition cls (p : Partition) (c : Z) : outcome Class :=
  at_index (classes_ p) c.
Definition upd_elem (i : Z) (f : Element → Element) (p : Partition)
  : outcome Partition :=
  es ← modify_index (elements_ p) i f; Ok (with_elements es p).
Definition upd_cls (c : Z) (f : Class → Class) (p : Partition)
  : outcome Partition :=
  cs ← modify_index (classes_ p) c f; Ok (with_classes cs p).

(** ** Member functions of Partition *)

(** Initialize(num_elements): [resize] keeps the elements already there,
    [reserve] has no visible effect, visited_classes_ is not touched. *)
Definition Initialize (num_elements : nat) (p : Partition) : Partition :=
  mkPartition (resize num_elements zero_Element (elements_ p))
              []
              (visited_classes_ p)
              1.

(** Partition(num_elements): all vectors start empty; yes_counter_ has no
    initialiser, [Initialize] assigns it before any read. *)
Definition Partition_ctor (num_elements : nat) : Partition :=
  Initialize num_elements (mkPartition [] [] [] 0).

(** AddClass(). *)
Definition AddClass (p : Partition) : Partition * Z :=
  let num_classes := length (classes_ p) in
  (with_classes (resize (num_classes + 1)%nat new_Class (classes_ p)) p,
   Z.of_nat num_classes).

(** Add(element_id, class_id). *)
Definition Add (element_id cid : Z) (p : Partition) : outcome Partition :=
  _ ← elem p element_id;
  _ ← cls p cid;
  p ← upd_cls cid (λ c, set_size (size c + 1) c) p;
  this_class ← cls p cid;
  let no_head := no_head this_class in
  p ← (if decide (0 <= no_head)
       then upd_elem no_head (set_prev_element element_id) p
       else Ok p);
  p ← upd_cls cid (set_no_head element_id) p;
  p ← upd_elem element_id (set_class_id cid) p;
  p ← upd_elem element_id (set_yes 0) p;
  p ← upd_elem element_id (set_next_element no_head) p;
  upd_elem element_id (set_prev_element (-1)) p.

(** The excision of [element_id] from the 'no' list of class [cid]: the
    same statements in Move (lines 138-145) and in SplitOn (160-168).
    [element] is a reference: its fields are read when they are used. *)
Definition excise (element_id cid : Z) (p : Partition) : outcome Partition :=
  element ← elem p element_id;
  p ← (if decide (0 <= prev_element element)
       then upd_elem (prev_element element)
                     (set_next_element (next_element element)) p
       else
         the_class ← cls p cid;
         _ ← CHECK (bool_decide (no_head the_class = element_id));
         upd_cls cid (set_no_head (next_element element)) p);
  element ← elem p element_id;
  if decide (0 <= next_element element)
  then upd_elem (next_element element)
                (set_prev_element (prev_element element)) p
  else Ok p.

(** Move(element_id, class_id). *)
Definition Move (element_id cid : Z) (p : Partition) : outcome Partition :=
  element ← elem p element_id;
  _ ← CHECK (bool_decide (yes element ≠ yes_counter_ p));
  let old := class_id element in
  p ← upd_cls old (λ c, set_size (size c - 1) c) p;
  old_class ← cls p old;
  _ ← CHECK (bool_decide (0 <= size old_class ∧ yes_size old_class = 0));
  p ← excise element_id old p;
  Add element_id cid p.

(** SplitOn(element_id). *)
Definition SplitOn (element_id : Z) (p : Partition) : outcome Partition :=
  element ← elem p element_id;
  if decide (yes element = yes_counter_ p) then Ok p else
  let cid := class_id element in
  _ ← cls p cid;
  p ← excise element_id cid p;
  this_class ← cls p cid;
  p ← (if decide (0 <= yes_head this_class)
       then upd_elem (yes_head this_class) (set_prev_element element_id) p
       else Ok (with_visited (visited_classes_ p ++ [cid]) p));
  p ← upd_elem element_id (set_yes (yes_counter_ p)) p;
  p ← upd_elem element_id (set_next_element (yes_head this_class)) p;
  p ← upd_elem element_id (set_prev_element (-1)) p;
  p ← upd_cls cid (set_yes_head element_id) p;
  p ← upd_cls cid (λ c, set_yes_size (yes_size c + 1) c) p;
  this_class ← cls p cid;
  _ ← CHECK (bool_decide (yes_size this_class <= size this_class));
  Ok p.

(** The loop closing SplitRefine:
    for (e = new_class.no_head; e >= 0; e = elements[e].next_element)
      elements[e].class_id = new_class_id;
    The links are not written, so a walk that is still inside the array
    after [length elements_] steps has entered a cycle. *)
Fixpoint relabel (fuel : nat) (new_class_id e : Z) (es : list Element)
  : outcome (list Element) :=
  if decide (0 <= e) then
    el ← at_index es e;
    match fuel with
    | O => Diverges
    | S fuel' =>
        relabel fuel' new_class_id (next_element el)
                (alter (set_class_id new_class_id) (Z.to_nat e) es)
    end
  else Ok es.

(** SplitRefine(class_id): returns the new class, or -1. *)
Definition SplitRefine (cid : Z) (p : Partition) : outcome (Partition * Z) :=
  the_class ← cls p cid;
  let yes_size := yes_size the_class in
  let size := size the_class in
  let no_size := size - yes_size in
  if decide (no_size = 0) then
    _ ← CHECK (bool_decide (no_head the_class < 0));
    p ← upd_cls cid (λ c, set_no_head (yes_head c) c) p;
    p ← upd_cls cid (set_yes_head (-1)) p;
    p ← upd_cls cid (set_yes_size 0) p;
    Ok (p, -1)
  else
    let new_class_id := Z.of_nat (length (classes_ p)) in
    let p := with_classes
               (resize (length (classes_ p) + 1)%nat new_Class (classes_ p)) p in
    p ← (if decide (no_size < yes_size) then
           old_class ← cls p cid;
           p ← upd_cls new_class_id (set_no_head (no_head old_class)) p;
           p ← upd_cls new_class_id (set_size no_size) p;
           old_class ← cls p cid;
           p ← upd_cls cid (set_no_head (yes_head old_class)) p;
           p ← upd_cls cid (set_yes_head (-1)) p;
           p ← upd_cls cid (set_size yes_size) p;
           upd_cls cid (set_yes_size 0) p
         else
           p ← upd_cls new_class_id (set_size yes_size) p;
           old_class ← cls p cid;
           p ← upd_cls new_class_id (set_no_head (yes_head old_class)) p;
           p ← upd_cls cid (set_size no_size) p;
           p ← upd_cls cid (set_yes_size 0) p;
           upd_cls cid (set_yes_head (-1)) p);
    new_class ← cls p new_class_id;
    es ← relabel (length (elements_ p)) new_class_id (no_head new_class)
                 (elements_ p);
    Ok (with_elements es p, new_class_id).

(** The index type [T] is a signed integer type; the model takes [int],
    32 bits wide.  The sizes and indices that the member functions compute
    stay within its range as long as the number of elements and classes
    does.  yes_counter_ is the one field that grows with the number of
    calls: [yes_counter_++] at the greatest value of [T] overflows, which
    the implementations at hand compute by wrapping around to the least
    value. *)
Definition T_bits : Z := 32.
Definition T_max : Z := 2 ^ (T_bits - 1) - 1.
Definition T_min : Z := - 2 ^ (T_bits - 1).

(** The [T] that arithmetic gives for the integer [z]. *)
Definition wrap_T (z : Z) : Z := (z - T_min) mod 2 ^ T_bits + T_min.

(** FinalizeSplit(Queue* L).  The queue type is a template parameter: [Q]
    is the state of the queue object and [Enqueue] its member function;
    the pointer [L] is [None] when null. *)
Section FinalizeSplit.
Context {Q : Type} (Enqueue : Z → Q → Q).

(** The body of the for loop, over the entries of visited_classes_
    (the vector is not written inside the loop). *)
Fixpoint FinalizeSplit_loop (visited : list Z) (L : option Q) (p : Partition)
  : outcome (Partition * option Q) :=
  match visited with
  | [] => Ok (p, L)
  | c :: visited' =>
      '(p, new_class) ← SplitRefine c p;
      let L := if decide (new_class ≠ -1)
               then match L with
                    | Some q => Some (Enqueue new_class q)
                    | None => None
                    end
               else L in
      FinalizeSplit_loop visited' L p
  end.

Definition FinalizeSplit (L : option Q) (p : Partition)
  : outcome (Partition * option Q) :=
  '(p, L) ← FinalizeSplit_loop (visited_classes_ p) L p;
  Ok (with_yes_counter (wrap_T (yes_counter_ p + 1)) (with_visited [] p), L).
End FinalizeSplit.

(** size_t is 64 bits wide: the conversion of a [T] to it. *)
Definition to_size_t (z : Z) : Z := z mod 2 ^ 64.

(** AllocateClasses(num_classes): the new length is computed in size_t,
    to which the [T] argument converts.  [max_size] is
    vector<Class>::max_size(), which the implementation defines; [resize]
    to a greater length throws std::length_error ([None]) and leaves the
    vector as it was. *)
Definition AllocateClasses (max_size : Z) (num_classes : Z) (p : Partition)
  : option Partition :=
  let n := to_size_t (Z.of_nat (length (classes_ p)) + to_size_t num_classes) in
  if decide (n <= max_size)
  then Some (with_classes (resize (Z.to_nat n) new_Class (classes_ p)) p)
  else None.

(** class_id(element_id): named [class_id_of] here, [class_id] being the
    field of Element. *)
Definition class_id_of (p : Partition) (element_id : Z) : outcome Z :=
  class_id <$> elem p element_id.

(** class_size(class_id). *)
Definition class_size (p : Partition) (cid : Z) : outcome Z :=
  (λ c, to_size_t (size c)) <$> cls p cid.

(** num_classes(). *)
Definition num_classes (p : Partition) : Z := Z.of_nat (length (classes_ p)).

(** ** PartitionIterator *)

Record PartitionIterator : Type := mkIterator {
  element_id_ : Z;
  class_id_ : Z
}.

(** PartitionIterator(partition, class_id). *)
Definition PartitionIterator_ctor (p : Partition) (cid : Z)
  : outcome PartitionIterator :=
  c ← cls p cid; Ok (mkIterator (no_head c) cid).

Definition Done (it : PartitionIterator) : bool :=
  bool_decide (element_id_ it < 0).

Definition Value (it : PartitionIterator) : Z := element_id_ it.

Definition Next (p : Partition) (it : PartitionIterator)
  : outcome PartitionIterator :=
  e ← elem p (element_id_ it); Ok (mkIterator (next_element e) (class_id_ it)).

Definition Reset (p : Partition) (it : PartitionIterator)
  : outcome PartitionIterator :=
  c ← cls p (class_id_ it); Ok (mkIterator (no_head c) (class_id_ it)).

(** The caller's loop  for (; !it.Done(); it.Next()) out.push_back(it.Value())
    run for at most [fuel] steps. *)
Fixpoint drain (fuel : nat) (p : Partition) (it : PartitionIterator)
  : outcome (list Z) :=
  if Done it then Ok []
  else match fuel with
       | O => Diverges
       | S fuel' =>
           it' ← Next p it;
           vs ← drain fuel' p it';
           Ok (Value it :: vs)
       end.

(** The elements enumerated by a fresh iterator over class [cid]. *)
Definition class_elements (p : Partition) (cid : Z) : outcome (list Z) :=
  it ← PartitionIterator_ctor p cid;
  drain (length (elements_ p)) p it.

(** ** Scenario A of the specification, run on the model *)

Definition enqueue_back (c : Z) (q : list Z) : list Z := q ++ [c].

Definition scenario_A_setup : outcome Partition :=
  let p := Partition_ctor 4 in
  let p := (AddClass p).1 in
  let p := (AddClass p).1 in
  p ← Add 0 0 p;
  p ← Add 1 0 p;
  p ← Add 2 0 p;
  Add 3 0 p.

Definition scenario_A : outcome (Partition * option (list Z)) :=
  p ← scenario_A_setup;
  p ← SplitOn 1 p;
  p ← SplitOn 2 p;
  FinalizeSplit enqueue_back (Some []) p.

(** The classes created by the loop of FinalizeSplit, in creation order. *)
Fixpoint new_classes (visited : list Z) (p : Partition) : list Z :=
  match visited with
  | [] => []
  | c :: visited' =>
      match SplitRefine c p with
      | Ok (p', n) =>
          (if decide (n ≠ -1) then [n] else []) ++ new_classes visited' p'
      | _ => []
      end
  end.

(** An index that [operator[]] may be given. *)
Definition in_range {A : Type} (v : list A) (i : Z) : Prop :=
  0 <= i < Z.of_nat (length v).

#[global] Instance in_range_dec {A} (v : list A) i : Decision (in_range v i).
Proof. unfold in_range. apply _. Defined.


(** The walk of the iterator started at yes_head instead of no_head: the
    'yes' subset of class [cid].  (Only used to state properties: the
    source has no iterator over the 'yes' list.) *)
Definition yes_elements (p : Partition) (cid : Z) : outcome (list Z) :=
  c ← cls p cid;
  drain (length (elements_ p)) p (mkIterator (yes_head c) cid).

(** The sum of the sizes of all classes. *)
Definition total_size (p : Partition) : Z :=
  foldr (λ c acc, size c + acc) 0 (classes_ p).

(** ** The representation invariant

    The abstract value of a partition gives, for every class index, the
    list of the elements of its 'no' list and of its 'yes' list, in list
    order. *)

Definition hdZ (l : list nat) : Z :=
  match l with
  | [] => -1
  | x :: _ => Z.of_nat x
  end.

Definition lastZ (q : Z) (l : list nat) : Z :=
  match last l with
  | Some x => Z.of_nat x
  | None => q
  end.

(** [dlist es q l]: the elements of [l] are chained in this order by
    next_element and prev_element; the first one has [q] as its
    prev_element and the last one -1 as its next_element. *)
Fixpoint dlist (es : list Element) (q : Z) (l : list nat) : Prop :=
  match l with
  | [] => True
  | x :: l' =>
      ∃ el, es !! x = Some el ∧ prev_element el = q ∧
            next_element el = hdZ l' ∧ dlist es (Z.of_nat x) l'
  end.

Record class_ok (es : list Element) (yc : Z) (c : nat) (cl : Class)
       (no ys : list nat) : Prop := mk_class_ok {
  ok_no_head : no_head cl = hdZ no;
  ok_yes_head : yes_head cl = hdZ ys;
  ok_no : dlist es (-1) no;
  ok_ys : dlist es (-1) ys;
  ok_size : size cl = Z.of_nat (length no + length ys);
  ok_yes_size : yes_size cl = Z.of_nat (length ys);
  ok_nodup : NoDup (no ++ ys);
  ok_owner : ∀ x, x ∈ no ++ ys →
               ∃ el, es !! x = Some el ∧ class_id el = Z.of_nat c ∧
                     yes el <= yc;
  ok_tag : ∀ x el, x ∈ ys → es !! x = Some el → yes el = yc
}.

(** What holds of the classes between two calls, and also inside the loop
    of FinalizeSplit. *)
Definition Shape (p : Partition) (no ys : nat → list nat) : Prop :=
  ∀ c cl, classes_ p !! c = Some cl →
          class_ok (elements_ p) (yes_counter_ p) c cl (no c) (ys c).

(** What holds between two calls of the member functions. *)
Record Inv (p : Partition) (no ys : nat → list nat) : Prop := mk_Inv {
  inv_shape : Shape p no ys;
  inv_counter : 1 <= yes_counter_ p;
  inv_tag_no : ∀ c x el, (c < length (classes_ p))%nat → x ∈ no c →
                         elements_ p !! x = Some el → yes el ≠ yes_counter_ p;
  inv_visited : ∃ vl, visited_classes_ p = Z.of_nat <$> vl ∧ NoDup vl ∧
                      ∀ c, c ∈ vl ↔ (c < length (classes_ p))%nat ∧ ys c ≠ []
}.

Definition WF (p : Partition) : Prop := ∃ no ys, Inv p no ys.

(** [e] is in no list of any class. *)
Definition unowned (p : Partition) (no ys : nat → list nat) (e : nat) : Prop :=
  ∀ c, (c < length (classes_ p))%nat → e ∉ no c ++ ys c.

(** Point update of an abstract value. *)
Definition upd (f : nat → list nat) (c : nat) (l : list nat) : nat → list nat :=
  λ c', if decide (c' = c) then l else f c'.

(** The element array after the loop of SplitRefine went through [l]. *)
Definition relabelled (n : Z) (l : list nat) (es : list Element)
  : list Element :=
  foldl (λ es x, alter (set_class_id n) x es) es l.

(** The element array after [excise] linked the neighbours [a] and [b] of
    an element to each other. *)
Definition unlinked (a b : Z) (es : list Element) : list Element :=
  let es1 := if decide (0 <= a)
             then alter (set_next_element b) (Z.to_nat a) es
             else es in
  if decide (0 <= b)
  then alter (set_prev_element a) (Z.to_nat b) es1
  else es1.

(** The element array after [x] was linked in front of the list [l]. *)
Definition pushed (x : nat) (f : Element → Element) (l : list nat)
           (es : list Element) : list Element :=
  alter f x
        (match l with
         | [] => es
         | h :: _ => alter (set_prev_element (Z.of_nat x)) h es
         end).

(** The subset that SplitRefine moves to the new class, and the one it
    leaves in the old class. *)
Definition moved_list (no ys : list nat) : list nat :=
  if decide (length no < length ys)%nat then no else ys.
Definition kept_list (no ys : list nat) : list nat :=
  if decide (length no < length ys)%nat then ys else no.

(** A class whose 'yes' list is empty. *)
Definition settled_Class (l : list nat) : Class :=
  mkClass (Z.of_nat (length l)) 0 (hdZ l) (-1).

(** The abstract value after SplitRefine ran on class [c], [n] being the
    number of classes before. *)
Definition split_no (n c : nat) (no ys : nat → list nat) : nat → list nat :=
  let no1 := upd no c (kept_list (no c) (ys c)) in
  if decide (no c = []) then no1 else upd no1 n (moved_list (no c) (ys c)).
Definition split_ys (n c : nat) (no ys : nat → list nat) : nat → list nat :=
  if decide (no c = []) then upd ys c [] else upd (upd ys c []) n [].

(** The abstract value and the number of classes after the loop of
    FinalizeSplit went through the classes [vl]. *)
Fixpoint refined (vl : list nat) (n : nat) (no ys : nat → list nat)
  : (nat → list nat) * (nat → list nat) * nat :=
  match vl with
  | [] => (no, ys, n)
  | c :: vl' =>
      refined vl' (if decide (no c = []) then n else S n)
              (split_no n c no ys) (split_ys n c no ys)
  end.

(** [e] is on the 'no' or the 'yes' list of class [c]. *)
Definition is_member (p : Partition) (e c : Z) : bool :=
  match class_elements p c, yes_elements p c with
  | Ok l1, Ok l2 => bool_decide (e ∈ l1 ++ l2)
  | _, _ => false
  end.

(** [e] has been added to a class: it is a member of the class that its
    class_id names. *)
Definition owned (p : Partition) (e : Z) : bool :=
  match elem p e with
  | Ok el => is_member p e (class_id el)
  | _ => false
  end.

(** The number of elements that have been added to a class. *)
Definition owned_count (p : Partition) : nat :=
  length (filter (λ x : nat, owned p (Z.of_nat x) = true)
                 (seq 0 (length (elements_ p)))).

(** ** The scenarios of the specification *)

(** Scenario A as the specification words its outcome. *)
Definition scenario_A_as_specified : Prop :=
  ∃ p q, scenario_A = Ok (p, Some q) ∧
         class_size p 1 = Ok 2 ∧
         (∃ l, class_elements p 1 = Ok l ∧ l ≡ₚ [1; 2]) ∧
         class_size p 0 = Ok 2 ∧
         (∃ l, class_elements p 0 = Ok l ∧ l ≡ₚ [0; 3]) ∧
         q = [1].

(** The partition of scenario A before the calls of SplitOn. *)
Definition partition_A : Partition :=
  Eval vm_compute in
    match scenario_A_setup with
    | Ok p => p
    | _ => Partition_ctor 0
    end.

(** The same after SplitOn(1) and SplitOn(2). *)
Definition partition_A_split : Partition :=
  Eval vm_compute in
    match p ← SplitOn 1 partition_A; SplitOn 2 p with
    | Ok p => p
    | _ => Partition_ctor 0
    end.

(** A partition where the four elements of class 0 are all in its 'yes'
    subset (scenario B). *)
Definition partition_B : Partition :=
  Eval vm_compute in
    match p ← SplitOn 0 partition_A_split; SplitOn 3 p with
    | Ok p => p
    | _ => Partition_ctor 0
    end.

(** One element, one class, the element added twice. *)

(** One element, not yet added, and one empty class. *)
Definition one_unassigned : Partition := (AddClass (Partition_ctor 1)).1.

(** The element added twice. *)
Definition duplicate_add : outcome Partition :=
  p ← Add 0 0 one_unassigned; Add 0 0 p.

(** The records that SplitRefine leaves in the old and in the new class
    when it splits a class whose record was [cl]. *)
Definition old_Class_after_split (cl : Class) : Class :=
  if decide (size cl - yes_size cl < yes_size cl)
  then mkClass (yes_size cl) 0 (yes_head cl) (-1)
  else mkClass (size cl - yes_size cl) 0 (no_head cl) (-1).
Definition new_Class_after_split (cl : Class) : Class :=
  if decide (size cl - yes_size cl < yes_size cl)
  then mkClass (size cl - yes_size cl) 0 (no_head cl) (-1)
  else mkClass (yes_size cl) 0 (yes_head cl) (-1).

(** The reading of the field [yes] of an element as a bool:
    (yes == yes_counter_ ? true : false). *)
Definition in_yes_subset (p : Partition) (e : Z) : bool :=
  match elem p e with
  | Ok el => bool_decide (yes el = yes_counter_ p)
  | _ => false
  end.

(** The iterator after [n] calls of Next. *)
Fixpoint Next_n (n : nat) (p : Partition) (it : PartitionIterator)
  : outcome PartitionIterator :=
  match n with
  | O => Ok it
  | S n' => it' ← Next p it; Next_n n' p it'
  end.

(** The caller's loop  for (e : l) partition.SplitOn(e). *)
Fixpoint SplitOn_all (l : list Z) (p : Partition) : outcome Partition :=
  match l with
  | [] => Ok p
  | e :: l' => p ← SplitOn e p; SplitOn_all l' p
  end.

(** The caller's loop  for ((e, c) : l) partition.Add(e, c). *)
Fixpoint Add_all (l : list (Z * Z)) (p : Partition) : outcome Partition :=
  match l with
  | [] => Ok p
  | (e, c) :: l' => p ← Add e c p; Add_all l' p
  end.

(** The elements that a list of calls of Add puts into class [c], the one
    added last first. *)
Definition added_to (l : list (Z * Z)) (c : Z) : list Z :=
  reverse (filter (λ ec : Z * Z, ec.2 = c) l).*1.

(** An element and a class in range, the element in no class. *)
Definition addable (p : Partition) (ec : Z * Z) : bool :=
  bool_decide (in_range (elements_ p) ec.1) &&
  bool_decide (in_range (classes_ p) ec.2) &&
  negb (owned p ec.1).

(** * FstDrawer::EscapeChars (fst/script/draw-impl.h)

    A [char] is modelled by its integer value and a [string] by the list
    of its characters. *)

Definition backslash : Z := 92.
Definition double_quote : Z := 34.

(** s.c_str(): the characters of [s] followed by the terminating NUL. *)
Definition c_str (s : list Z) : list Z := s ++ [0].

(** The loop of EscapeChars: [c] is what the pointer has still before it,
    [ns] the string that the call appends to. *)
Fixpoint EscapeChars_loop (c : list Z) (ns : list Z) : list Z :=
  match c with
  | [] => ns
  | ch :: c' =>
      if decide (ch = 0) then ns
      else
        let ns := if decide (ch = backslash ∨ ch = double_quote)
                  then ns ++ [backslash] else ns in
        EscapeChars_loop c' (ns ++ [ch])
  end.

(** EscapeChars(s, ns): the value of [*ns] after the call. *)
Definition EscapeChars (s ns : list Z) : list Z :=
  EscapeChars_loop (c_str s) ns.

(** The characters of a string that come before its first NUL. *)
Fixpoint before_NUL (s : list Z) : list Z :=
  match s with
  | [] => []
  | c :: s' => if decide (c = 0) then [] else c :: before_NUL s'
  end.

(** Reading an escaped string back: a backslash is dropped and the
    character after it is taken as it is.  A double quote that no
    backslash precedes, or a backslash at the end, is an error. *)
Fixpoint unescape (l : list Z) : option (list Z) :=
  match l with
  | [] => Some []
  | c :: l' =>
      if decide (c = backslash) then
        match l' with
        | [] => None
        | d :: l'' => cons d <$> unescape l''
        end
      else if decide (c = double_quote) then None
      else cons c <$> unescape l'
  end.

(** What EscapeChars writes for one character. *)
Definition escaped_char (ch : Z) : list Z :=
  if decide (ch = backslash ∨ ch = double_quote) then [backslash; ch]
  else [ch].

(** Two elements and two classes: element 0 was added to class 0, element
    1 was not added. *)
Definition one_added_one_not : Partition :=
  Eval vm_compute in
    match Add 0 0 (AddClass (AddClass (Partition_ctor 2)).1).1 with
    | Ok p => p
    | _ => Partition_ctor 0
    end.
(** * Basic facts on outcomes and accesses *)

Lemma bind_Ok {A B} (m : outcome A) (f : A → outcome B) b :
  m ≫= f = Ok b ↔ ∃ a, m = Ok a ∧ f a = Ok b.
Proof.
  destruct m; simpl; split; try (intros [? [? ?]]); try discriminate; eauto.
  congruence.
Qed.



Lemma at_index_Ok {A} (v : list A) i a :
  at_index v i = Ok a ↔ 0 <= i ∧ v !! Z.to_nat i = Some a.
Proof.
  unfold at_index. destruct (decide (0 <= i)).
  - destruct (v !! Z.to_nat i); split; try intros [_ ?]; try intros ?;
      try discriminate; try split; congruence.
  - split; [discriminate | lia].
Qed.

Lemma at_index_nat {A} (v : list A) (n : nat) a :
  v !! n = Some a → at_index v (Z.of_nat n) = Ok a.
Proof. intros H. apply at_index_Ok. rewrite Nat2Z.id. split; [lia | done]. Qed.

Lemma at_index_out {A} (v : list A) i :
  ¬ in_range v i → at_index v i = Undefined.
Proof.
  unfold in_range, at_index. intros H.
  destruct (decide (0 <= i)); [| done].
  destruct (v !! Z.to_nat i) eqn:E; [| done].
  apply lookup_lt_Some in E. lia.
Qed.

Lemma at_index_in {A} (v : list A) i :
  in_range v i → ∃ a, at_index v i = Ok a ∧ v !! Z.to_nat i = Some a.
Proof.
  unfold in_range. intros H.
  destruct (lookup_lt_is_Some_2 v (Z.to_nat i)) as [a Ha]; [lia |].
  exists a. split; [| done]. apply at_index_Ok. split; [lia | done].
Qed.

Lemma at_index_never {A} (v : list A) i :
  at_index v i ≠ CheckFailed ∧ at_index v i ≠ Diverges.
Proof.
  unfold at_index. destruct (decide _); [destruct (v !! _) |]; done.
Qed.

Lemma modify_index_nat {A} (v : list A) (n : nat) f :
  (n < length v)%nat →
  modify_index v (Z.of_nat n) f = Ok (alter f n v).
Proof.
  intros H. unfold modify_index.
  destruct (lookup_lt_is_Some_2 v n H) as [a Ha].
  rewrite (at_index_nat _ _ _ Ha). simpl. by rewrite Nat2Z.id.
Qed.


Lemma modify_index_length {A} (v v' : list A) i f :
  modify_index v i f = Ok v' → length v' = length v.
Proof.
  unfold modify_index. intros (a & _ & [= <-])%bind_Ok. apply length_alter.
Qed.

Lemma elem_nat p (n : nat) el :
  elements_ p !! n = Some el → elem p (Z.of_nat n) = Ok el.
Proof. apply at_index_nat. Qed.

Lemma cls_nat p (n : nat) c :
  classes_ p !! n = Some c → cls p (Z.of_nat n) = Ok c.
Proof. apply at_index_nat. Qed.

Lemma upd_elem_nat p (n : nat) f :
  (n < length (elements_ p))%nat →
  upd_elem (Z.of_nat n) f p = Ok (with_elements (alter f n (elements_ p)) p).
Proof. intros H. unfold upd_elem. by rewrite (modify_index_nat _ _ _ H). Qed.

Lemma upd_cls_nat p (n : nat) f :
  (n < length (classes_ p))%nat →
  upd_cls (Z.of_nat n) f p = Ok (with_classes (alter f n (classes_ p)) p).
Proof. intros H. unfold upd_cls. by rewrite (modify_index_nat _ _ _ H). Qed.

Lemma upd_elem_Ok i f p p' :
  upd_elem i f p = Ok p' →
  classes_ p' = classes_ p ∧ visited_classes_ p' = visited_classes_ p ∧
  yes_counter_ p' = yes_counter_ p ∧
  length (elements_ p') = length (elements_ p).
Proof.
  unfold upd_elem. intros (es & H & [= <-])%bind_Ok. simpl.
  by rewrite (modify_index_length _ _ _ _ H).
Qed.

Lemma upd_cls_Ok c f p p' :
  upd_cls c f p = Ok p' →
  elements_ p' = elements_ p ∧ visited_classes_ p' = visited_classes_ p ∧
  yes_counter_ p' = yes_counter_ p ∧
  length (classes_ p') = length (classes_ p).
Proof.
  unfold upd_cls. intros (es & H & [= <-])%bind_Ok. simpl.
  by rewrite (modify_index_length _ _ _ _ H).
Qed.

Lemma resize_push {A} (v : list A) (x : A) :
  resize (length v + 1) x v = v ++ [x].
Proof.
  rewrite resize_ge by lia.
  by replace (length v + 1 - length v)%nat with 1%nat by lia.
Qed.

(** * Doubly linked lists inside the element array *)

Lemma dlist_lookup es q l x :
  dlist es q l → x ∈ l → is_Some (es !! x).
Proof.
  revert q. induction l as [|y l IH]; intros q H Hx; [by inversion Hx |].
  destruct H as (el & Hel & _ & _ & Hl).
  apply elem_of_cons in Hx as [-> | Hx]; eauto.
Qed.

Lemma dlist_lt es q l x :
  dlist es q l → x ∈ l → (x < length es)%nat.
Proof. intros H Hx. by apply lookup_lt_is_Some, (dlist_lookup es q l). Qed.

(** A list that agrees with [es] on the links of the members of [l]. *)
Lemma dlist_agree es es' q l :
  dlist es q l →
  (∀ x el, x ∈ l → es !! x = Some el →
     ∃ el', es' !! x = Some el' ∧ prev_element el' = prev_element el ∧
            next_element el' = next_element el) →
  dlist es' q l.
Proof.
  revert q. induction l as [|y l IH]; intros q H Hag; [done |].
  destruct H as (el & Hel & Hp & Hn & Hl).
  destruct (Hag y el) as (el' & Hel' & Hp' & Hn'); [left | done |].
  exists el'. repeat split; try congruence.
  apply IH; [done |]. intros x ex Hx. apply Hag. by right.
Qed.

Lemma dlist_alter_out es q l x f :
  x ∉ l → dlist es q l → dlist (alter f x es) q l.
Proof.
  intros Hx H. eapply dlist_agree; [done |].
  intros y el Hy Hel. exists el. rewrite list_lookup_alter_ne; [done |].
  intros ->. done.
Qed.

Lemma dlist_alter_links es q l x f :
  (∀ el, prev_element (f el) = prev_element el ∧
         next_element (f el) = next_element el) →
  dlist es q l → dlist (alter f x es) q l.
Proof.
  intros Hf H. eapply dlist_agree; [done |].
  intros y el Hy Hel. destruct (decide (x = y)) as [-> | Hne].
  - exists (f el). rewrite list_lookup_alter_eq, Hel. by destruct (Hf el).
  - exists el. by rewrite list_lookup_alter_ne.
Qed.

(** Changing the prev_element of the head. *)
Lemma dlist_head_prev es q q' h l :
  h ∉ l → dlist es q (h :: l) →
  dlist (alter (set_prev_element q') h es) q' (h :: l).
Proof.
  intros Hh (el & Hel & Hp & Hn & Hl).
  exists (set_prev_element q' el). rewrite list_lookup_alter_eq, Hel.
  split_and!; [done.. |]. by apply dlist_alter_out.
Qed.

(** Linking [x] in front of a list it is not in. *)
Lemma dlist_pushed es l x f :
  (x < length es)%nat → x ∉ l → NoDup l → dlist es (-1) l →
  (∀ el, prev_element (f el) = -1 ∧ next_element (f el) = hdZ l) →
  dlist (pushed x f l es) (-1) (x :: l).
Proof.
  intros Hlt Hx Hnd Hl Hf. unfold pushed.
  destruct (lookup_lt_is_Some_2 es x Hlt) as [ex Hex].
  destruct l as [|h l].
  - exists (f ex). rewrite list_lookup_alter_eq, Hex. by destruct (Hf ex).
  - apply not_elem_of_cons in Hx as [Hxh Hx].
    apply NoDup_cons in Hnd as [Hh Hnd].
    exists (f ex). rewrite list_lookup_alter_eq, list_lookup_alter_ne, Hex by done.
    destruct (Hf ex) as [-> ->]. split_and!; [done.. |].
    apply dlist_alter_out; [by apply not_elem_of_cons |].
    by eapply dlist_head_prev.
Qed.

(** The links of a member in the middle of a list. *)
Lemma dlist_middle es q l1 x l2 :
  dlist es q (l1 ++ x :: l2) →
  ∃ ex, es !! x = Some ex ∧ prev_element ex = lastZ q l1 ∧
        next_element ex = hdZ l2.
Proof.
  revert q. induction l1 as [|y l1 IH]; intros q H.
  - destruct H as (ex & Hex & Hp & Hn & _). by exists ex.
  - destruct H as (ey & _ & _ & _ & H). apply IH in H as (ex & ? & ? & ?).
    exists ex. split_and!; [done | | done].
    unfold lastZ in *. rewrite last_cons. by destruct (last l1).
Qed.

Lemma lastZ_elem q l z : l ≠ [] → lastZ q l = Z.of_nat z → z ∈ l.
Proof.
  intros Hne. unfold lastZ. destruct (last l) as [w|] eqn:E.
  - intros ->%Nat2Z.inj. apply last_Some in E as [l' ->].
    apply elem_of_app. right. left.
  - by apply last_None in E.
Qed.

Lemma hdZ_elem l z : hdZ l = Z.of_nat z → z ∈ l.
Proof. destruct l; simpl; [lia |]. intros ->%Nat2Z.inj. left. Qed.

Lemma hdZ_app_cons l1 x l2 : l1 ≠ [] → hdZ (l1 ++ x :: l2) = hdZ (l1 ++ l2).
Proof. by destruct l1. Qed.

Lemma unlinked_length a b es : length (unlinked a b es) = length es.
Proof.
  unfold unlinked. repeat case_decide; by rewrite ?length_alter.
Qed.

Lemma unlinked_other a b es (y : nat) :
  Z.of_nat y ≠ a → Z.of_nat y ≠ b → unlinked a b es !! y = es !! y.
Proof.
  intros Ha Hb. unfold unlinked.
  repeat case_decide; rewrite ?list_lookup_alter_ne; done || lia.
Qed.

Lemma unlinked_prev a b es (y : nat) :
  a = Z.of_nat y → a ≠ b →
  unlinked a b es !! y = set_next_element b <$> es !! y.
Proof.
  intros -> Hb. unfold unlinked.
  destruct (decide (0 <= Z.of_nat y)); [| lia].
  rewrite Nat2Z.id. case_decide.
  - rewrite list_lookup_alter_ne by lia. apply list_lookup_alter_eq.
  - apply list_lookup_alter_eq.
Qed.

Lemma unlinked_next a b es (y : nat) :
  b = Z.of_nat y → a ≠ b →
  unlinked a b es !! y = set_prev_element a <$> es !! y.
Proof.
  intros -> Ha. unfold unlinked.
  destruct (decide (0 <= Z.of_nat y)); [| lia].
  rewrite Nat2Z.id, list_lookup_alter_eq. case_decide; [| done].
  by rewrite list_lookup_alter_ne by lia.
Qed.

(** [unlinked] keeps the class and the tag of every element. *)
Lemma unlinked_owner a b es y el :
  es !! y = Some el →
  ∃ el', unlinked a b es !! y = Some el' ∧ class_id el' = class_id el ∧
         yes el' = yes el.
Proof.
  intros Hel. unfold unlinked.
  assert (∀ f i (l : list Element) e,
            (∀ e0, class_id (f e0) = class_id e0 ∧ yes (f e0) = yes e0) →
            l !! y = Some e →
            ∃ e', alter f i l !! y = Some e' ∧ class_id e' = class_id e ∧
                  yes e' = yes e) as Hstep.
  { intros f i l e Hf He. destruct (decide (i = y)) as [-> | Hne].
    - exists (f e). rewrite list_lookup_alter_eq, He. by destruct (Hf e).
    - exists e. by rewrite list_lookup_alter_ne. }
  repeat case_decide.
  - destruct (Hstep (set_next_element b) (Z.to_nat a) es el) as (e1 & Hl1 & ? & ?);
      [done | done |].
    destruct (Hstep (set_prev_element a) (Z.to_nat b) _ e1 ltac:(done) Hl1)
      as (e2 & Hl2 & ? & ?).
    exists e2. split_and!; congruence.
  - by apply Hstep.
  - by apply Hstep.
  - by exists el.
Qed.

(** Taking [x] out of the list it is in. *)
Lemma dlist_unlinked es q l1 x l2 :
  dlist es q (l1 ++ x :: l2) → NoDup (l1 ++ x :: l2) →
  (∀ z, q = Z.of_nat z → z ∉ l1 ++ x :: l2) →
  dlist (unlinked (lastZ q l1) (hdZ l2) es) q (l1 ++ l2).
Proof.
  revert q. induction l1 as [|y l1 IH]; intros q H Hnd Hq.
  - simpl in *. destruct H as (ex & Hex & Hp & Hn & H).
    apply NoDup_cons in Hnd as [Hx Hnd].
    unfold lastZ; simpl.
    destruct l2 as [|b l2]; simpl; [done |].
    destruct H as (eb & Heb & Hpb & Hnb & H).
    apply NoDup_cons in Hnd as [Hb Hnd].
    assert (q ≠ Z.of_nat b) as Hqb.
    { intros Heq. apply (Hq b Heq). right. left. }
    exists (set_prev_element q eb).
    rewrite unlinked_next, Heb by done. split_and!; [done.. |].
    eapply dlist_agree; [done |]. intros z ez Hz Hez. exists ez.
    rewrite unlinked_other; [done | |].
    + intros Heq. apply (Hq z); [done |]. right. by right.
    + intros Heq%Nat2Z.inj. by subst.
  - simpl in H. destruct H as (ey & Hey & Hpy & Hny & H).
    simpl in Hnd. apply NoDup_cons in Hnd as [Hy Hnd].
    assert (lastZ q (y :: l1) = lastZ (Z.of_nat y) l1) as ->.
    { unfold lastZ. rewrite last_cons. by destruct (last l1). }
    specialize (IH (Z.of_nat y) H Hnd).
    assert (hdZ l2 ≠ Z.of_nat y) as Hby.
    { intros Heq%hdZ_elem. apply Hy. apply elem_of_app. right. by right. }
    simpl. destruct l1 as [|z l1].
    + (* y is the predecessor of x *)
      change (lastZ (Z.of_nat y) []) with (Z.of_nat y) in *.
      exists (set_next_element (hdZ l2) ey).
      rewrite unlinked_prev, Hey by done. split_and!; [done.. |].
      apply IH. by intros ? ->%Nat2Z.inj.
    + assert (lastZ (Z.of_nat y) (z :: l1) ≠ Z.of_nat y) as Hay.
      { unfold lastZ. destruct (last (z :: l1)) as [w|] eqn:E.
        - intros ->%Nat2Z.inj. apply Hy.
          apply last_Some in E as [l' E]. rewrite E.
          rewrite <-!app_assoc. apply elem_of_app. right. left.
        - by apply last_None in E. }
      exists ey. rewrite unlinked_other by done. split_and!; [done.. |].
      apply IH. by intros ? ->%Nat2Z.inj.
Qed.


Lemma pushed_length x f l es : length (pushed x f l es) = length es.
Proof. unfold pushed. destruct l; by rewrite ?length_alter. Qed.

Lemma pushed_self x f l es : x ∉ l → pushed x f l es !! x = f <$> es !! x.
Proof.
  intros Hx. unfold pushed. rewrite list_lookup_alter_eq.
  destruct l as [|h l]; [done |].
  apply not_elem_of_cons in Hx as [? _]. by rewrite list_lookup_alter_ne.
Qed.


Lemma pushed_other x f l es y :
  y ≠ x → hdZ l ≠ Z.of_nat y → pushed x f l es !! y = es !! y.
Proof.
  intros Hx Hh. unfold pushed. rewrite list_lookup_alter_ne by done.
  destruct l as [|h l]; [done |]. simpl in Hh.
  rewrite list_lookup_alter_ne; [done | lia].
Qed.

(** [pushed] keeps class and tag of every element but [x]. *)
Lemma pushed_owner x f l es y el :
  y ≠ x → es !! y = Some el →
  ∃ el', pushed x f l es !! y = Some el' ∧ class_id el' = class_id el ∧
         yes el' = yes el.
Proof.
  intros Hx Hel. unfold pushed. rewrite list_lookup_alter_ne by done.
  destruct l as [|h l]; [by exists el |].
  destruct (decide (h = y)) as [-> | Hne].
  - exists (set_prev_element (Z.of_nat x) el).
    by rewrite list_lookup_alter_eq, Hel.
  - exists el. by rewrite list_lookup_alter_ne.
Qed.

(** * Classes and element arrays that agree on their members *)

Lemma class_ok_agree es es' yc c cl no ys :
  class_ok es yc c cl no ys →
  (∀ y el, y ∈ no ++ ys → es !! y = Some el →
     ∃ el', es' !! y = Some el' ∧ prev_element el' = prev_element el ∧
            next_element el' = next_element el ∧
            class_id el' = class_id el ∧ yes el' = yes el) →
  class_ok es' yc c cl no ys.
Proof.
  intros [] Hag. split; try done.
  - eapply dlist_agree; [done |]. intros y el Hy Hel.
    destruct (Hag y el) as (el' & ? & ? & ? & _); [| done |];
      [apply elem_of_app; by left | by exists el'].
  - eapply dlist_agree; [done |]. intros y el Hy Hel.
    destruct (Hag y el) as (el' & ? & ? & ? & _); [| done |];
      [apply elem_of_app; by right | by exists el'].
  - intros y Hy. destruct (ok_owner0 y Hy) as (el & Hel & Hc & Ht).
    destruct (Hag y el Hy Hel) as (el' & ? & _ & _ & ? & ?).
    exists el'. split_and!; [done | congruence | lia].
  - intros y el' Hy Hel'.
    destruct (ok_owner0 y) as (el & Hel & Hc & Ht);
      [apply elem_of_app; by right |].
    destruct (Hag y el) as (el'' & ? & _ & _ & _ & ?);
      [apply elem_of_app; by right | done |].
    assert (el'' = el') as -> by congruence.
    specialize (ok_tag0 y el Hy Hel). congruence.
Qed.

Lemma class_ok_same es es' yc c cl no ys :
  class_ok es yc c cl no ys →
  (∀ y, y ∈ no ++ ys → es' !! y = es !! y) →
  class_ok es' yc c cl no ys.
Proof.
  intros H Hsame. eapply class_ok_agree; [done |].
  intros y el Hy Hel. exists el. by rewrite Hsame.
Qed.

Lemma class_ok_lt es yc c cl no ys x :
  class_ok es yc c cl no ys → x ∈ no ++ ys → (x < length es)%nat.
Proof.
  intros [] Hx. destruct (ok_owner0 x Hx) as (el & Hel & _).
  by apply lookup_lt_Some in Hel.
Qed.

(** The members of two classes are apart: an element has one class_id. *)
Lemma Shape_disjoint p no ys c1 c2 x :
  Shape p no ys →
  (c1 < length (classes_ p))%nat → (c2 < length (classes_ p))%nat →
  x ∈ no c1 ++ ys c1 → x ∈ no c2 ++ ys c2 → c1 = c2.
Proof.
  intros HS H1 H2 Hx1 Hx2.
  destruct (lookup_lt_is_Some_2 _ _ H1) as [cl1 Hc1].
  destruct (lookup_lt_is_Some_2 _ _ H2) as [cl2 Hc2].
  destruct (ok_owner _ _ _ _ _ _ (HS _ _ Hc1) x Hx1) as (e1 & He1 & Ho1 & _).
  destruct (ok_owner _ _ _ _ _ _ (HS _ _ Hc2) x Hx2) as (e2 & He2 & Ho2 & _).
  assert (e1 = e2) as -> by congruence. lia.
Qed.

Lemma Shape_member p no ys c cl x :
  Shape p no ys → classes_ p !! c = Some cl → x ∈ no c ++ ys c →
  ∃ el, elements_ p !! x = Some el ∧ class_id el = Z.of_nat c.
Proof.
  intros HS Hc Hx.
  destruct (ok_owner _ _ _ _ _ _ (HS _ _ Hc) x Hx) as (el & ? & ? & _).
  by exists el.
Qed.

(** * The member functions in closed form *)

Ltac proj :=
  cbn [elements_ classes_ visited_classes_ yes_counter_ fst snd
       with_elements with_classes with_visited with_yes_counter] in *.

Ltac len :=
  simpl;
  rewrite ?length_alter, ?unlinked_length, ?pushed_length, ?length_app,
    ?length_insert;
  simpl; first [done | lia | auto].

Ltac exec :=
  repeat (first [rewrite upd_elem_nat by len | rewrite upd_cls_nat by len];
          simpl).

Lemma Add_closed p x c cl :
  (x < length (elements_ p))%nat → classes_ p !! c = Some cl →
  (0 <= no_head cl → (Z.to_nat (no_head cl) < length (elements_ p))%nat) →
  Add (Z.of_nat x) (Z.of_nat c) p =
  Ok (mkPartition
        (alter (λ el, set_prev_element (-1)
                        (set_next_element (no_head cl)
                           (set_yes 0 (set_class_id (Z.of_nat c) el)))) x
               (if decide (0 <= no_head cl)
                then alter (set_prev_element (Z.of_nat x))
                           (Z.to_nat (no_head cl)) (elements_ p)
                else elements_ p))
        (alter (λ k, set_no_head (Z.of_nat x) (set_size (size k + 1) k)) c
               (classes_ p))
        (visited_classes_ p) (yes_counter_ p)).
Proof.
  intros Hx Hc Hh. unfold Add.
  destruct (lookup_lt_is_Some_2 _ _ Hx) as [ex Hex].
  assert (c < length (classes_ p))%nat as Hclt by by eapply lookup_lt_Some.
  rewrite (elem_nat _ _ _ Hex), (cls_nat _ _ _ Hc). simpl. exec.
  unfold cls at 1. simpl.
  rewrite (at_index_nat _ c (set_size (size cl + 1) cl))
    by by rewrite list_lookup_alter_eq, Hc.
  simpl. destruct (decide (0 <= no_head cl)) as [Hnn | Hneg].
  - replace (no_head cl) with (Z.of_nat (Z.to_nat (no_head cl))) at 1 by lia.
    exec. unfold with_elements; simpl. do 2 f_equal.
    + by rewrite !list_alter_alter_eq.
    + by rewrite !list_alter_alter_eq.
  - simpl. exec. unfold with_elements; simpl. do 2 f_equal.
    + by rewrite !list_alter_alter_eq.
    + by rewrite !list_alter_alter_eq.
Qed.

Lemma upd_eq f c l : upd f c l c = l.
Proof. unfold upd. by rewrite decide_True. Qed.

Lemma upd_ne f c l c' : c' ≠ c → upd f c l c' = f c'.
Proof. intros H. unfold upd. by rewrite decide_False. Qed.

Lemma pushed_alt x f l es :
  alter f x (if decide (0 <= hdZ l)
             then alter (set_prev_element (Z.of_nat x)) (Z.to_nat (hdZ l)) es
             else es) = pushed x f l es.
Proof.
  unfold pushed. destruct l as [|h l]; unfold hdZ; case_decide; try lia.
  - done.
  - by rewrite Nat2Z.id.
Qed.

Lemma sum_sizes_alter (cs : list Class) c cl f :
  cs !! c = Some cl →
  foldr (λ k acc, size k + acc) 0 (alter f c cs) =
  foldr (λ k acc, size k + acc) 0 cs - size cl + size (f cl).
Proof.
  revert c. induction cs as [|k cs IH]; intros c Hc; [done |].
  destruct c as [|c]; simpl in *.
  - injection Hc as ->. lia.
  - specialize (IH c Hc). unfold alter in IH. lia.
Qed.

Lemma sum_sizes_app (cs : list Class) k :
  foldr (λ k acc, size k + acc) 0 (cs ++ [k]) =
  foldr (λ k acc, size k + acc) 0 cs + size k.
Proof. induction cs as [|k' cs IH]; simpl; lia. Qed.

Lemma total_size_alter p' p c cl f :
  classes_ p !! c = Some cl →
  classes_ p' = alter f c (classes_ p) →
  total_size p' = total_size p - size cl + size (f cl).
Proof. unfold total_size. intros Hc ->. by apply sum_sizes_alter. Qed.


Lemma hdZ_lt es q l : dlist es q l → 0 <= hdZ l → (Z.to_nat (hdZ l) < length es)%nat.
Proof.
  destruct l as [|h l]; simpl; [lia |]. intros (el & Hel & _) _.
  rewrite Nat2Z.id. by eapply lookup_lt_Some.
Qed.

Lemma NoDup_app_l {A} (l k : list A) : NoDup (l ++ k) → NoDup l.
Proof. by intros (? & _ & _)%NoDup_app. Qed.

Lemma NoDup_app_r {A} (l k : list A) : NoDup (l ++ k) → NoDup k.
Proof. by intros (_ & _ & ?)%NoDup_app. Qed.

(** * Add keeps the invariant *)

Lemma Add_Inv p no ys x c :
  Inv p no ys →
  (x < length (elements_ p))%nat → (c < length (classes_ p))%nat →
  unowned p no ys x →
  ∃ p', Add (Z.of_nat x) (Z.of_nat c) p = Ok p' ∧
        Inv p' (upd no c (x :: no c)) ys ∧
        length (elements_ p') = length (elements_ p) ∧
        length (classes_ p') = length (classes_ p) ∧
        total_size p' = total_size p + 1.
Proof.
  intros [HS Hyc Htag Hvis] Hx Hc Hun.
  destruct (lookup_lt_is_Some_2 _ _ Hc) as [cl Hcl].
  pose proof (HS c cl Hcl) as Hok.
  assert (0 <= no_head cl → (Z.to_nat (no_head cl) < length (elements_ p))%nat)
    as Hh.
  { rewrite (ok_no_head _ _ _ _ _ _ Hok). eapply hdZ_lt, ok_no, Hok. }
  eexists. split; [by apply Add_closed |].
  rewrite (ok_no_head _ _ _ _ _ _ Hok), pushed_alt.
  set (F := λ el, set_prev_element (-1) (set_next_element (hdZ (no c))
                    (set_yes 0 (set_class_id (Z.of_nat c) el)))).
  destruct (lookup_lt_is_Some_2 _ _ Hx) as [ex Hex].
  pose proof (Hun c Hc) as Hxc. apply not_elem_of_app in Hxc as [Hxno Hxys].
  assert (∀ c' y, (c' < length (classes_ p))%nat → y ∈ no c' ++ ys c' →
                  y ≠ x) as Hne.
  { intros c' y Hc' Hy ->. by apply (Hun c' Hc'). }
  assert (∀ c' y, (c' < length (classes_ p))%nat → c' ≠ c →
                  y ∈ no c' ++ ys c' → hdZ (no c) ≠ Z.of_nat y) as Hhd.
  { intros c' y Hc' Hcc Hy Heq%hdZ_elem. apply Hcc.
    eapply (Shape_disjoint p no ys c' c y); try done.
    apply elem_of_app. by left. }
  split_and!; simpl.
  - split; simpl; [| done | |].
    + (* the classes *)
      intros c' cl' Hcl'. simpl in Hcl'.
      destruct (decide (c' = c)) as [-> | Hcc].
      * rewrite list_lookup_alter_eq, Hcl in Hcl'. injection Hcl' as <-.
        rewrite upd_eq. destruct Hok. split; simpl; try done.
        -- apply dlist_pushed; try done. by eapply NoDup_app_l.
        -- eapply dlist_agree; [done |]. intros y ey Hy Hey. exists ey.
           rewrite pushed_other; [done | by intros -> |].
           intros Heq%hdZ_elem. apply NoDup_app in ok_nodup0 as (_ & Hd & _).
           by apply (Hd y).
        -- lia.
        -- apply NoDup_cons. split; [| done].
           by apply not_elem_of_app.
        -- intros y [-> | Hy]%elem_of_cons.
           ++ exists (F ex). rewrite pushed_self, Hex by done. simpl.
              split_and!; [done.. | lia].
           ++ destruct (ok_owner0 y Hy) as (ey & Hey & ? & ?).
              destruct (pushed_owner x F (no c) (elements_ p) y ey) as (ey' & ? & ? & ?);
                [by eapply Hne | done |].
              exists ey'. split_and!; [done | congruence | lia].
        -- intros y ey' Hy Hey'.
           destruct (ok_owner0 y) as (ey & Hey & _);
             [apply elem_of_app; by right |].
           destruct (pushed_owner x F (no c) (elements_ p) y ey) as (ey'' & ? & ? & ?);
             [by intros -> | done |].
           assert (ey'' = ey') as -> by congruence.
           rewrite <-(ok_tag0 y ey Hy Hey). congruence.
      * rewrite list_lookup_alter_ne in Hcl' by done. rewrite upd_ne by done.
        assert (c' < length (classes_ p))%nat by by eapply lookup_lt_Some.
        eapply class_ok_same; [by apply HS |].
        intros y Hy. apply pushed_other; [by eapply Hne | by eapply Hhd].
    + (* the tags of the 'no' lists *)
      rewrite length_alter. intros c' y ey' Hc' Hy Hey'.
      destruct (decide (y = x)) as [-> | Hyx].
      * rewrite pushed_self, Hex in Hey' by done. injection Hey' as <-.
        simpl. lia.
      * assert (y ∈ no c') as Hy'.
        { destruct (decide (c' = c)) as [-> | Hcc].
          - rewrite upd_eq in Hy. by apply elem_of_cons in Hy as [? | ?].
          - by rewrite upd_ne in Hy. }
        destruct (lookup_lt_is_Some_2 _ _ Hc') as [cl' Hcl'].
        destruct (ok_owner _ _ _ _ _ _ (HS _ _ Hcl') y) as (ey & Hey & _);
          [apply elem_of_app; by left |].
        destruct (pushed_owner x F (no c) (elements_ p) y ey) as (ey'' & ? & ? & ?);
          [done | done |].
        assert (ey'' = ey') as -> by congruence.
        specialize (Htag c' y ey Hc' Hy' Hey). congruence.
    + by rewrite length_alter.
  - apply pushed_length.
  - apply length_alter.
  - erewrite total_size_alter; [| done | done]. simpl. lia.
Qed.

(** * Taking an element out of the 'no' list of its class *)

Lemma alter_fix {A} (f : A → A) (l : list A) i a :
  l !! i = Some a → f a = a → alter f i l = l.
Proof.
  intros Hi Hf. apply list_eq. intros j.
  destruct (decide (i = j)) as [<- | Hne].
  - by rewrite list_lookup_alter_eq, Hi; simpl; rewrite Hf.
  - by rewrite list_lookup_alter_ne.
Qed.

Lemma lastZ_nil q : lastZ q [] = q.
Proof. done. Qed.

Lemma lastZ_bound q l : q = -1 → lastZ q l < 0 → l = [].
Proof.
  intros -> H. unfold lastZ in H. destruct (last l) eqn:E; [lia |].
  by apply last_None.
Qed.

Lemma lastZ_nonneg_elem l : 0 <= lastZ (-1) l → Z.to_nat (lastZ (-1) l) ∈ l.
Proof.
  intros H. destruct l as [|y l]; [unfold lastZ in H; simpl in H; lia |].
  apply (lastZ_elem (-1)); [done | lia].
Qed.

Lemma hdZ_nonneg_elem l : 0 <= hdZ l → Z.to_nat (hdZ l) ∈ l.
Proof. intros H. apply hdZ_elem. lia. Qed.

Lemma excise_closed p c cl l1 x l2 :
  classes_ p !! c = Some cl → no_head cl = hdZ (l1 ++ x :: l2) →
  dlist (elements_ p) (-1) (l1 ++ x :: l2) → NoDup (l1 ++ x :: l2) →
  excise (Z.of_nat x) (Z.of_nat c) p =
  Ok (mkPartition (unlinked (lastZ (-1) l1) (hdZ l2) (elements_ p))
                  (alter (set_no_head (hdZ (l1 ++ l2))) c (classes_ p))
                  (visited_classes_ p) (yes_counter_ p)).
Proof.
  intros Hc Hh Hl Hnd.
  destruct (dlist_middle _ _ _ _ _ Hl) as (ex & Hex & Hp & Hn).
  assert (c < length (classes_ p))%nat as Hclt by by eapply lookup_lt_Some.
  assert (∀ y, y ∈ l1 ++ x :: l2 → (y < length (elements_ p))%nat) as Hlt.
  { intros y Hy. by eapply dlist_lt. }
  assert ((x ∉ l1) ∧ (x ∉ l2)) as [Hx1 Hx2].
  { apply NoDup_app in Hnd as (_ & Hd & Hnd).
    apply NoDup_cons in Hnd as [? _]. split; [| done].
    intros Hin. apply (Hd x Hin). left. }
  unfold excise. rewrite (elem_nat _ _ _ Hex). simpl. rewrite Hp, Hn.
  unfold unlinked.
  destruct (decide (0 <= lastZ (-1) l1)) as [Ha | Ha].
  - (* a predecessor *)
    pose proof (lastZ_nonneg_elem _ Ha) as Hain.
    assert (l1 ≠ []) as Hl1 by (intros ->; by apply elem_of_nil in Hain).
    replace (lastZ (-1) l1) with (Z.of_nat (Z.to_nat (lastZ (-1) l1))) at 1
      by lia.
    rewrite upd_elem_nat
      by (apply Hlt, elem_of_app; by left). simpl.
    unfold elem; simpl.
    rewrite (at_index_nat _ x ex).
    2:{ rewrite list_lookup_alter_ne; [done |]. intros Heq. apply Hx1.
        by rewrite <-Heq. }
    simpl. rewrite Hp, Hn.
    rewrite (alter_fix _ (classes_ p) c cl Hc).
    2:{ destruct cl; unfold set_no_head; simpl in *. f_equal.
        rewrite Hh. symmetry. by apply hdZ_app_cons. }
    destruct (decide (0 <= hdZ l2)) as [Hb | Hb]; [| done].
    pose proof (hdZ_nonneg_elem _ Hb) as Hbin.
    replace (hdZ l2) with (Z.of_nat (Z.to_nat (hdZ l2))) at 1 by lia.
    rewrite upd_elem_nat
      by (simpl; rewrite length_alter; apply Hlt, elem_of_app; right; by right).
    done.
  - (* the head of the list *)
    assert (l1 = []) as -> by by apply (lastZ_bound (-1)); [| lia].
    simpl in *. rewrite (cls_nat _ _ _ Hc). simpl.
    rewrite Hh, bool_decide_eq_true_2 by done. simpl. exec.
    unfold elem; simpl. rewrite (at_index_nat _ x ex Hex). simpl.
    rewrite Hp, Hn. rewrite lastZ_nil.
    destruct (decide (0 <= hdZ l2)) as [Hb | Hb]; [| done].
    pose proof (hdZ_nonneg_elem _ Hb) as Hbin.
    replace (hdZ l2) with (Z.of_nat (Z.to_nat (hdZ l2))) at 1 by lia.
    rewrite upd_elem_nat by (simpl; apply Hlt; by right).
    done.
Qed.

Lemma NoDup_app_remove_middle {A} (l1 l2 l3 : list A) x :
  NoDup ((l1 ++ x :: l2) ++ l3) → NoDup ((l1 ++ l2) ++ l3) ∧ x ∉ (l1 ++ l2) ++ l3.
Proof.
  rewrite <-!app_assoc. simpl. intros H.
  apply NoDup_app in H as (H1 & Hd & H2).
  apply NoDup_cons in H2 as [Hx H2]. split.
  - apply NoDup_app. split_and!; [done | | done].
    intros y Hy1 Hy2. apply (Hd y Hy1). by right.
  - intros [Hin | Hin]%elem_of_app; [| done]. apply (Hd x Hin). left.
Qed.

Lemma class_ok_unlinked es yc c cl cl' l1 x l2 ys :
  class_ok es yc c cl (l1 ++ x :: l2) ys →
  no_head cl' = hdZ (l1 ++ l2) → yes_head cl' = yes_head cl →
  size cl' = size cl - 1 → yes_size cl' = yes_size cl →
  class_ok (unlinked (lastZ (-1) l1) (hdZ l2) es) yc c cl' (l1 ++ l2) ys.
Proof.
  intros [] Hnh Hyh Hsz Hys.
  destruct (NoDup_app_remove_middle _ _ _ _ ok_nodup0) as [Hnd Hx].
  assert (∀ y, y ∈ (l1 ++ l2) ++ ys → y ∈ (l1 ++ x :: l2) ++ ys) as Hsub.
  { intros y. rewrite !elem_of_app, elem_of_cons. tauto. }
  split; try done.
  - congruence.
  - apply (dlist_unlinked es (-1) l1 x l2);
      [done | by eapply NoDup_app_l | lia].
  - eapply dlist_agree; [done |]. intros y ey Hy Hey. exists ey.
    apply NoDup_app in ok_nodup0 as (_ & Hd & _).
    rewrite unlinked_other; [done | |].
    + intros Heq. destruct l1 as [|z l1]; [unfold lastZ in Heq; simpl in Heq; lia |].
      apply (Hd y); [| done]. apply elem_of_app. left.
      by apply (lastZ_elem (-1)).
    + intros Heq. symmetry in Heq. apply hdZ_elem in Heq.
      apply (Hd y); [| done]. apply elem_of_app. right. by right.
  - rewrite Hsz, ok_size0, !length_app. simpl. lia.
  - congruence.
  - intros y Hy. destruct (ok_owner0 y (Hsub y Hy)) as (ey & Hey & ? & ?).
    destruct (unlinked_owner (lastZ (-1) l1) (hdZ l2) es y ey Hey)
      as (ey' & ? & ? & ?).
    exists ey'. split_and!; [done | congruence | lia].
  - intros y ey' Hy Hey'.
    destruct (ok_owner0 y) as (ey & Hey & _); [apply elem_of_app; by right |].
    destruct (unlinked_owner (lastZ (-1) l1) (hdZ l2) es y ey Hey)
      as (ey'' & ? & ? & ?).
    assert (ey'' = ey') as -> by congruence.
    rewrite <-(ok_tag0 y ey Hy Hey). congruence.
Qed.

(** Linking [x] in front of the 'yes' list of a class. *)
Lemma class_ok_pushed_yes es yc c cl cl' no ys x f :
  class_ok es yc c cl no ys →
  (x < length es)%nat → x ∉ no ++ ys →
  (∀ el, es !! x = Some el →
         prev_element (f el) = -1 ∧ next_element (f el) = hdZ ys ∧
         class_id (f el) = Z.of_nat c ∧ yes (f el) = yc) →
  no_head cl' = no_head cl → yes_head cl' = Z.of_nat x →
  size cl' = size cl + 1 → yes_size cl' = yes_size cl + 1 →
  class_ok (pushed x f ys es) yc c cl' no (x :: ys).
Proof.
  intros [] Hx Hxm Hf Hnh Hyh Hsz Hys.
  destruct (lookup_lt_is_Some_2 _ _ Hx) as [ex Hex].
  destruct (Hf ex Hex) as (Hf1 & Hf2 & Hf3 & Hf4).
  apply not_elem_of_app in Hxm as [Hxno Hxys].
  split; try done.
  - congruence.
  - eapply dlist_agree; [done |]. intros y ey Hy Hey. exists ey.
    rewrite pushed_other; [done | by intros -> |].
    intros Heq%hdZ_elem. apply NoDup_app in ok_nodup0 as (_ & Hd & _).
    by apply (Hd y).
  - unfold pushed.
    destruct ys as [|h ys'] eqn:Eys.
    + exists (f ex). by rewrite list_lookup_alter_eq, Hex.
    + apply not_elem_of_cons in Hxys as [Hxh Hxys].
      pose proof (NoDup_app_r _ _ ok_nodup0) as Hnd.
      apply NoDup_cons in Hnd as [Hh Hnd].
      exists (f ex).
      rewrite list_lookup_alter_eq, list_lookup_alter_ne, Hex by done.
      split_and!; [done.. |].
      apply dlist_alter_out; [by apply not_elem_of_cons |].
      by eapply dlist_head_prev.
  - rewrite Hsz, ok_size0. simpl. lia.
  - rewrite Hys, ok_yes_size0. simpl. lia.
  - apply NoDup_app. apply NoDup_app in ok_nodup0 as (? & Hd & ?).
    split_and!; [done | | by apply NoDup_cons].
    intros y Hy [-> | Hy']%elem_of_cons; [done | by apply (Hd y)].
  - intros y Hy.
    destruct (decide (y = x)) as [-> | Hyx].
    + exists (f ex). rewrite pushed_self, Hex by done. simpl.
      split_and!; [done.. | lia].
    + assert (y ∈ no ++ ys) as Hy'.
      { revert Hy. rewrite !elem_of_app, elem_of_cons. tauto. }
      destruct (ok_owner0 y Hy') as (ey & Hey & ? & ?).
      destruct (pushed_owner x f ys es y ey) as (ey' & ? & ? & ?);
        [done | done |].
      exists ey'. split_and!; [done | congruence | lia].
  - intros y ey' [-> | Hy]%elem_of_cons Hey'.
    + rewrite pushed_self, Hex in Hey' by done. by injection Hey' as <-.
    + destruct (ok_owner0 y) as (ey & Hey & _);
        [apply elem_of_app; by right |].
      destruct (pushed_owner x f ys es y ey) as (ey'' & ? & ? & ?);
        [by intros -> | done |].
      assert (ey'' = ey') as -> by congruence.
      rewrite <-(ok_tag0 y ey Hy Hey). congruence.
Qed.

(** * SplitOn keeps the invariant *)

Lemma SplitOn_closed p c cl l1 x l2 ys ex :
  classes_ p !! c = Some cl →
  class_ok (elements_ p) (yes_counter_ p) c cl (l1 ++ x :: l2) ys →
  elements_ p !! x = Some ex → yes ex ≠ yes_counter_ p →
  SplitOn (Z.of_nat x) p =
  Ok (mkPartition
        (pushed x (λ el, set_prev_element (-1)
                           (set_next_element (hdZ ys)
                              (set_yes (yes_counter_ p) el))) ys
                (unlinked (lastZ (-1) l1) (hdZ l2) (elements_ p)))
        (alter (λ k, set_yes_size (yes_size k + 1)
                       (set_yes_head (Z.of_nat x)
                          (set_no_head (hdZ (l1 ++ l2)) k))) c (classes_ p))
        (match ys with
         | [] => visited_classes_ p ++ [Z.of_nat c]
         | _ :: _ => visited_classes_ p
         end)
        (yes_counter_ p)).
Proof.
  intros Hc Hok Hex Htag.
  assert (class_id ex = Z.of_nat c) as Hcid.
  { destruct (ok_owner _ _ _ _ _ _ Hok x) as (ex' & ? & ? & _).
    - apply elem_of_app. left. apply elem_of_app. right. left.
    - congruence. }
  assert (c < length (classes_ p))%nat as Hclt by by eapply lookup_lt_Some.
  assert (x < length (elements_ p))%nat as Hxlt by by eapply lookup_lt_Some.
  unfold SplitOn. rewrite (elem_nat _ _ _ Hex). simpl.
  rewrite decide_False by done. rewrite Hcid, (cls_nat _ _ _ Hc). simpl.
  rewrite (excise_closed p c cl l1 x l2 Hc);
    [| apply Hok | apply Hok | eapply NoDup_app_l, Hok].
  simpl.
  rewrite (cls_nat _ c (set_no_head (hdZ (l1 ++ l2)) cl))
    by (simpl; by rewrite list_lookup_alter_eq, Hc).
  simpl. rewrite (ok_yes_head _ _ _ _ _ _ Hok).
  assert (∀ es' vs,
    length es' = length (elements_ p) →
    (upd_elem (Z.of_nat x) (set_yes (yes_counter_ p))
       (mkPartition es'
          (alter (set_no_head (hdZ (l1 ++ l2))) c (classes_ p)) vs
          (yes_counter_ p)) ≫= λ p0,
     upd_elem (Z.of_nat x) (set_next_element (hdZ ys)) p0 ≫= λ p1,
     upd_elem (Z.of_nat x) (set_prev_element (-1)) p1 ≫= λ p2,
     upd_cls (Z.of_nat c) (set_yes_head (Z.of_nat x)) p2 ≫= λ p3,
     upd_cls (Z.of_nat c) (λ c0, set_yes_size (yes_size c0 + 1) c0) p3 ≫= λ p4,
     cls p4 (Z.of_nat c) ≫= λ this_class,
     CHECK (bool_decide (yes_size this_class <= size this_class)) ≫= λ _,
     Ok p4) =
    Ok (mkPartition
          (alter (λ el, set_prev_element (-1)
                          (set_next_element (hdZ ys)
                             (set_yes (yes_counter_ p) el))) x es')
          (alter (λ k, set_yes_size (yes_size k + 1)
                         (set_yes_head (Z.of_nat x)
                            (set_no_head (hdZ (l1 ++ l2)) k))) c (classes_ p))
          vs (yes_counter_ p))) as Htail.
  { intros es' vs Hlen.
    rewrite upd_elem_nat by (simpl; lia). simpl.
    rewrite upd_elem_nat by (simpl; rewrite ?length_alter; lia). simpl.
    rewrite upd_elem_nat by (simpl; rewrite ?length_alter; lia). simpl.
    exec. unfold cls; simpl.
    rewrite !list_alter_alter_eq.
    erewrite at_index_nat; [| by rewrite list_lookup_alter_eq, Hc].
    simpl. rewrite bool_decide_eq_true_2.
    - by simpl.
    - rewrite (ok_yes_size _ _ _ _ _ _ Hok), (ok_size _ _ _ _ _ _ Hok).
      rewrite !length_app. simpl. lia. }
  destruct ys as [|h ys'].
  - simpl. unfold with_visited; simpl.
    rewrite (Htail _ _ (unlinked_length _ _ _)). done.
  - simpl. rewrite decide_True by lia.
    assert (h < length (elements_ p))%nat as Hh.
    { eapply (class_ok_lt _ _ _ _ _ _ h Hok). apply elem_of_app. right. left. }
    rewrite upd_elem_nat by (simpl; by rewrite unlinked_length). simpl.
    unfold with_elements; simpl.
    rewrite Htail by by rewrite length_alter, unlinked_length. done.
Qed.

Lemma Shape_lastZ_hdZ_out p no ys c c' l1 x l2 y :
  Shape p no ys →
  (c < length (classes_ p))%nat → (c' < length (classes_ p))%nat → c' ≠ c →
  no c = l1 ++ x :: l2 → y ∈ no c' ++ ys c' →
  Z.of_nat y ≠ lastZ (-1) l1 ∧ Z.of_nat y ≠ hdZ l2 ∧ y ≠ x ∧
  hdZ (ys c) ≠ Z.of_nat y.
Proof.
  intros HS Hc Hc' Hcc Hno Hy.
  assert (∀ z, z ∈ no c ++ ys c → z ≠ y) as Hout.
  { intros z Hz ->. apply Hcc. by eapply (Shape_disjoint p no ys c' c y). }
  split_and!.
  - intros Heq. destruct l1 as [|z l1]; [unfold lastZ in Heq; simpl in Heq; lia |].
    symmetry in Heq. apply (lastZ_elem (-1)) in Heq; [| done].
    apply (Hout y); [| done]. rewrite Hno, !elem_of_app. left. by left.
  - intros Heq. symmetry in Heq. apply hdZ_elem in Heq.
    apply (Hout y); [| done]. rewrite Hno, !elem_of_app, elem_of_cons. tauto.
  - intros ->. apply (Hout x); [| done].
    rewrite Hno, !elem_of_app, elem_of_cons. tauto.
  - intros Heq%hdZ_elem. apply (Hout y); [| done].
    rewrite elem_of_app. tauto.
Qed.

Lemma SplitOn_Inv p no ys c l1 x l2 :
  Inv p no ys → (c < length (classes_ p))%nat → no c = l1 ++ x :: l2 →
  ∃ p', SplitOn (Z.of_nat x) p = Ok p' ∧
        Inv p' (upd no c (l1 ++ l2)) (upd ys c (x :: ys c)) ∧
        length (elements_ p') = length (elements_ p) ∧
        length (classes_ p') = length (classes_ p) ∧
        total_size p' = total_size p ∧
        yes_counter_ p' = yes_counter_ p ∧
        (∀ el, elements_ p' !! x = Some el → yes el = yes_counter_ p').
Proof.
  intros [HS Hyc Htag Hvis] Hc Hno.
  destruct (lookup_lt_is_Some_2 _ _ Hc) as [cl Hcl].
  pose proof (HS c cl Hcl) as Hok. rewrite Hno in Hok.
  assert (x ∈ no c) as Hxno.
  { rewrite Hno, elem_of_app, elem_of_cons. tauto. }
  destruct (ok_owner _ _ _ _ _ _ Hok x) as (ex & Hex & Hcid & _).
  { rewrite <-Hno. apply elem_of_app. by left. }
  pose proof (Htag c x ex Hc Hxno Hex) as Hxtag.
  eexists. split; [by eapply SplitOn_closed |].
  set (G := λ el, set_prev_element (-1) (set_next_element (hdZ (ys c))
                    (set_yes (yes_counter_ p) el))).
  set (es1 := unlinked (lastZ (-1) l1) (hdZ l2) (elements_ p)).
  destruct (NoDup_app_remove_middle _ _ _ _ (ok_nodup _ _ _ _ _ _ Hok))
    as [Hnd Hxout].
  assert (x < length (elements_ p))%nat as Hxlt by by eapply lookup_lt_Some.
  (* elements other than x keep their tag *)
  assert (∀ y ey, y ≠ x → elements_ p !! y = Some ey →
            ∃ ey', pushed x G (ys c) es1 !! y = Some ey' ∧
                   yes ey' = yes ey) as Hkeep.
  { intros y ey Hyx Hey.
    destruct (unlinked_owner (lastZ (-1) l1) (hdZ l2) _ y ey Hey)
      as (e1 & He1 & _ & ?).
    destruct (pushed_owner x G (ys c) es1 y e1 Hyx He1) as (e2 & ? & _ & ?).
    exists e2. split; [done | congruence]. }
  split_and!; proj.
  - split; proj; [| done | |].
    + intros c' cl' Hcl'. proj.
      destruct (decide (c' = c)) as [-> | Hcc].
      * rewrite list_lookup_alter_eq, Hcl in Hcl'. injection Hcl' as <-.
        rewrite !upd_eq.
        eapply (class_ok_pushed_yes es1 _ c
                  (set_size (size cl - 1) (set_no_head (hdZ (l1 ++ l2)) cl)));
          try done.
        -- by apply (class_ok_unlinked _ _ _ cl _ l1 x l2).
        -- unfold es1. by rewrite unlinked_length.
        -- intros el Hel.
           destruct (unlinked_owner (lastZ (-1) l1) (hdZ l2) _ x ex Hex)
             as (e1 & He1 & ? & _).
           assert (e1 = el) as -> by (unfold es1 in Hel; congruence).
           simpl. split_and!; [done.. | congruence | done].
        -- simpl. lia.
      * rewrite list_lookup_alter_ne in Hcl' by done. rewrite !upd_ne by done.
        assert (c' < length (classes_ p))%nat by by eapply lookup_lt_Some.
        eapply class_ok_same; [by apply HS |].
        intros y Hy.
        destruct (Shape_lastZ_hdZ_out p no ys c c' l1 x l2 y)
          as (? & ? & ? & ?); try done.
        rewrite pushed_other by done. by apply unlinked_other.
    + rewrite length_alter. intros c' y ey' Hc' Hy Hey'.
      assert (y ∈ no c' ∧ y ≠ x) as [Hy' Hyx].
      { destruct (decide (c' = c)) as [-> | Hcc].
        - rewrite upd_eq in Hy. split.
          + rewrite Hno. revert Hy. rewrite !elem_of_app, elem_of_cons. tauto.
          + intros ->. apply Hxout. apply elem_of_app. by left.
        - rewrite upd_ne in Hy by done. split; [done |].
          intros ->. apply Hcc.
          eapply (Shape_disjoint p no ys c' c x); try done;
            apply elem_of_app; by left. }
      destruct (lookup_lt_is_Some_2 _ _ Hc') as [cl' Hcl'].
      destruct (ok_owner _ _ _ _ _ _ (HS _ _ Hcl') y) as (ey & Hey & _);
        [apply elem_of_app; by left |].
      destruct (Hkeep y ey Hyx Hey) as (ey'' & ? & ?).
      assert (ey'' = ey') as -> by congruence.
      specialize (Htag c' y ey Hc' Hy' Hey). congruence.
    + rewrite length_alter. destruct Hvis as (vl & Hv & Hvnd & Hviff).
      destruct (ys c) as [|h ysc] eqn:Eys.
      * exists (vl ++ [c]). split_and!.
        -- by rewrite Hv, fmap_app.
        -- apply NoDup_app. split_and!; [done | | apply NoDup_singleton].
           intros z Hz ->%list_elem_of_singleton.
           apply Hviff in Hz as [_ Hz]. done.
        -- intros c'. rewrite elem_of_app, list_elem_of_singleton, Hviff.
           destruct (decide (c' = c)) as [-> | Hcc].
           ++ rewrite upd_eq. split; [intros _; by split | tauto].
           ++ rewrite upd_ne by done. tauto.
      * exists vl. split_and!; [done.. |].
        intros c'. rewrite Hviff.
        destruct (decide (c' = c)) as [-> | Hcc].
        -- rewrite upd_eq, Eys. split; intros [? _]; by split.
        -- by rewrite upd_ne.
  - unfold es1. by rewrite pushed_length, unlinked_length.
  - apply length_alter.
  - erewrite total_size_alter; [| done | done]. simpl. lia.
  - done.
  - intros el. rewrite pushed_self.
    + unfold es1.
      destruct (unlinked_owner (lastZ (-1) l1) (hdZ l2) _ x ex Hex)
        as (e1 & -> & _). simpl. by intros [= <-].
    + intros Hin. apply Hxout. apply elem_of_app. by right.
Qed.

(** * Move keeps the invariant *)

(** The first half of Move: the size is decremented, the element excised. *)
Lemma Move_excise_Inv p no ys c l1 x l2 cl :
  Inv p no ys → classes_ p !! c = Some cl → no c = l1 ++ x :: l2 →
  let p2 := mkPartition
              (unlinked (lastZ (-1) l1) (hdZ l2) (elements_ p))
              (alter (set_no_head (hdZ (l1 ++ l2))) c
                 (alter (λ k, set_size (size k - 1) k) c (classes_ p)))
              (visited_classes_ p) (yes_counter_ p) in
  Inv p2 (upd no c (l1 ++ l2)) ys ∧ unowned p2 (upd no c (l1 ++ l2)) ys x ∧
  total_size p2 = total_size p - 1.
Proof.
  intros [HS Hyc Htag Hvis] Hcl Hno p2.
  assert (c < length (classes_ p))%nat as Hc by by eapply lookup_lt_Some.
  pose proof (HS c cl Hcl) as Hok. rewrite Hno in Hok.
  destruct (NoDup_app_remove_middle _ _ _ _ (ok_nodup _ _ _ _ _ _ Hok))
    as [Hnd Hxout].
  split_and!.
  - split; unfold p2; proj.
    + intros c' cl' Hcl'. proj.
      destruct (decide (c' = c)) as [-> | Hcc].
      * rewrite !list_lookup_alter_eq, Hcl in Hcl'. injection Hcl' as <-.
        rewrite upd_eq.
        by apply (class_ok_unlinked _ _ _ cl _ l1 x l2).
      * rewrite !list_lookup_alter_ne in Hcl' by done. rewrite upd_ne by done.
        assert (c' < length (classes_ p))%nat by by eapply lookup_lt_Some.
        eapply class_ok_same; [by apply HS |].
        intros y Hy.
        destruct (Shape_lastZ_hdZ_out p no ys c c' l1 x l2 y)
          as (? & ? & ? & ?); try done.
        by apply unlinked_other.
    + done.
    + rewrite !length_alter. intros c' y ey' Hc' Hy Hey'.
      assert (y ∈ no c') as Hy'.
      { destruct (decide (c' = c)) as [-> | Hcc].
        - rewrite upd_eq in Hy. rewrite Hno. revert Hy.
          rewrite !elem_of_app, elem_of_cons. tauto.
        - by rewrite upd_ne in Hy. }
      destruct (lookup_lt_is_Some_2 _ _ Hc') as [cl' Hcl'].
      destruct (ok_owner _ _ _ _ _ _ (HS _ _ Hcl') y) as (ey & Hey & _);
        [apply elem_of_app; by left |].
      destruct (unlinked_owner (lastZ (-1) l1) (hdZ l2) _ y ey Hey)
        as (ey'' & ? & _ & ?).
      assert (ey'' = ey') as -> by congruence.
      specialize (Htag c' y ey Hc' Hy' Hey). congruence.
    + by rewrite !length_alter.
  - intros c'. unfold p2; proj. rewrite !length_alter. intros Hc'.
    destruct (decide (c' = c)) as [-> | Hcc].
    + by rewrite upd_eq.
    + rewrite upd_ne by done. intros Hin. apply Hcc.
      eapply (Shape_disjoint p no ys c' c x); try done.
      rewrite Hno, !elem_of_app, elem_of_cons. tauto.
  - unfold p2.
    erewrite (total_size_alter _ (with_classes
                (alter (λ k, set_size (size k - 1) k) c (classes_ p)) p) c
                (set_size (size cl - 1) cl)); [| | done].
    + erewrite (total_size_alter _ p c cl); [| done | done]. simpl. lia.
    + simpl. by rewrite list_lookup_alter_eq, Hcl.
Qed.

Lemma Move_Inv p no ys c1 l1 x l2 c2 :
  Inv p no ys →
  (c1 < length (classes_ p))%nat → (c2 < length (classes_ p))%nat →
  no c1 = l1 ++ x :: l2 → ys c1 = [] →
  let no1 := upd no c1 (l1 ++ l2) in
  ∃ p', Move (Z.of_nat x) (Z.of_nat c2) p = Ok p' ∧
        Inv p' (upd no1 c2 (x :: no1 c2)) ys ∧
        length (elements_ p') = length (elements_ p) ∧
        length (classes_ p') = length (classes_ p) ∧
        total_size p' = total_size p.
Proof.
  intros HInv Hc1 Hc2 Hno Hys no1.
  destruct (lookup_lt_is_Some_2 _ _ Hc1) as [cl Hcl].
  pose proof (inv_shape _ _ _ HInv c1 cl Hcl) as Hok. rewrite Hno, Hys in Hok.
  assert (x ∈ no c1) as Hxno.
  { rewrite Hno, elem_of_app, elem_of_cons. tauto. }
  destruct (ok_owner _ _ _ _ _ _ Hok x) as (ex & Hex & Hcid & _).
  { rewrite <-Hno. apply elem_of_app. by left. }
  pose proof (inv_tag_no _ _ _ HInv c1 x ex Hc1 Hxno Hex) as Hxtag.
  destruct (Move_excise_Inv p no ys c1 l1 x l2 cl HInv Hcl Hno)
    as (HInv2 & Hun2 & Htot2).
  match type of HInv2 with Inv ?q _ _ => set (p2 := q) in * end.
  assert (x < length (elements_ p2))%nat as Hx2.
  { unfold p2; proj. rewrite unlinked_length. by eapply lookup_lt_Some. }
  assert (c2 < length (classes_ p2))%nat as Hc22.
  { unfold p2; proj. by rewrite !length_alter. }
  destruct (Add_Inv p2 no1 ys x c2 HInv2 Hx2 Hc22 Hun2)
    as (p' & HAdd & HInv' & Hle & Hlc & Htot).
  exists p'. split_and!; [| done | | | lia].
  - unfold Move. rewrite (elem_nat _ _ _ Hex). simpl.
    rewrite bool_decide_eq_true_2 by done. simpl. rewrite Hcid.
    exec.
    rewrite (cls_nat _ c1 (set_size (size cl - 1) cl))
      by (simpl; by rewrite list_lookup_alter_eq, Hcl).
    simpl. rewrite bool_decide_eq_true_2.
    2:{ rewrite (ok_size _ _ _ _ _ _ Hok), (ok_yes_size _ _ _ _ _ _ Hok).
        rewrite length_app. simpl. lia. }
    simpl.
    rewrite (excise_closed _ c1 (set_size (size cl - 1) cl) l1 x l2).
    + simpl. apply HAdd.
    + simpl. by rewrite list_lookup_alter_eq, Hcl.
    + simpl. apply Hok.
    + simpl. apply Hok.
    + eapply NoDup_app_l, Hok.
  - rewrite Hle. unfold p2; proj. apply unlinked_length.
  - rewrite Hlc. unfold p2; proj. by rewrite !length_alter.
Qed.

(** * The loop of SplitRefine *)

Lemma relabelled_length n l es : length (relabelled n l es) = length es.
Proof.
  unfold relabelled. revert es.
  induction l as [|x l IH]; intros es; simpl; [done |].
  by rewrite IH, length_alter.
Qed.

Lemma relabelled_out n l es y : y ∉ l → relabelled n l es !! y = es !! y.
Proof.
  unfold relabelled. revert es.
  induction l as [|x l IH]; intros es Hy; simpl; [done |].
  apply not_elem_of_cons in Hy as [Hyx Hy].
  rewrite IH by done. by rewrite list_lookup_alter_ne.
Qed.

Lemma relabelled_in n l es y :
  NoDup l → y ∈ l → relabelled n l es !! y = set_class_id n <$> es !! y.
Proof.
  unfold relabelled. revert es.
  induction l as [|x l IH]; intros es Hnd Hy; simpl; [by inversion Hy |].
  apply NoDup_cons in Hnd as [Hx Hnd].
  apply elem_of_cons in Hy as [-> | Hy].
  - fold (relabelled n l (alter (set_class_id n) x es)).
    rewrite relabelled_out by done. apply list_lookup_alter_eq.
  - rewrite IH by done. rewrite list_lookup_alter_ne; [done |].
    by intros ->.
Qed.

(** [relabelled] only writes class_id. *)
Lemma relabelled_keeps n l es y el :
  NoDup l → es !! y = Some el →
  ∃ el', relabelled n l es !! y = Some el' ∧
         prev_element el' = prev_element el ∧
         next_element el' = next_element el ∧ yes el' = yes el ∧
         class_id el' = (if decide (y ∈ l) then n else class_id el).
Proof.
  intros Hnd Hel. destruct (decide (y ∈ l)) as [Hy | Hy].
  - exists (set_class_id n el). by rewrite relabelled_in, Hel.
  - exists el. by rewrite relabelled_out.
Qed.

Lemma NoDup_bounded_length (l : list nat) n :
  NoDup l → (∀ x, x ∈ l → (x < n)%nat) → (length l ≤ n)%nat.
Proof.
  intros Hnd Hlt.
  assert (length l ≤ length (seq 0%nat n))%nat as H; [| by rewrite length_seq in H].
  apply submseteq_length, NoDup_submseteq; [done |].
  intros x Hx. apply elem_of_seq. specialize (Hlt x Hx). lia.
Qed.

Lemma relabel_closed n es q l fuel :
  dlist es q l → (length l ≤ fuel)%nat →
  relabel fuel n (hdZ l) es = Ok (relabelled n l es).
Proof.
  revert es q fuel. induction l as [|x l IH]; intros es q fuel Hl Hfuel.
  - by destruct fuel.
  - destruct Hl as (ex & Hex & Hp & Hn & Hl). simpl in Hfuel.
    destruct fuel as [|fuel]; [lia |]. simpl.
    rewrite decide_True by lia. rewrite (at_index_nat _ _ _ Hex). simpl.
    rewrite Nat2Z.id, Hn.
    apply (IH _ (Z.of_nat x)); [| lia].
    by apply dlist_alter_links.
Qed.

(** The walk of an iterator along a list. *)
Lemma drain_dlist p q l fuel cid :
  dlist (elements_ p) q l → (length l ≤ fuel)%nat →
  drain fuel p (mkIterator (hdZ l) cid) = Ok (Z.of_nat <$> l).
Proof.
  revert q fuel. induction l as [|x l IH]; intros q fuel Hl Hfuel.
  - by destruct fuel.
  - destruct Hl as (ex & Hex & Hp & Hn & Hl). simpl in Hfuel.
    destruct fuel as [|fuel]; [lia |]. simpl.
    unfold Done; simpl. rewrite bool_decide_eq_false_2 by lia.
    unfold Next; simpl. rewrite (elem_nat _ _ _ Hex). simpl.
    rewrite Hn, (IH (Z.of_nat x)); [done | done | lia].
Qed.

(** * SplitRefine in closed form *)

Lemma alter_insert {A} (f : A → A) (l : list A) i a :
  l !! i = Some a → alter f i l = <[i := f a]> l.
Proof.
  intros Hi. apply list_eq. intros j.
  destruct (decide (i = j)) as [<- | Hne].
  - rewrite list_lookup_alter_eq, Hi, list_lookup_insert_eq; [done |].
    by eapply lookup_lt_Some.
  - by rewrite list_lookup_alter_ne, list_lookup_insert_ne.
Qed.

Lemma alter_snoc {A} (f : A → A) (l : list A) a :
  alter f (length l) (l ++ [a]) = l ++ [f a].
Proof.
  replace (length l) with (length l + 0)%nat at 1 by lia.
  by rewrite alter_app_r.
Qed.

Lemma kept_moved_length no ys :
  (length (kept_list no ys) + length (moved_list no ys) =
   length no + length ys)%nat.
Proof. unfold kept_list, moved_list. case_decide; lia. Qed.

Lemma Class_eq (a b : Class) :
  size a = size b → yes_size a = yes_size b → no_head a = no_head b →
  yes_head a = yes_head b → a = b.
Proof. destruct a, b; simpl; congruence. Qed.

Ltac class_eq :=
  try (apply (f_equal (λ k : Class, [k])));
  apply Class_eq; simpl; first [congruence | lia].

Lemma SplitRefine_closed p c cl no ys :
  classes_ p !! c = Some cl →
  class_ok (elements_ p) (yes_counter_ p) c cl no ys →
  let cs1 := <[c := settled_Class (kept_list no ys)]> (classes_ p) in
  SplitRefine (Z.of_nat c) p =
  Ok (if decide (no = [])
      then (mkPartition (elements_ p) cs1
                        (visited_classes_ p) (yes_counter_ p), -1)
      else (mkPartition
              (relabelled (Z.of_nat (length (classes_ p)))
                          (moved_list no ys) (elements_ p))
              (cs1 ++ [settled_Class (moved_list no ys)])
              (visited_classes_ p) (yes_counter_ p),
            Z.of_nat (length (classes_ p)))).
Proof.
  intros Hc Hok cs1.
  assert (c < length (classes_ p))%nat as Hclt by by eapply lookup_lt_Some.
  pose proof (ok_size _ _ _ _ _ _ Hok) as Hsz.
  pose proof (ok_yes_size _ _ _ _ _ _ Hok) as Hys.
  pose proof (ok_no_head _ _ _ _ _ _ Hok) as Hnh.
  pose proof (ok_yes_head _ _ _ _ _ _ Hok) as Hyh.
  unfold SplitRefine. rewrite (cls_nat _ _ _ Hc). simpl.
  destruct (decide (no = [])) as [-> | Hne].
  - (* every member is in the 'yes' subset *)
    simpl in *. rewrite decide_True by lia.
    rewrite bool_decide_eq_true_2 by lia. simpl. exec.
    unfold with_classes; simpl. do 3 f_equal.
    rewrite !list_alter_alter_eq. unfold cs1.
    rewrite (alter_insert _ _ _ _ Hc). f_equal.
    unfold kept_list. destruct ys; simpl in *; class_eq.
  - assert (length no ≠ 0)%nat as Hlen by by destruct no.
    rewrite decide_False by lia.
    rewrite resize_push.
    assert ((classes_ p ++ [new_Class]) !! c = Some cl) as Hc'
      by by apply lookup_app_l_Some.
    assert (∀ l, l = no ∨ l = ys →
              relabel (length (elements_ p)) (Z.of_nat (length (classes_ p)))
                      (hdZ l) (elements_ p) =
              Ok (relabelled (Z.of_nat (length (classes_ p))) l (elements_ p)))
      as Hrel.
    { intros l Hl. apply (relabel_closed _ _ (-1)).
      - destruct Hl as [-> | ->]; apply Hok.
      - apply NoDup_bounded_length.
        + destruct Hl as [-> | ->];
            [eapply NoDup_app_l | eapply NoDup_app_r]; apply Hok.
        + intros x Hx. eapply (class_ok_lt _ _ _ _ _ _ x Hok).
          apply elem_of_app. destruct Hl as [-> | ->]; [by left | by right]. }
    unfold moved_list, kept_list in *.
    destruct (decide (length no < length ys)%nat) as [Hlt | Hge].
    + rewrite decide_True by lia.
      rewrite (cls_nat _ c cl) by exact Hc'. simpl.
      exec.
      rewrite (cls_nat _ c cl).
      2:{ simpl. rewrite !list_lookup_alter_ne by lia. done. }
      simpl.
      exec.
      rewrite !list_alter_alter_eq.
      rewrite alter_snoc, alter_app_l, (alter_insert _ _ _ _ Hc) by done.
      unfold cls; simpl.
      rewrite (at_index_nat _ (length (classes_ p))
                 (set_size (size cl - yes_size cl)
                    (set_no_head (no_head cl) new_Class))).
      2:{ rewrite lookup_app_r by by rewrite length_insert.
          by rewrite length_insert, Nat.sub_diag. }
      simpl. rewrite Hnh, (Hrel no) by by left. simpl.
      unfold with_elements; simpl. do 3 f_equal. unfold cs1.
      f_equal; [f_equal |]; class_eq.
    + rewrite decide_False by lia.
      exec.
      rewrite (cls_nat _ c cl).
      2:{ simpl. rewrite !list_lookup_alter_ne by lia. done. }
      simpl.
      exec.
      rewrite !list_alter_alter_eq.
      rewrite alter_snoc, alter_app_l, (alter_insert _ _ _ _ Hc) by done.
      unfold cls; simpl.
      rewrite (at_index_nat _ (length (classes_ p))
                 (set_no_head (yes_head cl)
                    (set_size (yes_size cl) new_Class))).
      2:{ rewrite lookup_app_r by by rewrite length_insert.
          by rewrite length_insert, Nat.sub_diag. }
      simpl. rewrite Hyh, (Hrel ys) by by right. simpl.
      unfold with_elements; simpl. do 3 f_equal. unfold cs1.
      f_equal; [f_equal |]; class_eq.
Qed.

(** The split branch of SplitRefine in any state: the records of the two
    classes do not depend on the element array. *)
Lemma SplitRefine_split p (c : nat) cl :
  classes_ p !! c = Some cl → size cl - yes_size cl ≠ 0 →
  let n := length (classes_ p) in
  SplitRefine (Z.of_nat c) p =
  es ← relabel (length (elements_ p)) (Z.of_nat n)
               (no_head (new_Class_after_split cl)) (elements_ p);
  Ok (mkPartition es
        (<[c := old_Class_after_split cl]> (classes_ p)
           ++ [new_Class_after_split cl])
        (visited_classes_ p) (yes_counter_ p), Z.of_nat n).
Proof.
  intros Hc Ho n.
  assert (c < length (classes_ p))%nat as Hclt by by eapply lookup_lt_Some.
  unfold SplitRefine. rewrite (cls_nat _ _ _ Hc). simpl.
  rewrite decide_False by done. rewrite resize_push.
  assert ((classes_ p ++ [new_Class]) !! c = Some cl) as Hc'
    by by apply lookup_app_l_Some.
  unfold old_Class_after_split, new_Class_after_split.
  destruct (decide (size cl - yes_size cl < yes_size cl)) as [Hlt | Hge].
  - rewrite (cls_nat _ c cl) by exact Hc'. simpl. exec.
    rewrite (cls_nat _ c cl).
    2:{ simpl. rewrite !list_lookup_alter_ne by lia. done. }
    simpl. exec. rewrite !list_alter_alter_eq.
    rewrite alter_snoc, alter_app_l, (alter_insert _ _ _ _ Hc) by done.
    unfold cls; simpl.
    rewrite (at_index_nat _ (length (classes_ p))
               (set_size (size cl - yes_size cl)
                  (set_no_head (no_head cl) new_Class))).
    2:{ rewrite lookup_app_r by by rewrite length_insert.
        by rewrite length_insert, Nat.sub_diag. }
    simpl. done.
  - exec.
    rewrite (cls_nat _ c cl).
    2:{ simpl. rewrite !list_lookup_alter_ne by lia. done. }
    simpl. exec. rewrite !list_alter_alter_eq.
    rewrite alter_snoc, alter_app_l, (alter_insert _ _ _ _ Hc) by done.
    unfold cls; simpl.
    rewrite (at_index_nat _ (length (classes_ p))
               (set_no_head (yes_head cl)
                  (set_size (yes_size cl) new_Class))).
    2:{ rewrite lookup_app_r by by rewrite length_insert.
        by rewrite length_insert, Nat.sub_diag. }
    simpl. done.
Qed.

(** * SplitRefine keeps the shape of the classes *)

Lemma kept_moved_facts es yc c cl no ys :
  class_ok es yc c cl no ys →
  dlist es (-1) (kept_list no ys) ∧ dlist es (-1) (moved_list no ys) ∧
  NoDup (kept_list no ys) ∧ NoDup (moved_list no ys) ∧
  (∀ x, x ∈ kept_list no ys → x ∉ moved_list no ys) ∧
  (∀ x, x ∈ kept_list no ys ∨ x ∈ moved_list no ys ↔ x ∈ no ++ ys).
Proof.
  intros []. pose proof ok_nodup0 as Hnd.
  apply NoDup_app in Hnd as (Hn & Hd & Hy).
  unfold kept_list, moved_list. case_decide; split_and!; try done.
  - intros x Hx1 Hx2. by apply (Hd x).
  - intros x. rewrite elem_of_app. tauto.
  - intros x. rewrite elem_of_app. tauto.
Qed.

Lemma class_ok_settled es yc c l :
  dlist es (-1) l → NoDup l →
  (∀ x, x ∈ l → ∃ el, es !! x = Some el ∧ class_id el = Z.of_nat c ∧
                      yes el <= yc) →
  class_ok es yc c (settled_Class l) l [].
Proof.
  intros Hl Hnd Hown. split; simpl; try done.
  - f_equal. lia.
  - by rewrite app_nil_r.
  - intros x. rewrite app_nil_r. apply Hown.
  - intros x el Hx. by apply elem_of_nil in Hx.
Qed.

Lemma kept_list_nil ys : kept_list [] ys = ys.
Proof.
  unfold kept_list. destruct (decide (length [] < length ys)%nat) as [|H];
    [done |].
  destruct ys; [done | simpl in H; lia].
Qed.

Lemma SplitRefine_Shape p no ys c cl :
  Shape p no ys → classes_ p !! c = Some cl →
  let n := length (classes_ p) in
  ∃ p', SplitRefine (Z.of_nat c) p =
          Ok (p', if decide (no c = []) then -1 else Z.of_nat n) ∧
        Shape p' (split_no n c no ys) (split_ys n c no ys) ∧
        yes_counter_ p' = yes_counter_ p ∧
        visited_classes_ p' = visited_classes_ p ∧
        length (elements_ p') = length (elements_ p) ∧
        length (classes_ p') = (if decide (no c = []) then n else S n) ∧
        total_size p' = total_size p ∧
        classes_ p' !! c = Some (settled_Class (kept_list (no c) (ys c))) ∧
        (no c ≠ [] →
         classes_ p' !! n = Some (settled_Class (moved_list (no c) (ys c)))) ∧
        (∀ c', c' ≠ c → (c' < n)%nat → classes_ p' !! c' = classes_ p !! c').
Proof.
  intros HS Hcl n.
  assert (c < n)%nat as Hc by by eapply lookup_lt_Some.
  pose proof (HS c cl Hcl) as Hok.
  destruct (kept_moved_facts _ _ _ _ _ _ Hok)
    as (Hdk & Hdm & Hndk & Hndm & Hdisj & Hmem).
  set (m := if decide (no c = []) then [] else moved_list (no c) (ys c)).
  set (es' := relabelled (Z.of_nat n) m (elements_ p)).
  set (cs1 := <[c := settled_Class (kept_list (no c) (ys c))]> (classes_ p)).
  set (cs' := if decide (no c = []) then cs1
              else cs1 ++ [settled_Class (moved_list (no c) (ys c))]).
  exists (mkPartition es' cs' (visited_classes_ p) (yes_counter_ p)).
  assert (NoDup m) as Hndm'.
  { unfold m. case_decide; [apply NoDup_nil_2 | done]. }
  assert (∀ x, x ∈ m → x ∈ moved_list (no c) (ys c)) as Hm.
  { unfold m. intros x. case_decide; [by intros ?%elem_of_nil | done]. }
  assert (∀ x, x ∈ m → x ∈ no c ++ ys c) as Hmin.
  { intros x Hx%Hm. apply Hmem. by right. }
  assert (length cs1 = n) as Hlen1 by apply length_insert.
  assert (cs1 !! c = Some (settled_Class (kept_list (no c) (ys c)))) as Hcs1c
    by by apply list_lookup_insert_eq.
  assert (total_size (mkPartition es' cs' (visited_classes_ p)
                                  (yes_counter_ p)) = total_size p) as Htot.
  { unfold total_size; proj. unfold cs', cs1.
    pose proof (sum_sizes_alter (classes_ p) c cl
                  (λ _, settled_Class (kept_list (no c) (ys c))) Hcl) as Hsum.
    rewrite (alter_insert _ _ _ _ Hcl) in Hsum.
    pose proof (kept_moved_length (no c) (ys c)) as Hkm.
    pose proof (ok_size _ _ _ _ _ _ Hok) as Hsz.
    destruct (decide (no c = [])) as [E | E].
    - rewrite Hsum. simpl. rewrite E, kept_list_nil in *. simpl in *. lia.
    - rewrite sum_sizes_app, Hsum. simpl. lia. }
  split_and!; proj; try done.
  - (* the call *)
    rewrite (SplitRefine_closed p c cl (no c) (ys c) Hcl Hok).
    unfold es', cs', cs1, m. by destruct (decide (no c = [])).
  - (* the classes *)
    intros c' cl' Hcl'. proj.
    assert (∀ l, (∀ x, x ∈ l → x ∉ m) → dlist (elements_ p) (-1) l →
                 dlist es' (-1) l) as Hdl.
    { intros l Hout Hl. eapply dlist_agree; [done |].
      intros x el Hx Hel. exists el. unfold es'.
      rewrite relabelled_out; [done | by apply Hout]. }
    destruct (decide (c' = c)) as [-> | Hcc].
    + (* the old class *)
      assert (cl' = settled_Class (kept_list (no c) (ys c))) as ->.
      { unfold cs' in Hcl'. destruct (decide (no c = []));
          [| rewrite lookup_app_l in Hcl' by lia]; congruence. }
      assert (split_no n c no ys c = kept_list (no c) (ys c)) as ->.
      { unfold split_no. case_decide; [by rewrite upd_eq |].
        rewrite upd_ne by lia. by rewrite upd_eq. }
      assert (split_ys n c no ys c = []) as ->.
      { unfold split_ys. case_decide; [by rewrite upd_eq |].
        rewrite upd_ne by lia. by rewrite upd_eq. }
      apply class_ok_settled; [| done |].
      * apply Hdl; [| done]. intros x Hx Hxm%Hm. by apply (Hdisj x).
      * intros x Hx.
        destruct (ok_owner _ _ _ _ _ _ Hok x) as (el & Hel & ? & ?);
          [apply Hmem; by left |].
        exists el. unfold es'. rewrite relabelled_out; [done |].
        intros Hxm%Hm. by apply (Hdisj x).
    + destruct (decide (c' = n)) as [-> | Hcn].
      * (* the new class *)
        unfold cs' in Hcl'. destruct (decide (no c = [])) as [E | E].
        { apply lookup_lt_Some in Hcl'. lia. }
        rewrite lookup_app_r, Hlen1, Nat.sub_diag in Hcl' by lia.
        injection Hcl' as <-.
        assert (split_no n c no ys n = moved_list (no c) (ys c)) as ->.
        { unfold split_no. rewrite decide_False by done. by rewrite upd_eq. }
        assert (split_ys n c no ys n = []) as ->.
        { unfold split_ys. rewrite decide_False by done. by rewrite upd_eq. }
        assert (m = moved_list (no c) (ys c)) as Hmeq.
        { unfold m. by repeat case_decide. }
        apply class_ok_settled; [| done |].
        -- eapply dlist_agree; [done |]. intros x el Hx Hel.
           destruct (relabelled_keeps (Z.of_nat n) m _ x el Hndm' Hel)
             as (el' & ? & ? & ? & _).
           by exists el'.
        -- intros x Hx.
           destruct (ok_owner _ _ _ _ _ _ Hok x) as (el & Hel & ? & ?);
             [apply Hmem; by right |].
           destruct (relabelled_keeps (Z.of_nat n) m _ x el Hndm' Hel)
             as (el' & ? & _ & _ & ? & Hcid).
           rewrite decide_True in Hcid by by rewrite Hmeq.
           exists el'. split_and!; [done.. | lia].
      * (* the other classes *)
        assert (c' < n)%nat as Hc'.
        { apply lookup_lt_Some in Hcl'. unfold cs' in Hcl'.
          destruct (decide (no c = []));
            rewrite ?length_app, ?Hlen1 in Hcl'; simpl in Hcl'; lia. }
        assert (classes_ p !! c' = Some cl') as Hold.
        { unfold cs' in Hcl'. destruct (decide (no c = []));
            [| rewrite lookup_app_l in Hcl' by lia];
            unfold cs1 in Hcl'; by rewrite list_lookup_insert_ne in Hcl'. }
        assert (split_no n c no ys c' = no c') as ->.
        { unfold split_no. case_decide; by rewrite !upd_ne. }
        assert (split_ys n c no ys c' = ys c') as ->.
        { unfold split_ys. case_decide; by rewrite !upd_ne. }
        eapply class_ok_same; [by apply HS |].
        intros x Hx. unfold es'. apply relabelled_out.
        intros Hxm%Hmin. apply Hcc.
        by eapply (Shape_disjoint p no ys c' c x).
  - apply relabelled_length.
  - unfold cs'. case_decide; rewrite ?length_app, Hlen1; simpl; lia.
  - unfold cs'. case_decide; [done |]. by apply lookup_app_l_Some.
  - intros E. unfold cs'. rewrite decide_False by done.
    by rewrite lookup_app_r, Hlen1, Nat.sub_diag by lia.
  - intros c' Hcc Hc'. unfold cs'.
    case_decide; [| rewrite lookup_app_l by lia];
      unfold cs1; by rewrite list_lookup_insert_ne.
Qed.

(** * FinalizeSplit keeps the invariant *)

Section FinalizeSplit_facts.
Context {Q : Type} (Enqueue : Z → Q → Q).

Lemma FinalizeSplit_loop_Shape vl : ∀ p no ys (L : option Q),
  Shape p no ys → (∀ c, c ∈ vl → (c < length (classes_ p))%nat) →
  ∃ p' L',
    FinalizeSplit_loop Enqueue (Z.of_nat <$> vl) L p = Ok (p', L') ∧
    Shape p' (refined vl (length (classes_ p)) no ys).1.1
             (refined vl (length (classes_ p)) no ys).1.2 ∧
    length (classes_ p') = (refined vl (length (classes_ p)) no ys).2 ∧
    yes_counter_ p' = yes_counter_ p ∧
    visited_classes_ p' = visited_classes_ p ∧
    length (elements_ p') = length (elements_ p) ∧
    total_size p' = total_size p.
Proof.
  induction vl as [|c vl IH]; intros p no ys L HS Hvl.
  - exists p, L. by simpl.
  - assert (c < length (classes_ p))%nat as Hc by (apply Hvl; left).
    destruct (lookup_lt_is_Some_2 _ _ Hc) as [cl Hcl].
    destruct (SplitRefine_Shape p no ys c cl HS Hcl)
      as (p1 & Hcall & HS1 & Hyc1 & Hv1 & Hle1 & Hlc1 & Htot1 & _).
    set (L1 := if decide ((if decide (no c = []) then -1
                           else Z.of_nat (length (classes_ p))) ≠ -1)
               then match L with
                    | Some q => Some (Enqueue (Z.of_nat (length (classes_ p))) q)
                    | None => None
                    end
               else L).
    destruct (IH p1 _ _ L1 HS1) as (p' & L' & Hloop & HS' & Hlc' & ? & ? & ? & ?).
    { intros c' Hc'. rewrite Hlc1.
      assert (c' < length (classes_ p))%nat by (apply Hvl; by right).
      case_decide; lia. }
    exists p', L'. simpl. rewrite Hcall. simpl.
    rewrite Hlc1 in *.
    split_and!; try done; try congruence.
    rewrite <-Hloop. unfold L1. by repeat case_decide.
Qed.
End FinalizeSplit_facts.

Lemma split_ys_cases n c no ys c' :
  split_ys n c no ys c' = [] ∨ (c' ≠ c ∧ split_ys n c no ys c' = ys c').
Proof.
  unfold split_ys, upd. repeat case_decide; auto.
Qed.

Lemma refined_ys_nil vl : ∀ n no ys,
  (∀ c, c ∈ vl → (c < n)%nat) →
  (∀ c, (c < n)%nat → ys c ≠ [] → c ∈ vl) →
  ∀ c, (c < (refined vl n no ys).2)%nat → (refined vl n no ys).1.2 c = [].
Proof.
  induction vl as [|c0 vl IH]; intros n no ys Hlt Hvis c Hc; simpl in *.
  - destruct (ys c) eqn:E; [done |].
    exfalso. eapply elem_of_nil, (Hvis c); [done | by rewrite E].
  - apply IH; [| | done].
    + intros c' Hc'. assert (c' < n)%nat by (apply Hlt; by right).
      case_decide; lia.
    + intros c' Hc' Hne.
      destruct (split_ys_cases n c0 no ys c') as [E | [Hcc E]]; [done |].
      rewrite E in Hne.
      assert (c' < n)%nat as Hc'n.
      { destruct (decide (no c0 = [])) as [E0 | E0]; [done |].
        destruct (decide (c' = n)) as [-> | ?]; [| lia].
        exfalso. apply Hne. unfold split_ys in E.
        rewrite decide_False, upd_eq in E by done. done. }
      specialize (Hvis c' Hc'n Hne).
      by apply elem_of_cons in Hvis as [? | ?].
Qed.

Lemma class_ok_bump es yc c cl no :
  class_ok es yc c cl no [] → class_ok es (yc + 1) c cl no [].
Proof.
  intros []. split; try done.
  - intros x Hx. destruct (ok_owner0 x Hx) as (el & ? & ? & ?).
    exists el. split_and!; [done.. | lia].
  - intros x el Hx. by apply elem_of_nil in Hx.
Qed.

Section FinalizeSplit_Inv.
Context {Q : Type} (Enqueue : Z → Q → Q).

(** Where the increment of yes_counter_ does not overflow. *)
Lemma wrap_T_small z : T_min <= z <= T_max → wrap_T z = z.
Proof.
  unfold wrap_T, T_min, T_max, T_bits. intros H.
  rewrite Z.mod_small; lia.
Qed.

Lemma wrap_T_overflow : wrap_T (T_max + 1) = T_min.
Proof. reflexivity. Qed.

Lemma with_yes_counter_same q : with_yes_counter (yes_counter_ q) q = q.
Proof. by destruct q. Qed.

(** FinalizeSplit returns [q] with the epoch counter wrapped into [T];
    [q] is the partition with the counter not wrapped, which satisfies
    the invariant. *)
Lemma FinalizeSplit_Inv p no ys vl (L : option Q) :
  Inv p no ys → visited_classes_ p = Z.of_nat <$> vl →
  let r := refined vl (length (classes_ p)) no ys in
  ∃ q L',
    FinalizeSplit Enqueue L p =
      Ok (with_yes_counter (wrap_T (yes_counter_ p + 1)) q, L') ∧
    Inv q r.1.1 r.1.2 ∧
    length (classes_ q) = r.2 ∧
    yes_counter_ q = yes_counter_ p + 1 ∧
    visited_classes_ q = [] ∧
    length (elements_ q) = length (elements_ p) ∧
    total_size q = total_size p.
Proof.
  intros [HS Hyc Htag Hvis] Hvl r.
  destruct Hvis as (vl' & Hvl' & Hnd & Hiff).
  assert (vl' = vl) as ->.
  { rewrite Hvl in Hvl'. by apply (inj (fmap Z.of_nat)) in Hvl'. }
  destruct (FinalizeSplit_loop_Shape Enqueue vl p no ys L HS)
    as (p1 & L1 & Hloop & HS1 & Hlc1 & Hyc1 & Hv1 & Hle1 & Htot1).
  { intros c Hc. by apply Hiff in Hc as [? _]. }
  fold r in HS1, Hlc1.
  assert (∀ c, (c < r.2)%nat → r.1.2 c = []) as Hnil.
  { apply refined_ys_nil.
    - intros c Hc. by apply Hiff in Hc as [? _].
    - intros c Hc Hne. by apply Hiff. }
  exists (with_yes_counter (yes_counter_ p1 + 1) (with_visited [] p1)), L1.
  split_and!; proj; try done.
  - unfold FinalizeSplit. rewrite Hvl, Hloop. simpl. by rewrite Hyc1.
  - split; proj.
    + intros c cl Hcl. proj.
      assert (c < r.2)%nat as Hc.
      { rewrite <-Hlc1. by eapply lookup_lt_Some. }
      rewrite (Hnil c Hc). apply class_ok_bump.
      rewrite <-(Hnil c Hc). by apply HS1.
    + lia.
    + intros c x el Hc Hx Hel.
      destruct (lookup_lt_is_Some_2 _ _ Hc) as [cl Hcl].
      destruct (ok_owner _ _ _ _ _ _ (HS1 c cl Hcl) x) as (el' & ? & _ & ?);
        [apply elem_of_app; by left |].
      assert (el' = el) as -> by congruence. lia.
    + exists []. split_and!; [done | apply NoDup_nil_2 |].
      intros c. split; [by intros ?%elem_of_nil |].
      intros [Hc Hne]. exfalso. apply Hne, Hnil. by rewrite <-Hlc1.
  - lia.
Qed.

End FinalizeSplit_Inv.

(** The wrapped counter is not read by what a caller can observe of the
    classes. *)
Lemma drain_elements p p' : ∀ fuel it,
  elements_ p' = elements_ p → drain fuel p' it = drain fuel p it.
Proof.
  intros fuel it He. revert it.
  induction fuel as [|fuel IH]; intros it; simpl; [done |].
  destruct (Done it); [done |]. unfold Next, elem. rewrite He.
  destruct (at_index (elements_ p) (element_id_ it)); simpl; try done.
  by rewrite IH.
Qed.

Lemma bump_drain y q fuel it :
  drain fuel (with_yes_counter y q) it = drain fuel q it.
Proof. by apply drain_elements. Qed.

Lemma bump_class_elements y q c :
  class_elements (with_yes_counter y q) c = class_elements q c.
Proof.
  unfold class_elements, PartitionIterator_ctor, cls. proj.
  destruct (at_index (classes_ q) c); simpl; try done. apply bump_drain.
Qed.

Lemma bump_yes_elements y q c :
  yes_elements (with_yes_counter y q) c = yes_elements q c.
Proof.
  unfold yes_elements, cls. proj.
  destruct (at_index (classes_ q) c); simpl; try done. apply bump_drain.
Qed.

Lemma bump_owned y q e : owned (with_yes_counter y q) e = owned q e.
Proof.
  unfold owned, elem, is_member. proj.
  destruct (at_index (elements_ q) e); try done.
  by rewrite bump_class_elements, bump_yes_elements.
Qed.

Lemma bump_class_id_of y q e :
  class_id_of (with_yes_counter y q) e = class_id_of q e.
Proof. done. Qed.

Lemma bump_cls y q c : cls (with_yes_counter y q) c = cls q c.
Proof. done. Qed.

Ltac unbump :=
  rewrite ?bump_class_elements, ?bump_yes_elements, ?bump_owned,
    ?bump_class_id_of, ?bump_cls in *;
  proj.

(** Below the greatest value of [T] the counter does not wrap. *)
Lemma bump_WF y q no ys :
  Inv q no ys → y + 1 = yes_counter_ q → 1 <= y → y < T_max →
  with_yes_counter (wrap_T (y + 1)) q = q.
Proof.
  intros _ Hy H1 Hlt.
  rewrite wrap_T_small by (unfold T_min, T_max, T_bits in *; lia).
  rewrite Hy. apply with_yes_counter_same.
Qed.


(** * What the iterator enumerates *)

Lemma class_ok_length es yc c cl no ys :
  class_ok es yc c cl no ys →
  (length no ≤ length es)%nat ∧ (length ys ≤ length es)%nat.
Proof.
  intros Hok. split; apply NoDup_bounded_length.
  - eapply NoDup_app_l, Hok.
  - intros x Hx. eapply (class_ok_lt _ _ _ _ _ _ x Hok), elem_of_app. by left.
  - eapply NoDup_app_r, Hok.
  - intros x Hx. eapply (class_ok_lt _ _ _ _ _ _ x Hok), elem_of_app. by right.
Qed.

Lemma Shape_class_elements p no ys c cl :
  Shape p no ys → classes_ p !! c = Some cl →
  class_elements p (Z.of_nat c) = Ok (Z.of_nat <$> no c) ∧
  yes_elements p (Z.of_nat c) = Ok (Z.of_nat <$> ys c).
Proof.
  intros HS Hcl. pose proof (HS c cl Hcl) as Hok.
  destruct (class_ok_length _ _ _ _ _ _ Hok) as [Hln Hly].
  unfold class_elements, yes_elements, PartitionIterator_ctor.
  rewrite (cls_nat _ _ _ Hcl). simpl.
  rewrite (ok_no_head _ _ _ _ _ _ Hok), (ok_yes_head _ _ _ _ _ _ Hok).
  split; apply (drain_dlist _ (-1)); try done; apply Hok.
Qed.

(** * Membership, stated on the partition itself *)

Lemma is_member_spec p no ys (x c : nat) :
  Shape p no ys → (c < length (classes_ p))%nat →
  is_member p (Z.of_nat x) (Z.of_nat c) = true ↔ x ∈ no c ++ ys c.
Proof.
  intros HS Hc. destruct (lookup_lt_is_Some_2 _ _ Hc) as [cl Hcl].
  destruct (Shape_class_elements p no ys c cl HS Hcl) as [Hn Hy].
  unfold is_member. rewrite Hn, Hy, bool_decide_eq_true, <-fmap_app.
  split.
  - intros (y & Heq & Hy')%list_elem_of_fmap. by apply Nat2Z.inj in Heq as ->.
  - intros Hx. apply list_elem_of_fmap. by exists x.
Qed.

Lemma is_member_range p e c :
  is_member p e c = true → in_range (classes_ p) c.
Proof.
  unfold is_member, class_elements, PartitionIterator_ctor, cls.
  destruct (decide (in_range (classes_ p) c)) as [| Hout]; [done |].
  by rewrite (at_index_out _ _ Hout).
Qed.

Lemma owned_spec p no ys e :
  Shape p no ys →
  owned p e = true ↔
  ∃ x c, e = Z.of_nat x ∧ (c < length (classes_ p))%nat ∧ x ∈ no c ++ ys c.
Proof.
  intros HS. unfold owned, elem. split.
  - destruct (at_index (elements_ p) e) as [el | | |] eqn:E; try done.
    apply at_index_Ok in E as [He Hel]. intros Hm.
    pose proof (is_member_range _ _ _ Hm) as [Hc0 Hc].
    exists (Z.to_nat e), (Z.to_nat (class_id el)).
    split_and!; [lia | lia |].
    apply (is_member_spec p no ys); [done | lia |].
    by rewrite !Z2Nat.id by lia.
  - intros (x & c & -> & Hc & Hx).
    destruct (lookup_lt_is_Some_2 _ _ Hc) as [cl Hcl].
    destruct (Shape_member p no ys c cl x HS Hcl Hx) as (el & Hel & Hcid).
    rewrite (at_index_nat _ _ _ Hel), Hcid.
    by apply (is_member_spec p no ys).
Qed.

Lemma not_owned_spec p no ys (x : nat) :
  Shape p no ys → owned p (Z.of_nat x) = false → unowned p no ys x.
Proof.
  intros HS Hun c Hc Hx.
  assert (owned p (Z.of_nat x) = true) as Hown; [| congruence].
  apply (owned_spec p no ys); [done |]. by exists x, c.
Qed.

Lemma in_range_nat {A} (v : list A) i :
  in_range v i → ∃ n : nat, i = Z.of_nat n ∧ (n < length v)%nat.
Proof. unfold in_range. intros H. exists (Z.to_nat i). lia. Qed.

(** * The member functions keep well-formed partitions well-formed *)

Lemma WF_Initialize n p :
  visited_classes_ p = [] → WF (Initialize n p).
Proof.
  intros Hv. exists (λ _, []), (λ _, []). split; simpl.
  - intros c cl Hc. simpl in Hc. by rewrite lookup_nil in Hc.
  - lia.
  - intros c x el Hc. lia.
  - exists []. rewrite Hv. split_and!; [done | apply NoDup_nil_2 |].
    intros c. split; [by intros ?%elem_of_nil | simpl; lia].
Qed.

Lemma WF_ctor n : WF (Partition_ctor n).
Proof. by apply WF_Initialize. Qed.

Lemma class_ok_new es yc c : class_ok es yc c new_Class [] [].
Proof.
  split; simpl; try done.
  - apply NoDup_nil_2.
  - by intros x ?%elem_of_nil.
  - by intros x el ?%elem_of_nil.
Qed.

Lemma AddClass_Inv p no ys :
  Inv p no ys →
  Inv (AddClass p).1 (upd no (length (classes_ p)) [])
      (upd ys (length (classes_ p)) []).
Proof.
  intros [HS Hyc Htag Hvis]. unfold AddClass. rewrite resize_push.
  split; proj; try done.
  - intros c cl Hcl. proj.
    destruct (decide (c = length (classes_ p))) as [-> | Hne].
    + rewrite lookup_app_r, Nat.sub_diag in Hcl by lia.
      injection Hcl as <-. rewrite !upd_eq. apply class_ok_new.
    + assert (c < length (classes_ p))%nat as Hc.
      { apply lookup_lt_Some in Hcl. rewrite length_app in Hcl.
        simpl in Hcl. lia. }
      rewrite lookup_app_l in Hcl by done. rewrite !upd_ne by done.
      by apply HS.
  - rewrite length_app. simpl. intros c x el Hc Hx Hel.
    destruct (decide (c = length (classes_ p))) as [-> | Hne].
    + rewrite upd_eq in Hx. by apply elem_of_nil in Hx.
    + rewrite upd_ne in Hx by done. apply (Htag c x el); [lia | done..].
  - destruct Hvis as (vl & ? & ? & Hiff). exists vl.
    split_and!; [done.. |]. intros c. rewrite Hiff, length_app. simpl.
    destruct (decide (c = length (classes_ p))) as [-> | Hne].
    + rewrite upd_eq. split; [lia | tauto].
    + rewrite upd_ne by done. split; intros [? ?]; split; (done || lia).
Qed.

Lemma AddClass_WF p : WF p → WF (AddClass p).1.
Proof. intros (no & ys & H). eexists _, _. by apply AddClass_Inv. Qed.

Lemma Add_WF p e c :
  WF p → in_range (elements_ p) e → in_range (classes_ p) c →
  owned p e = false →
  ∃ p', Add e c p = Ok p' ∧ WF p' ∧ total_size p' = total_size p + 1 ∧
        length (elements_ p') = length (elements_ p) ∧
        length (classes_ p') = length (classes_ p).
Proof.
  intros (no & ys & HInv) (x & -> & Hx)%in_range_nat (k & -> & Hk)%in_range_nat
         Hun.
  destruct (Add_Inv p no ys x k HInv Hx Hk) as (p' & ? & ? & ? & ? & ?).
  { apply not_owned_spec; [apply HInv | done]. }
  exists p'. split_and!; try done. by eexists _, _.
Qed.

Lemma in_split_list (l : list nat) x : x ∈ l → ∃ l1 l2, l = l1 ++ x :: l2.
Proof. intros H. by apply list_elem_of_split in H. Qed.

Lemma SplitOn_WF p e :
  WF p → owned p e = true →
  ∃ p', SplitOn e p = Ok p' ∧ WF p' ∧ total_size p' = total_size p ∧
        length (elements_ p') = length (elements_ p) ∧
        length (classes_ p') = length (classes_ p) ∧
        yes_counter_ p' = yes_counter_ p.
Proof.
  intros (no & ys & HInv) Hown.
  apply (owned_spec p no ys) in Hown as (x & c & -> & Hc & Hx);
    [| apply HInv].
  destruct (lookup_lt_is_Some_2 _ _ Hc) as [cl Hcl].
  apply elem_of_app in Hx as [Hx | Hx].
  - apply in_split_list in Hx as (l1 & l2 & Hno).
    destruct (SplitOn_Inv p no ys c l1 x l2 HInv Hc Hno)
      as (p' & Hcall & HInv' & ? & ? & ? & ? & _).
    exists p'. split_and!; try done. by eexists _, _.
  - (* already in the 'yes' subset *)
    exists p. split_and!; try done; [| by exists no, ys].
    destruct HInv as [HS _ _ _].
    destruct (ok_owner _ _ _ _ _ _ (HS c cl Hcl) x) as (ex & Hex & _);
      [apply elem_of_app; by right |].
    unfold SplitOn. rewrite (elem_nat _ _ _ Hex). simpl.
    by rewrite decide_True by by eapply (ok_tag _ _ _ _ _ _ (HS c cl Hcl) x).
Qed.

Lemma Move_WF p e c el cl :
  WF p → owned p e = true → elem p e = Ok el →
  cls p (class_id el) = Ok cl → yes_size cl = 0 →
  in_range (classes_ p) c →
  ∃ p', Move e c p = Ok p' ∧ WF p' ∧ total_size p' = total_size p ∧
        length (elements_ p') = length (elements_ p) ∧
        length (classes_ p') = length (classes_ p).
Proof.
  intros (no & ys & HInv) Hown Hel Hcl Hys (k & -> & Hk)%in_range_nat.
  pose proof (inv_shape _ _ _ HInv) as HS.
  apply (owned_spec p no ys) in Hown as (x & c1 & -> & Hc1 & Hx); [| done].
  destruct (lookup_lt_is_Some_2 _ _ Hc1) as [cl1 Hcl1].
  destruct (Shape_member p no ys c1 cl1 x HS Hcl1 Hx) as (el' & Hel' & Hcid).
  apply at_index_Ok in Hel as [_ Hel]. rewrite Nat2Z.id in Hel.
  assert (el' = el) as -> by congruence.
  rewrite Hcid in Hcl. apply at_index_Ok in Hcl as [_ Hcl].
  rewrite Nat2Z.id in Hcl. assert (cl1 = cl) as -> by congruence.
  assert (ys c1 = []) as Hnil.
  { pose proof (ok_yes_size _ _ _ _ _ _ (HS c1 cl Hcl1)) as Hlen.
    destruct (ys c1); [done | simpl in Hlen; lia]. }
  rewrite Hnil, app_nil_r in Hx.
  apply in_split_list in Hx as (l1 & l2 & Hno).
  destruct (Move_Inv p no ys c1 l1 x l2 k HInv Hc1 Hk Hno Hnil)
    as (p' & ? & ? & ? & ? & ?).
  exists p'. split_and!; try done. by eexists _, _.
Qed.

Lemma WF_visited p :
  WF p → ∃ vl : list nat, visited_classes_ p = Z.of_nat <$> vl.
Proof. intros (no & ys & [_ _ _ (vl & ? & _)]). by exists vl. Qed.

Lemma FinalizeSplit_WF {Q} (Enqueue : Z → Q → Q) (L : option Q) p :
  WF p →
  ∃ p' L', FinalizeSplit Enqueue L p = Ok (p', L') ∧
           total_size p' = total_size p ∧
           length (elements_ p') = length (elements_ p) ∧
           visited_classes_ p' = [] ∧
           yes_counter_ p' = wrap_T (yes_counter_ p + 1) ∧
           (yes_counter_ p < T_max →
            WF p' ∧ yes_counter_ p' = yes_counter_ p + 1).
Proof.
  intros HWF. destruct (WF_visited p HWF) as (vl & Hvl).
  destruct HWF as (no & ys & HInv).
  destruct (FinalizeSplit_Inv Enqueue p no ys vl L HInv Hvl)
    as (q & L' & Hcall & HInv' & _ & Hyc & Hv & Hle & Htot).
  eexists _, L'. split_and!; [exact Hcall | done.. |].
  intros Hlt. pose proof (inv_counter _ _ _ HInv) as H1.
  rewrite wrap_T_small by (unfold T_min, T_max, T_bits in *; lia).
  rewrite <-Hyc, with_yes_counter_same. split; [by eexists _, _ | done].
Qed.

(** * Counting the owned elements *)

Lemma elem_of_concat {A} (x : A) (ls : list (list A)) :
  x ∈ concat ls ↔ ∃ l, x ∈ l ∧ l ∈ ls.
Proof.
  induction ls as [|k ls IH]; simpl.
  - split; [by intros ?%elem_of_nil | by intros (l & _ & ?%elem_of_nil)].
  - rewrite elem_of_app, IH. split.
    + intros [Hx | (l & Hx & Hl)].
      * exists k. split; [done | left].
      * exists l. split; [done | by right].
    + intros (l & Hx & [-> | Hl]%elem_of_cons); [by left |].
      right. by exists l.
Qed.

Lemma NoDup_concat_seq (g : nat → list nat) n :
  (∀ c, (c < n)%nat → NoDup (g c)) →
  (∀ c1 c2 x, (c1 < n)%nat → (c2 < n)%nat → x ∈ g c1 → x ∈ g c2 → c1 = c2) →
  NoDup (concat (g <$> seq 0 n)).
Proof.
  induction n as [|n IH]; intros Hnd Hdisj; [apply NoDup_nil_2 |].
  rewrite seq_S, fmap_app, concat_app. simpl. rewrite app_nil_r.
  apply NoDup_app. split_and!.
  - apply IH; [intros; apply Hnd; lia |].
    intros c1 c2 x ? ?. apply Hdisj; lia.
  - intros x (l & Hx & Hl)%elem_of_concat Hxn.
    apply list_elem_of_fmap in Hl as (c & -> & Hc%elem_of_seq).
    assert (c = n) by (apply (Hdisj c n x); (done || lia)). lia.
  - apply Hnd. lia.
Qed.

Lemma elem_of_concat_seq (g : nat → list nat) n x :
  x ∈ concat (g <$> seq 0 n) ↔ ∃ c, (c < n)%nat ∧ x ∈ g c.
Proof.
  rewrite elem_of_concat. split.
  - intros (l & Hx & Hl). apply list_elem_of_fmap in Hl as (c & -> & Hc).
    apply elem_of_seq in Hc. exists c. split; [lia | done].
  - intros (c & Hc & Hx). exists (g c). split; [done |].
    apply list_elem_of_fmap. exists c. split; [done |].
    apply elem_of_seq. lia.
Qed.

Lemma sum_sizes_concat (cs : list Class) (g : nat → list nat) k :
  (∀ i cl, cs !! i = Some cl → size cl = Z.of_nat (length (g (k + i)%nat))) →
  foldr (λ c acc, size c + acc) 0 cs =
  Z.of_nat (length (concat (g <$> seq k (length cs)))).
Proof.
  revert k. induction cs as [|cl cs IH]; intros k H; [done |].
  simpl. rewrite length_app, (IH (S k)).
  - rewrite (H 0%nat cl eq_refl), Nat.add_0_r, Nat2Z.inj_add. by f_equal.
  - intros i cl' Hi. rewrite (H (S i) cl' Hi). do 3 f_equal. lia.
Qed.

Lemma total_size_owned_count p :
  WF p → total_size p = Z.of_nat (owned_count p).
Proof.
  intros (no & ys & HInv). pose proof (inv_shape _ _ _ HInv) as HS.
  set (g := λ c, no c ++ ys c).
  unfold total_size, owned_count.
  rewrite (sum_sizes_concat _ g 0).
  2:{ intros i cl Hi. simpl. unfold g. rewrite length_app.
      apply (ok_size _ _ _ _ _ _ (HS i cl Hi)). }
  f_equal. apply Permutation_length, NoDup_Permutation.
  - apply NoDup_concat_seq.
    + intros c Hc. destruct (lookup_lt_is_Some_2 _ _ Hc) as [cl Hcl].
      apply (ok_nodup _ _ _ _ _ _ (HS c cl Hcl)).
    + intros c1 c2 x Hc1 Hc2. by apply (Shape_disjoint p no ys).
  - apply NoDup_filter, NoDup_seq.
  - intros x. rewrite elem_of_concat_seq, list_elem_of_filter, elem_of_seq.
    rewrite (owned_spec p no ys) by done. split.
    + intros (c & Hc & Hx). split; [by exists x, c |].
      destruct (lookup_lt_is_Some_2 _ _ Hc) as [cl Hcl].
      pose proof (class_ok_lt _ _ _ _ _ _ x (HS c cl Hcl) Hx). lia.
    + intros [(y & c & Heq & Hc & Hy) _]. apply Nat2Z.inj in Heq as <-.
      by exists c.
Qed.

Lemma class_sizes_split p c cl :
  WF p → classes_ p !! c = Some cl →
  ∃ l1 l2, class_elements p (Z.of_nat c) = Ok l1 ∧
           yes_elements p (Z.of_nat c) = Ok l2 ∧
           Z.of_nat (length l1) + yes_size cl = size cl ∧
           yes_size cl = Z.of_nat (length l2) ∧
           NoDup (l1 ++ l2) ∧
           (∀ e, e ∈ l1 ++ l2 → class_id_of p e = Ok (Z.of_nat c)) ∧
           0 <= size cl <= Z.of_nat (length (elements_ p)).
Proof.
  intros (no & ys & HInv) Hcl. pose proof (inv_shape _ _ _ HInv) as HS.
  destruct (Shape_class_elements p no ys c cl HS Hcl) as [Hn Hy].
  pose proof (HS c cl Hcl) as Hok.
  exists (Z.of_nat <$> no c), (Z.of_nat <$> ys c).
  rewrite !length_fmap, <-fmap_app. split_and!; try done.
  - rewrite (ok_size _ _ _ _ _ _ Hok), (ok_yes_size _ _ _ _ _ _ Hok). lia.
  - apply Hok.
  - apply (NoDup_fmap_2 Z.of_nat), Hok.
  - intros e (x & -> & Hx)%list_elem_of_fmap.
    destruct (ok_owner _ _ _ _ _ _ Hok x Hx) as (el & Hel & Hcid & _).
    unfold class_id_of. rewrite (elem_nat _ _ _ Hel). simpl. by rewrite Hcid.
  - rewrite (ok_size _ _ _ _ _ _ Hok). lia.
  - rewrite (ok_size _ _ _ _ _ _ Hok), <-length_app.
    pose proof (NoDup_bounded_length (no c ++ ys c) (length (elements_ p))
                  (ok_nodup _ _ _ _ _ _ Hok)
                  (λ x, class_ok_lt _ _ _ _ _ _ x Hok)).
    lia.
Qed.

(** * The abstract value after the loop of FinalizeSplit *)

Lemma refined_mono vl : ∀ n no ys, (n ≤ (refined vl n no ys).2)%nat.
Proof.
  induction vl as [|c vl IH]; intros n no ys; simpl; [done |].
  etrans; [| apply IH]. case_decide; lia.
Qed.

Lemma split_frame n c no ys c' :
  c' ≠ c → (c' < n)%nat →
  split_no n c no ys c' = no c' ∧ split_ys n c no ys c' = ys c'.
Proof.
  intros Hcc Hc'. unfold split_no, split_ys.
  case_decide; rewrite !upd_ne by lia; done.
Qed.

Lemma refined_frame vl : ∀ n no ys c,
  c ∉ vl → (c < n)%nat →
  (refined vl n no ys).1.1 c = no c ∧ (refined vl n no ys).1.2 c = ys c.
Proof.
  induction vl as [|c0 vl IH]; intros n no ys c Hc Hcn; simpl; [done |].
  apply not_elem_of_cons in Hc as [Hcc Hc].
  destruct (split_frame n c0 no ys c Hcc Hcn) as [<- <-].
  apply IH; [done |]. case_decide; lia.
Qed.

Lemma refined_visited vl : ∀ n no ys c,
  NoDup vl → c ∈ vl → (∀ c', c' ∈ vl → (c' < n)%nat) →
  let r := refined vl n no ys in
  r.1.1 c = kept_list (no c) (ys c) ∧ r.1.2 c = [] ∧
  (no c ≠ [] →
   ∃ k, (n ≤ k < r.2)%nat ∧ r.1.1 k = moved_list (no c) (ys c) ∧
        r.1.2 k = []).
Proof.
  induction vl as [|c0 vl IH]; intros n no ys c Hnd Hc Hlt;
    [by apply elem_of_nil in Hc |].
  apply NoDup_cons in Hnd as [Hc0 Hnd].
  assert (c0 < n)%nat as Hc0n by (apply Hlt; left).
  assert (∀ c', c' ∈ vl → (c' < n)%nat) as Hlt' by (intros; apply Hlt; by right).
  set (n1 := if decide (no c0 = []) then n else S n).
  assert (n ≤ n1)%nat as Hn1 by (unfold n1; case_decide; lia).
  simpl. fold n1.
  apply elem_of_cons in Hc as [-> | Hc].
  - (* the class visited now *)
    destruct (refined_frame vl n1 (split_no n c0 no ys) (split_ys n c0 no ys) c0)
      as [-> ->]; [done | lia |].
    split_and!.
    + unfold split_no. case_decide; [by rewrite upd_eq |].
      rewrite upd_ne by lia. by rewrite upd_eq.
    + unfold split_ys. case_decide; [by rewrite upd_eq |].
      rewrite upd_ne by lia. by rewrite upd_eq.
    + intros Hne. exists n.
      assert (n1 = S n) as Hn1' by (unfold n1; by rewrite decide_False).
      destruct (refined_frame vl n1 (split_no n c0 no ys)
                  (split_ys n c0 no ys) n) as [-> ->]; [| lia |].
      { intros Hin. apply Hlt' in Hin. lia. }
      pose proof (refined_mono vl n1 (split_no n c0 no ys) (split_ys n c0 no ys)).
      split_and!; [lia | lia | |].
      * unfold split_no. rewrite decide_False by done. by rewrite upd_eq.
      * unfold split_ys. rewrite decide_False by done. by rewrite upd_eq.
  - (* a class visited later *)
    assert (c ≠ c0) as Hcc by (intros ->; done).
    assert (c < n)%nat as Hcn by by apply Hlt'.
    destruct (split_frame n c0 no ys c Hcc Hcn) as [Eno Eys].
    destruct (IH n1 (split_no n c0 no ys) (split_ys n c0 no ys) c Hnd Hc)
      as (H1 & H2 & H3).
    { intros c' Hc'. specialize (Hlt' c' Hc'). lia. }
    rewrite Eno, Eys in *. split_and!; [done.. |].
    intros Hne. destruct (H3 Hne) as (k & ? & ? & ?).
    exists k. split_and!; [lia | lia | done..].
Qed.

(** * The properties of the specification *)

(** C6.  AddClass appends exactly one empty class and returns its index,
    which is the number of classes before the call; num_classes is one
    greater afterwards, and nothing else changes. *)
Theorem AddClass_appends_one_empty_class (p : Partition) :
  (AddClass p).2 = num_classes p ∧
  classes_ (AddClass p).1 = classes_ p ++ [new_Class] ∧
  num_classes (AddClass p).1 = num_classes p + 1 ∧
  class_size (AddClass p).1 (AddClass p).2 = Ok 0 ∧
  class_elements (AddClass p).1 (AddClass p).2 = Ok [] ∧
  yes_elements (AddClass p).1 (AddClass p).2 = Ok [] ∧
  elements_ (AddClass p).1 = elements_ p ∧
  visited_classes_ (AddClass p).1 = visited_classes_ p ∧
  yes_counter_ (AddClass p).1 = yes_counter_ p.
Proof.
  unfold AddClass, num_classes. proj. rewrite resize_push.
  assert ((classes_ p ++ [new_Class]) !! length (classes_ p) = Some new_Class)
    as Hnew by by rewrite lookup_app_r, Nat.sub_diag by lia.
  split_and!; try done.
  - rewrite length_app. simpl. lia.
  - unfold class_size. by rewrite (cls_nat _ _ new_Class) by exact Hnew.
  - unfold class_elements, PartitionIterator_ctor.
    rewrite (cls_nat _ _ new_Class) by exact Hnew.
    simpl. by destruct (length (elements_ p)).
  - unfold yes_elements.
    rewrite (cls_nat _ _ new_Class) by exact Hnew.
    simpl. by destruct (length (elements_ p)).
Qed.

(** C9.  Initialize resizes the element storage, clears the classes and
    sets the epoch counter to 1, but leaves visited_classes_ as it was:
    after SplitOn(1) on the partition of scenario A, re-initialising keeps
    the stale entry 0 although no class is left, so the result is not the
    freshly constructed partition and FinalizeSplit then reads out of the
    bounds of classes_. *)
Theorem Initialize_keeps_visited_classes :
  (∀ n p,
     elements_ (Initialize n p) = resize n zero_Element (elements_ p) ∧
     length (elements_ (Initialize n p)) = n ∧
     classes_ (Initialize n p) = [] ∧
     yes_counter_ (Initialize n p) = 1 ∧
     visited_classes_ (Initialize n p) = visited_classes_ p) ∧
  (∃ p, SplitOn 1 partition_A = Ok p ∧
        visited_classes_ (Initialize 4 p) = [0] ∧
        classes_ (Initialize 4 p) = [] ∧
        Initialize 4 p ≠ Partition_ctor 4 ∧
        FinalizeSplit enqueue_back (Some []) (Initialize 4 p) = Undefined).
Proof.
  split.
  - intros n p. unfold Initialize. simpl. split_and!; try done.
    apply length_resize.
  - eexists. split; [vm_compute; reflexivity |]. by vm_compute.
Qed.

Section Null_queue.
Context {Q : Type} (Enqueue : Z → Q → Q).

Lemma FinalizeSplit_loop_null vs : ∀ (q : Q) p,
  FinalizeSplit_loop Enqueue vs None p =
  (λ r, (r.1, None)) <$> FinalizeSplit_loop Enqueue vs (Some q) p.
Proof.
  induction vs as [|c vs IH]; intros q p; simpl; [done |].
  destruct (SplitRefine c p) as [[p1 n] | | |]; simpl; try done.
  destruct (decide (n ≠ -1)); apply IH.
Qed.

Lemma FinalizeSplit_loop_queue vs : ∀ (q : Q) p,
  FinalizeSplit_loop Enqueue vs (Some q) p =
  (λ r, (r.1, Some (foldl (λ q c, Enqueue c q) q (new_classes vs p))))
    <$> FinalizeSplit_loop Enqueue vs None p.
Proof.
  induction vs as [|c vs IH]; intros q p; simpl; [done |].
  destruct (SplitRefine c p) as [[p1 n] | | |]; simpl; try done.
  destruct (decide (n ≠ -1)); simpl; by rewrite IH.
Qed.

End Null_queue.

(** C2, as the specification words it: false.  AddClass was called twice,
    so the class that FinalizeSplit creates is class 2. *)
Lemma scenario_A_not_as_specified : ¬ scenario_A_as_specified.
Proof.
  intros (p & q & Hrun & Hsz & _). vm_compute in Hrun.
  injection Hrun as <- <-. vm_compute in Hsz. discriminate.
Qed.

(** C2, amended.  After Initialize(4), two AddClass and the four Add,
    class 0 has size 4.  After SplitOn(1), SplitOn(2) and FinalizeSplit(q)
    the new class is class 2, of size 2 with the elements 2 and 1; class 0
    has size 2 with the elements 3 and 0; class 1 is still empty; the queue
    holds [2]. *)
Theorem scenario_A_creates_class_2 :
  (p ← scenario_A_setup; class_size p 0) = Ok 4 ∧
  ∃ p, scenario_A = Ok (p, Some [2]) ∧
       num_classes p = 3 ∧
       class_size p 2 = Ok 2 ∧ class_elements p 2 = Ok [2; 1] ∧
       class_size p 0 = Ok 2 ∧ class_elements p 0 = Ok [3; 0] ∧
       class_size p 1 = Ok 0 ∧ class_elements p 1 = Ok [] ∧
       class_id_of p 1 = Ok 2 ∧ class_id_of p 2 = Ok 2 ∧
       class_id_of p 0 = Ok 0 ∧ class_id_of p 3 = Ok 0.
Proof.
  split; [by vm_compute |].
  eexists. split; [vm_compute; reflexivity |]. by vm_compute.
Qed.

(** * Checked and unchecked preconditions *)

Lemma modify_index_never {A} (v : list A) i f :
  modify_index v i f ≠ CheckFailed ∧ modify_index v i f ≠ Diverges.
Proof.
  unfold modify_index. destruct (at_index_never v i).
  by destruct (at_index v i).
Qed.

Lemma upd_elem_never i f p :
  upd_elem i f p ≠ CheckFailed ∧ upd_elem i f p ≠ Diverges.
Proof.
  unfold upd_elem. destruct (modify_index_never (elements_ p) i f).
  by destruct (modify_index (elements_ p) i f).
Qed.

Lemma upd_cls_never c f p :
  upd_cls c f p ≠ CheckFailed ∧ upd_cls c f p ≠ Diverges.
Proof.
  unfold upd_cls. destruct (modify_index_never (classes_ p) c f).
  by destruct (modify_index (classes_ p) c f).
Qed.

(** Add has no CHECK and no loop. *)
Lemma Add_never e c p : Add e c p ≠ CheckFailed ∧ Add e c p ≠ Diverges.
Proof.
  unfold Add, elem, cls.
  destruct (at_index_never (elements_ p) e).
  destruct (at_index (elements_ p) e); simpl; try done.
  destruct (at_index_never (classes_ p) c).
  destruct (at_index (classes_ p) c); simpl; try done.
  destruct (upd_cls_never c (λ k, set_size (size k + 1) k) p).
  destruct (upd_cls c _ p) as [p1 | | |]; simpl; try done.
  destruct (at_index_never (classes_ p1) c).
  destruct (at_index (classes_ p1) c) as [tc | | |]; simpl; try done.
  assert (∀ q, (if decide (0 <= no_head tc)
                then upd_elem (no_head tc) (set_prev_element e) q
                else Ok q) ≠ CheckFailed ∧
               (if decide (0 <= no_head tc)
                then upd_elem (no_head tc) (set_prev_element e) q
                else Ok q) ≠ Diverges) as Hif.
  { intros q. case_decide; [apply upd_elem_never | done]. }
  destruct (Hif p1).
  destruct (if decide (0 <= no_head tc) then _ else _) as [p2 | | |];
    simpl; try done.
  destruct (upd_cls_never c (set_no_head e) p2).
  destruct (upd_cls c _ p2) as [p3 | | |]; simpl; try done.
  destruct (upd_elem_never e (set_class_id c) p3).
  destruct (upd_elem e _ p3) as [p4 | | |]; simpl; try done.
  destruct (upd_elem_never e (set_yes 0) p4).
  destruct (upd_elem e _ p4) as [p5 | | |]; simpl; try done.
  destruct (upd_elem_never e (set_next_element (no_head tc)) p5).
  destruct (upd_elem e _ p5) as [p6 | | |]; simpl; try done.
  apply upd_elem_never.
Qed.

Lemma Add_out_of_range e c p :
  ¬ in_range (elements_ p) e ∨ ¬ in_range (classes_ p) c →
  Add e c p = Undefined.
Proof.
  intros Hout. unfold Add, elem, cls.
  destruct (decide (in_range (elements_ p) e)) as [Hin | Hnin].
  - destruct Hout as [? | Hc]; [done |].
    destruct (at_index_in _ _ Hin) as (el & -> & _). simpl.
    by rewrite (at_index_out _ _ Hc).
  - by rewrite (at_index_out _ _ Hnin).
Qed.

Lemma excise_classes e c p p' :
  excise e c p = Ok p' →
  length (classes_ p') = length (classes_ p) ∧
  yes_counter_ p' = yes_counter_ p.
Proof.
  unfold excise. intros (el & _ & (p1 & H1 & (el1 & _ & H2)%bind_Ok)%bind_Ok)%bind_Ok.
  assert (length (classes_ p1) = length (classes_ p) ∧
          yes_counter_ p1 = yes_counter_ p) as [<- <-].
  { destruct (decide (0 <= prev_element el)).
    - by apply upd_elem_Ok in H1 as (-> & _ & -> & _).
    - apply bind_Ok in H1 as (tc & _ & (_ & _ & H1)%bind_Ok).
      by apply upd_cls_Ok in H1 as (_ & _ & -> & ->). }
  destruct (decide (0 <= next_element el1)).
  - by apply upd_elem_Ok in H2 as (-> & _ & -> & _).
  - by injection H2 as <-.
Qed.

Lemma excise_terminates e c p : excise e c p ≠ Diverges.
Proof.
  unfold excise, elem, cls.
  destruct (at_index_never (elements_ p) e).
  destruct (at_index (elements_ p) e) as [el | | |]; simpl; try done.
  assert ((if decide (0 <= prev_element el)
           then upd_elem (prev_element el)
                         (set_next_element (next_element el)) p
           else the_class ← at_index (classes_ p) c;
                _ ← CHECK (bool_decide (no_head the_class = e));
                upd_cls c (set_no_head (next_element el)) p) ≠ Diverges) as H1.
  { case_decide; [apply upd_elem_never |].
    destruct (at_index_never (classes_ p) c).
    destruct (at_index (classes_ p) c) as [tc | | |]; simpl; try done.
    destruct (bool_decide _); simpl; [apply upd_cls_never | done]. }
  destruct (if decide (0 <= prev_element el) then _ else _) as [p1 | | |];
    simpl; try done.
  destruct (at_index_never (elements_ p1) e).
  destruct (at_index (elements_ p1) e) as [el1 | | |]; simpl; try done.
  case_decide; [apply upd_elem_never | done].
Qed.

(** C7, as the specification words it: false for Add.  The second Add of
    element 0 is not detected: it returns, and class 0 then has size 2
    for one element. *)
Lemma duplicate_add_is_not_detected :
  duplicate_add ≠ CheckFailed ∧
  ∃ p1 p2, Add 0 0 one_unassigned = Ok p1 ∧
           owned p1 0 = true ∧
           Add 0 0 p1 = Ok p2 ∧ duplicate_add = Ok p2 ∧
           class_size p2 0 = Ok 2.
Proof.
  split; [by vm_compute |].
  eexists _, _. split; [vm_compute; reflexivity |].
  split; [by vm_compute |]. split; [vm_compute; reflexivity |].
  by vm_compute.
Qed.

(** C8, as the specification words it: false.  No bounds are checked:
    class_size of a class that does not exist is an access out of the
    bounds of classes_, not a failed CHECK, and so is Add of an element
    that does not exist. *)
Lemma out_of_range_is_not_reported :
  ¬ in_range (classes_ (Partition_ctor 0)) 0 ∧
  class_size (Partition_ctor 0) 0 = Undefined ∧
  class_size (Partition_ctor 0) 0 ≠ CheckFailed ∧
  ¬ in_range (elements_ partition_A) 7 ∧
  Add 7 0 partition_A = Undefined ∧
  Add 7 0 partition_A ≠ CheckFailed.
Proof.
  split_and!; try (by vm_compute); unfold in_range; simpl; lia.
Qed.

(** C8, amended.  No member function checks an index.  An element index out
    of the bounds of elements_ makes Add, Move, SplitOn and class_id an
    unchecked access (undefined behaviour); a class index out of the bounds
    of classes_ makes Add, class_size and the constructor of the iterator
    an unchecked access, and Move either that or a CHECK that failed
    before the class was reached; nothing is clamped or ignored, and no
    such call returns. *)
Theorem out_of_range_is_unchecked (p : Partition) (i : Z) :
  (¬ in_range (elements_ p) i →
   (∀ c, Add i c p = Undefined) ∧ (∀ c, Move i c p = Undefined) ∧
   SplitOn i p = Undefined ∧ class_id_of p i = Undefined) ∧
  (¬ in_range (classes_ p) i →
   (∀ e, Add e i p = Undefined) ∧
   (∀ e, Move e i p = Undefined ∨ Move e i p = CheckFailed) ∧
   class_size p i = Undefined ∧ PartitionIterator_ctor p i = Undefined).
Proof.
  split; intros Hout.
  - split_and!.
    + intros c. apply Add_out_of_range. by left.
    + intros c. unfold Move, elem. by rewrite (at_index_out _ _ Hout).
    + unfold SplitOn, elem. by rewrite (at_index_out _ _ Hout).
    + unfold class_id_of, elem. by rewrite (at_index_out _ _ Hout).
  - split_and!.
    + intros e. apply Add_out_of_range. by right.
    + intros e. unfold Move, elem.
      destruct (at_index_never (elements_ p) e).
      destruct (at_index (elements_ p) e) as [el | | |]; simpl; auto; try done.
      destruct (bool_decide _); simpl; auto.
      destruct (upd_cls_never (class_id el) (λ k, set_size (size k - 1) k) p).
      destruct (upd_cls (class_id el) _ p) as [p1 | | |] eqn:E1; simpl;
        auto; try done.
      apply upd_cls_Ok in E1 as (_ & _ & _ & Hl1).
      unfold cls. destruct (at_index_never (classes_ p1) (class_id el)).
      destruct (at_index (classes_ p1) (class_id el)) as [oc | | |]; simpl;
        auto; try done.
      destruct (bool_decide _); simpl; auto.
      pose proof (excise_terminates e (class_id el) p1).
      destruct (excise e (class_id el) p1) as [p2 | | |] eqn:E2; simpl;
        auto; try done.
      apply excise_classes in E2 as [E2 _]. left.
      apply Add_out_of_range. right.
      unfold in_range in *. lia.
    + unfold class_size, cls. by rewrite (at_index_out _ _ Hout).
    + unfold PartitionIterator_ctor, cls. by rewrite (at_index_out _ _ Hout).
Qed.

Lemma out_of_range_is_unchecked_witness :
  SplitOn 4 partition_A = Undefined ∧ class_size partition_A 2 = Undefined.
Proof.
  split.
  - apply (proj1 (out_of_range_is_unchecked partition_A 4)).
    unfold in_range. simpl. lia.
  - apply (proj2 (out_of_range_is_unchecked partition_A 2)).
    unfold in_range. simpl. lia.
Defined.

(** * SplitOn twice *)

Lemma upd_elem_inv i f p p' :
  upd_elem i f p = Ok p' →
  0 <= i ∧ (Z.to_nat i < length (elements_ p))%nat ∧
  p' = with_elements (alter f (Z.to_nat i) (elements_ p)) p.
Proof.
  unfold upd_elem, modify_index.
  intros (es & (a & [? Ha]%at_index_Ok & [= <-])%bind_Ok & [= <-])%bind_Ok.
  split_and!; [done | by eapply lookup_lt_Some | done].
Qed.

(** After a call of SplitOn that returned, the element carries the tag. *)
Lemma SplitOn_tagged e p p1 :
  SplitOn e p = Ok p1 →
  ∃ el, elem p1 e = Ok el ∧ yes el = yes_counter_ p1.
Proof.
  unfold SplitOn. intros (el & Hel & H)%bind_Ok.
  destruct (decide (yes el = yes_counter_ p)) as [Hy | Hy].
  { injection H as <-. by exists el. }
  apply bind_Ok in H as (_ & _ & (pa & Ha & H)%bind_Ok).
  apply bind_Ok in H as (tc & _ & (pb & Hb & H)%bind_Ok).
  apply bind_Ok in H as (pc & Hc & (pd & Hd & H)%bind_Ok).
  apply bind_Ok in H as (pe & He & (pf & Hf & H)%bind_Ok).
  apply bind_Ok in H as (pg & Hg & (tc2 & _ & (_ & _ & [= <-])%bind_Ok)%bind_Ok).
  apply excise_classes in Ha as [_ Hya].
  assert (yes_counter_ pb = yes_counter_ pa) as Hyb.
  { destruct (decide (0 <= yes_head tc)).
    - by apply upd_elem_Ok in Hb as (_ & _ & -> & _).
    - by injection Hb as <-. }
  apply upd_elem_inv in Hc as (He0 & Hlt & ->).
  apply upd_elem_inv in Hd as (_ & _ & ->).
  apply upd_elem_inv in He as (_ & _ & ->).
  apply upd_cls_Ok in Hf as (Hfe & _ & Hfy & _).
  apply upd_cls_Ok in Hg as (Hge & _ & Hgy & _).
  simpl in *.
  destruct (lookup_lt_is_Some_2 _ _ Hlt) as [eb Heb].
  exists (set_prev_element (-1)
            (set_next_element (yes_head tc) (set_yes (yes_counter_ pb) eb))).
  split.
  - apply at_index_Ok. split; [done |].
    rewrite Hge, Hfe. by rewrite !list_lookup_alter_eq, Heb.
  - simpl. congruence.
Qed.

Lemma SplitOn_again e p p1 : SplitOn e p = Ok p1 → SplitOn e p1 = Ok p1.
Proof.
  intros (el & Hel & Hy)%SplitOn_tagged. unfold SplitOn. rewrite Hel. simpl.
  by rewrite decide_True.
Qed.

Lemma WF_partition_A : WF partition_A.
Proof.
  pose proof (AddClass_WF _ (AddClass_WF _ (WF_ctor 4))) as H0.
  destruct (Add_WF _ 0 0 H0) as (p1 & E1 & H1 & _);
    [unfold in_range; simpl; lia.. | by vm_compute |].
  vm_compute in E1. injection E1 as <-.
  destruct (Add_WF _ 1 0 H1) as (p2 & E2 & H2 & _);
    [unfold in_range; simpl; lia.. | by vm_compute |].
  vm_compute in E2. injection E2 as <-.
  destruct (Add_WF _ 2 0 H2) as (p3 & E3 & H3 & _);
    [unfold in_range; simpl; lia.. | by vm_compute |].
  vm_compute in E3. injection E3 as <-.
  destruct (Add_WF _ 3 0 H3) as (p4 & E4 & H4 & _);
    [unfold in_range; simpl; lia.. | by vm_compute |].
  vm_compute in E4. injection E4 as <-.
  exact H4.
Qed.

Lemma WF_partition_A_split : WF partition_A_split.
Proof.
  destruct (SplitOn_WF _ 1 WF_partition_A) as (p1 & E1 & H1 & _);
    [by vm_compute |].
  vm_compute in E1. injection E1 as <-.
  destruct (SplitOn_WF _ 2 H1) as (p2 & E2 & H2 & _); [by vm_compute |].
  vm_compute in E2. injection E2 as <-.
  exact H2.
Qed.

Lemma WF_partition_B : WF partition_B.
Proof.
  destruct (SplitOn_WF _ 0 WF_partition_A_split) as (p1 & E1 & H1 & _);
    [by vm_compute |].
  vm_compute in E1. injection E1 as <-.
  destruct (SplitOn_WF _ 3 H1) as (p2 & E2 & H2 & _); [by vm_compute |].
  vm_compute in E2. injection E2 as <-.
  exact H2.
Qed.

(** C4.  SplitOn is idempotent within an epoch: two calls in a row have
    the effect of one, in every state; a call on an element that carries
    the current tag returns at once and changes nothing; and on an element
    that was added to a class of a well-formed partition the call does
    return, so the second call is that no-op. *)
Theorem SplitOn_idempotent :
  (∀ p e, SplitOn e p ≫= SplitOn e = SplitOn e p) ∧
  (∀ p e el, elem p e = Ok el → yes el = yes_counter_ p →
             SplitOn e p = Ok p) ∧
  (∀ p e, WF p → owned p e = true →
          ∃ p1, SplitOn e p = Ok p1 ∧ SplitOn e p1 = Ok p1 ∧ WF p1).
Proof.
  split_and!.
  - intros p e. destruct (SplitOn e p) as [p1 | | |] eqn:E; simpl; try done.
    by apply SplitOn_again in E.
  - intros p e el Hel Hy. unfold SplitOn. rewrite Hel. simpl.
    by rewrite decide_True.
  - intros p e HWF Hown.
    destruct (SplitOn_WF p e HWF Hown) as (p1 & E & HWF1 & _).
    exists p1. split_and!; [done | by apply (SplitOn_again e p) | done].
Qed.

Lemma SplitOn_idempotent_witness :
  ∃ p1, SplitOn 1 partition_A = Ok p1 ∧ SplitOn 1 p1 = Ok p1 ∧ WF p1.
Proof.
  apply (proj2 (proj2 SplitOn_idempotent) partition_A 1).
  - exact WF_partition_A.
  - vm_compute. reflexivity.
Defined.

(** * What FinalizeSplit does to a visited class *)

Lemma visited_elem p no ys vl c :
  Inv p no ys → visited_classes_ p = Z.of_nat <$> vl →
  Z.of_nat c ∈ visited_classes_ p →
  NoDup vl ∧ c ∈ vl ∧ (∀ c', c' ∈ vl → (c' < length (classes_ p))%nat) ∧
  ys c ≠ [].
Proof.
  intros [_ _ _ (vl' & Hvl' & Hnd & Hiff)] Hvl Hc.
  assert (vl' = vl) as ->.
  { rewrite Hvl in Hvl'. by apply (inj (fmap Z.of_nat)) in Hvl'. }
  rewrite Hvl in Hc. apply (list_elem_of_fmap_inj_2 Z.of_nat) in Hc.
  split_and!; [done | done | |].
  - intros c' Hc'. by apply Hiff in Hc' as [? _].
  - by apply Hiff in Hc as [_ ?].
Qed.

Lemma settled_lookup p no ys c cl :
  Shape p no ys → classes_ p !! c = Some cl → ys c = [] →
  cl = settled_Class (no c) ∧
  class_elements p (Z.of_nat c) = Ok (Z.of_nat <$> no c) ∧
  yes_elements p (Z.of_nat c) = Ok [] ∧
  ∀ x, x ∈ no c → class_id_of p (Z.of_nat x) = Ok (Z.of_nat c).
Proof.
  intros HS Hcl Hys. pose proof (HS c cl Hcl) as Hok.
  destruct (Shape_class_elements p no ys c cl HS Hcl) as [Hn Hy].
  rewrite Hys in *. split_and!; [| done | done |].
  - apply Class_eq; simpl; try apply Hok.
    rewrite (ok_size _ _ _ _ _ _ Hok). simpl. f_equal. lia.
  - intros x Hx.
    destruct (ok_owner _ _ _ _ _ _ Hok x) as (el & Hel & Hcid & _).
    { by rewrite app_nil_r. }
    unfold class_id_of. rewrite (elem_nat _ _ _ Hel). simpl. by rewrite Hcid.
Qed.

Section Refine.
Context {Q : Type} (Enqueue : Z → Q → Q).

(** C3.  A class whose members are all in the 'yes' subset (size equal
    to yes_size) is not split.  SplitRefine passes its CHECK when the
    'no' list is empty, writes yes_head to no_head, -1 to yes_head and 0
    to yes_size, touches no element and no other class, creates no
    class and returns -1, so the loop of FinalizeSplit enqueues nothing
    for it.  In a well-formed partition this is what happens to such a
    visited class: after FinalizeSplit it has the same size, and its
    'no' list is the former 'yes' list, whose elements still have this
    class as their class_id. *)
Theorem FinalizeSplit_all_distinguished :
  (∀ p c cl,
     cls p c = Ok cl → size cl - yes_size cl = 0 → no_head cl < 0 →
     let p1 := with_classes
                 (alter (λ k, set_yes_size 0 (set_yes_head (-1)
                                 (set_no_head (yes_head k) k)))
                        (Z.to_nat c) (classes_ p)) p in
     SplitRefine c p = Ok (p1, -1) ∧
     length (classes_ p1) = length (classes_ p) ∧
     elements_ p1 = elements_ p ∧
     ∀ rest (L : option Q),
       FinalizeSplit_loop Enqueue (c :: rest) L p =
       FinalizeSplit_loop Enqueue rest L p1 ∧
       new_classes (c :: rest) p = new_classes rest p1) ∧
  (∀ (L : option Q) p (c : nat) cl yes_l,
     WF p → Z.of_nat c ∈ visited_classes_ p →
     classes_ p !! c = Some cl → size cl - yes_size cl = 0 →
     yes_elements p (Z.of_nat c) = Ok yes_l →
     no_head cl < 0 ∧
     ∃ p' L',
       FinalizeSplit Enqueue L p = Ok (p', L') ∧
       classes_ p' !! c = Some (mkClass (size cl) 0 (yes_head cl) (-1)) ∧
       class_elements p' (Z.of_nat c) = Ok yes_l ∧
       yes_elements p' (Z.of_nat c) = Ok [] ∧
       ∀ e, e ∈ yes_l → class_id_of p' e = Ok (Z.of_nat c)).
Proof.
  split.
  - intros p c cl Hcl Ho Hh p1.
    assert (SplitRefine c p = Ok (p1, -1)) as Hcall.
    { pose proof Hcl as Hlk. apply at_index_Ok in Hlk as [Hc0 Hlk].
      assert (Z.to_nat c < length (classes_ p))%nat as Hlt
        by by eapply lookup_lt_Some.
      unfold SplitRefine. rewrite Hcl. simpl.
      rewrite decide_True by done.
      rewrite bool_decide_eq_true_2 by done. simpl.
      unfold p1. clear p1 Hcl.
      assert (∃ n, c = Z.of_nat n) as [n ->] by (exists (Z.to_nat c); lia).
      rewrite Nat2Z.id in *.
      exec. unfold with_classes. simpl.
      by rewrite !list_alter_alter_eq. }
    split_and!; [done | apply length_alter | done |].
    intros rest L. simpl. rewrite Hcall. simpl. by split.
  - intros L p c cl yes_l HWF Hvis Hcl Ho Hyes.
    destruct (WF_visited p HWF) as (vl & Hvl).
    destruct HWF as (no & ys & HInv).
    pose proof (inv_shape _ _ _ HInv) as HS.
    pose proof (HS c cl Hcl) as Hok.
    destruct (visited_elem p no ys vl c HInv Hvl Hvis)
      as (Hnd & Hc & Hlt & Hne).
    assert (no c = []) as Hno.
    { pose proof (ok_size _ _ _ _ _ _ Hok) as Hsz.
      pose proof (ok_yes_size _ _ _ _ _ _ Hok) as Hys.
      destruct (no c); [done | simpl in Hsz; lia]. }
    split.
    { rewrite (ok_no_head _ _ _ _ _ _ Hok), Hno. simpl. lia. }
    destruct (Shape_class_elements p no ys c cl HS Hcl) as [_ Hy].
    assert (yes_l = Z.of_nat <$> ys c) as -> by congruence.
    destruct (FinalizeSplit_Inv Enqueue p no ys vl L HInv Hvl)
      as (p' & L' & Hcall & HInv' & Hlen' & _).
    destruct (refined_visited vl (length (classes_ p)) no ys c Hnd Hc Hlt)
      as (Hkept & Hnil & _).
    rewrite Hno, kept_list_nil in Hkept.
    pose proof (refined_mono vl (length (classes_ p)) no ys) as Hmono.
    assert (c < length (classes_ p'))%nat as Hc'.
    { rewrite Hlen'. apply lookup_lt_Some in Hcl. lia. }
    destruct (lookup_lt_is_Some_2 _ _ Hc') as [cl' Hcl'].
    destruct (settled_lookup p' _ _ c cl' (inv_shape _ _ _ HInv') Hcl' Hnil)
      as (-> & Hn' & Hy' & Hid').
    rewrite Hkept in *.
    exists (with_yes_counter (wrap_T (yes_counter_ p + 1)) p'), L'. unbump.
    split_and!; [done | | done | done |].
    + rewrite Hcl'. f_equal. apply Class_eq; simpl; try done.
      * rewrite (ok_size _ _ _ _ _ _ Hok), Hno. done.
      * by rewrite (ok_yes_head _ _ _ _ _ _ Hok).
    + intros e (x & -> & Hx)%list_elem_of_fmap. by apply Hid'.
Qed.


(** C1.  A class that is split gives the smaller of its two subsets to
    the new class.  In any state, when SplitRefine splits a class (its
    'no' count is not 0) and returns, the new class is appended with the
    'no' list when the 'no' count is strictly smaller and with the 'yes'
    list otherwise, so with the 'yes' list on a tie; the old class keeps
    the other list; the size of the new class is at most the size kept.
    In a well-formed partition this is what FinalizeSplit does to every
    visited class that it splits: afterwards the new class enumerates the
    smaller subset and the old class the other one. *)
Theorem FinalizeSplit_moves_smaller_subset :
  (∀ p c cl p' new,
     cls p c = Ok cl → size cl - yes_size cl ≠ 0 →
     SplitRefine c p = Ok (p', new) →
     new = Z.of_nat (length (classes_ p)) ∧
     ∃ cl_old cl_new,
       classes_ p' = <[Z.to_nat c := cl_old]> (classes_ p) ++ [cl_new] ∧
       size cl_new <= size cl_old ∧
       size cl_new + size cl_old = size cl ∧
       (size cl - yes_size cl < yes_size cl →
        cl_new = mkClass (size cl - yes_size cl) 0 (no_head cl) (-1) ∧
        cl_old = mkClass (yes_size cl) 0 (yes_head cl) (-1)) ∧
       (yes_size cl <= size cl - yes_size cl →
        cl_new = mkClass (yes_size cl) 0 (yes_head cl) (-1) ∧
        cl_old = mkClass (size cl - yes_size cl) 0 (no_head cl) (-1))) ∧
  (∀ (L : option Q) p (c : nat) cl no_l yes_l,
     WF p → Z.of_nat c ∈ visited_classes_ p →
     classes_ p !! c = Some cl → size cl - yes_size cl ≠ 0 →
     class_elements p (Z.of_nat c) = Ok no_l →
     yes_elements p (Z.of_nat c) = Ok yes_l →
     ∃ p' L' (new : nat) cl_old cl_new,
       FinalizeSplit Enqueue L p = Ok (p', L') ∧
       (length (classes_ p) ≤ new < length (classes_ p'))%nat ∧
       classes_ p' !! c = Some cl_old ∧ classes_ p' !! new = Some cl_new ∧
       size cl_new <= size cl_old ∧
       size cl_new + size cl_old = size cl ∧
       yes_size cl_new = 0 ∧ yes_size cl_old = 0 ∧
       (size cl - yes_size cl < yes_size cl →
        class_elements p' (Z.of_nat new) = Ok no_l ∧
        class_elements p' (Z.of_nat c) = Ok yes_l ∧
        size cl_new = size cl - yes_size cl) ∧
       (yes_size cl <= size cl - yes_size cl →
        class_elements p' (Z.of_nat new) = Ok yes_l ∧
        class_elements p' (Z.of_nat c) = Ok no_l ∧
        size cl_new = yes_size cl) ∧
       (∀ e l, class_elements p' (Z.of_nat new) = Ok l → e ∈ l →
               class_id_of p' e = Ok (Z.of_nat new))).
Proof.
  split.
  { intros p c cl p' new Hcl Ho Hcall.
    apply at_index_Ok in Hcl as [Hc0 Hcl].
    assert (∃ n, c = Z.of_nat n) as [n ->] by (exists (Z.to_nat c); lia).
    rewrite Nat2Z.id in *.
    rewrite (SplitRefine_split p n cl Hcl Ho) in Hcall.
    apply bind_Ok in Hcall as (es & _ & [= <- <-]).
    split; [done |].
    exists (old_Class_after_split cl), (new_Class_after_split cl).
    unfold old_Class_after_split, new_Class_after_split.
    split; [done |].
    destruct (decide (size cl - yes_size cl < yes_size cl)); simpl;
      split_and!; (done || lia). }
  intros L p c cl no_l yes_l.
  intros HWF Hvis Hcl Ho Hno_l Hyes_l.
  destruct (WF_visited p HWF) as (vl & Hvl).
  destruct HWF as (no & ys & HInv).
  pose proof (inv_shape _ _ _ HInv) as HS.
  pose proof (HS c cl Hcl) as Hok.
  pose proof (ok_size _ _ _ _ _ _ Hok) as Hsz.
  pose proof (ok_yes_size _ _ _ _ _ _ Hok) as Hysz.
  destruct (visited_elem p no ys vl c HInv Hvl Hvis)
    as (Hnd & Hc & Hlt & Hne).
  assert (no c ≠ []) as Hno.
  { intros E. rewrite E in Hsz. simpl in Hsz. lia. }
  destruct (Shape_class_elements p no ys c cl HS Hcl) as [Hn Hy].
  assert (no_l = Z.of_nat <$> no c) as -> by congruence.
  assert (yes_l = Z.of_nat <$> ys c) as -> by congruence.
  destruct (FinalizeSplit_Inv Enqueue p no ys vl L HInv Hvl)
    as (p' & L' & Hcall & HInv' & Hlen' & _).
  destruct (refined_visited vl (length (classes_ p)) no ys c Hnd Hc Hlt)
    as (Hkept & Hnil & Hnew).
  destruct (Hnew Hno) as (k & Hk & Hmoved & Hknil).
  pose proof (inv_shape _ _ _ HInv') as HS'.
  assert (c < length (classes_ p'))%nat as Hc'.
  { rewrite Hlen'. apply lookup_lt_Some in Hcl. lia. }
  assert (k < length (classes_ p'))%nat as Hk' by lia.
  destruct (lookup_lt_is_Some_2 _ _ Hc') as [cl_old Hold].
  destruct (lookup_lt_is_Some_2 _ _ Hk') as [cl_new Hnew'].
  destruct (settled_lookup p' _ _ c cl_old HS' Hold Hnil)
    as (-> & Hn_old & _ & _).
  destruct (settled_lookup p' _ _ k cl_new HS' Hnew' Hknil)
    as (-> & Hn_new & _ & Hid_new).
  rewrite Hkept in *. rewrite Hmoved in *.
  pose proof (kept_moved_length (no c) (ys c)) as Hkm.
  exists (with_yes_counter (wrap_T (yes_counter_ p + 1)) p'), L', k,
         (settled_Class (kept_list (no c) (ys c))),
         (settled_Class (moved_list (no c) (ys c))).
  unbump.
  split_and!; try done; simpl.
  - lia.
  - unfold kept_list, moved_list. case_decide; lia.
  - lia.
  - intros Hlt'. unfold kept_list, moved_list in *.
    rewrite decide_True in * by lia. split_and!; [done | done | lia].
  - intros Hge. unfold kept_list, moved_list in *.
    rewrite decide_False in * by lia. split_and!; [done | done | lia].
  - intros e l Hl He. unbump.
    assert (l = Z.of_nat <$> moved_list (no c) (ys c)) as -> by congruence.
    apply list_elem_of_fmap in He as (x & -> & Hx). by apply Hid_new.
Qed.

End Refine.

Lemma FinalizeSplit_all_distinguished_witness :
  no_head (mkClass 4 4 (-1) 3) < 0 ∧
  ∃ p' L',
    FinalizeSplit enqueue_back None partition_B = Ok (p', L') ∧
    classes_ p' !! 0%nat = Some (mkClass 4 0 3 (-1)) ∧
    class_elements p' 0 = Ok [3; 0; 2; 1] ∧
    yes_elements p' 0 = Ok [] ∧
    ∀ e, e ∈ [3; 0; 2; 1] → class_id_of p' e = Ok 0.
Proof.
  apply (proj2 (FinalizeSplit_all_distinguished enqueue_back) None
           partition_B 0%nat (mkClass 4 4 (-1) 3) [3; 0; 2; 1]).
  - exact WF_partition_B.
  - vm_compute. left.
  - reflexivity.
  - reflexivity.
  - vm_compute. reflexivity.
Defined.

Lemma FinalizeSplit_moves_smaller_subset_witness :
  ∃ p' L' (new : nat) cl_old cl_new,
    FinalizeSplit enqueue_back None partition_A_split = Ok (p', L') ∧
    (length (classes_ partition_A_split) ≤ new < length (classes_ p'))%nat ∧
    classes_ p' !! 0%nat = Some cl_old ∧ classes_ p' !! new = Some cl_new ∧
    size cl_new <= size cl_old ∧
    size cl_new + size cl_old = 4 ∧
    yes_size cl_new = 0 ∧ yes_size cl_old = 0 ∧
    (4 - 2 < 2 →
     class_elements p' (Z.of_nat new) = Ok [3; 0] ∧
     class_elements p' 0 = Ok [2; 1] ∧
     size cl_new = 4 - 2) ∧
    (2 <= 4 - 2 →
     class_elements p' (Z.of_nat new) = Ok [2; 1] ∧
     class_elements p' 0 = Ok [3; 0] ∧
     size cl_new = 2) ∧
    (∀ e l, class_elements p' (Z.of_nat new) = Ok l → e ∈ l →
            class_id_of p' e = Ok (Z.of_nat new)).
Proof.
  apply (proj2 (FinalizeSplit_moves_smaller_subset enqueue_back) None
           partition_A_split 0%nat
           (mkClass 4 2 3 2) [3; 0] [2; 1]).
  - exact WF_partition_A_split.
  - vm_compute. left.
  - reflexivity.
  - simpl. lia.
  - vm_compute. reflexivity.
  - vm_compute. reflexivity.
Defined.

(** * Size conservation *)

Lemma WF_one_unassigned : WF one_unassigned.
Proof. apply AddClass_WF, WF_ctor. Qed.

(** C5, as the specification words it: false.  Before the elements are
    added the sizes of the classes sum to 0, not to the number of
    elements, in a partition that is well-formed; and Add changes the
    sum while the number of elements stays the same. *)
Lemma sizes_do_not_sum_to_element_count :
  WF one_unassigned ∧
  total_size one_unassigned = 0 ∧ length (elements_ one_unassigned) = 1%nat ∧
  total_size one_unassigned ≠ Z.of_nat (length (elements_ one_unassigned)) ∧
  ∃ p', Add 0 0 one_unassigned = Ok p' ∧
        total_size p' ≠ total_size one_unassigned ∧
        length (elements_ p') = length (elements_ one_unassigned).
Proof.
  split; [apply WF_one_unassigned |].
  split_and!; try (by vm_compute).
  eexists. split; [vm_compute; reflexivity |]. by vm_compute.
Qed.

Lemma filter_all {A} (P : A → Prop) `{∀ x, Decision (P x)} (l : list A) :
  (∀ x, x ∈ l → P x) → filter P l = l.
Proof.
  induction l as [|x l IH]; intros H0; [done |].
  rewrite filter_cons_True by (apply H0; left).
  f_equal. apply IH. intros y Hy. apply H0. by right.
Qed.

(** C5, amended.  In a well-formed partition the sizes of the classes sum
    to the number of elements that have been added to a class: at most the
    number of elements, and equal to it once every element is added.  For
    each class the length of the 'no' list plus yes_size is its size, and
    yes_size is the length of the 'yes' list.  Add of an element that is in
    no class raises the sum by one; Move (from a class with an empty 'yes'
    subset), SplitOn and FinalizeSplit keep it.  All of them return; Add,
    Move and SplitOn leave the partition well-formed, and so does
    FinalizeSplit as long as yes_counter_ is below the greatest value of
    its type. *)
Theorem size_conservation {Q : Type} (Enqueue : Z → Q → Q) (p : Partition) :
  WF p →
  total_size p = Z.of_nat (owned_count p) ∧
  total_size p <= Z.of_nat (length (elements_ p)) ∧
  ((∀ e, in_range (elements_ p) e → owned p e = true) →
   total_size p = Z.of_nat (length (elements_ p))) ∧
  (∀ (c : nat) cl, classes_ p !! c = Some cl →
     ∃ l1 l2, class_elements p (Z.of_nat c) = Ok l1 ∧
              yes_elements p (Z.of_nat c) = Ok l2 ∧
              Z.of_nat (length l1) + yes_size cl = size cl ∧
              yes_size cl = Z.of_nat (length l2) ∧
              0 <= size cl <= Z.of_nat (length (elements_ p)) ∧
              (Z.of_nat (length (elements_ p)) < 2 ^ 64 →
               class_size p (Z.of_nat c) = Ok (size cl))) ∧
  (∀ e c, in_range (elements_ p) e → in_range (classes_ p) c →
          owned p e = false →
          ∃ p', Add e c p = Ok p' ∧ WF p' ∧
                total_size p' = total_size p + 1) ∧
  (∀ e c el cl, owned p e = true → elem p e = Ok el →
                cls p (class_id el) = Ok cl → yes_size cl = 0 →
                in_range (classes_ p) c →
                ∃ p', Move e c p = Ok p' ∧ WF p' ∧
                      total_size p' = total_size p) ∧
  (∀ e, owned p e = true →
        ∃ p', SplitOn e p = Ok p' ∧ WF p' ∧ total_size p' = total_size p) ∧
  (∀ L : option Q,
        ∃ p' L', FinalizeSplit Enqueue L p = Ok (p', L') ∧
                 total_size p' = total_size p ∧
                 (yes_counter_ p < T_max → WF p')).
Proof.
  intros HWF. split_and!.
  - by apply total_size_owned_count.
  - rewrite (total_size_owned_count p HWF). unfold owned_count.
    pose proof (length_filter (λ x : nat, owned p (Z.of_nat x) = true)
                  (seq 0 (length (elements_ p)))) as Hle.
    rewrite length_seq in Hle. lia.
  - intros Hall. rewrite (total_size_owned_count p HWF). unfold owned_count.
    rewrite filter_all; [by rewrite length_seq |].
    intros x Hx%elem_of_seq. apply Hall. unfold in_range. lia.
  - intros c cl Hcl.
    destruct (class_sizes_split p c cl HWF Hcl)
      as (l1 & l2 & ? & ? & ? & ? & _ & _ & ?).
    exists l1, l2. split_and!; try done; try lia.
    intros Hsmall. unfold class_size. rewrite (cls_nat _ _ _ Hcl). simpl.
    unfold to_size_t. f_equal. apply Z.mod_small. lia.
  - intros e c He Hc Hun.
    destruct (Add_WF p e c HWF He Hc Hun) as (p' & ? & ? & ? & _).
    by exists p'.
  - intros e c el cl Hown Hel Hcl Hys Hc.
    destruct (Move_WF p e c el cl HWF Hown Hel Hcl Hys Hc)
      as (p' & ? & ? & ? & _).
    by exists p'.
  - intros e Hown.
    destruct (SplitOn_WF p e HWF Hown) as (p' & ? & ? & ? & _).
    by exists p'.
  - intros L.
    destruct (FinalizeSplit_WF Enqueue L p HWF)
      as (p' & L' & ? & ? & _ & _ & _ & HWF').
    exists p', L'. split_and!; [done | done |].
    intros Hlt. by apply HWF'.
Qed.

Lemma size_conservation_witness :
  total_size partition_A_split = Z.of_nat (owned_count partition_A_split) ∧
  total_size partition_A_split = 4 ∧
  total_size partition_A_split =
    Z.of_nat (length (elements_ partition_A_split)) ∧
  ∃ p' L', FinalizeSplit enqueue_back (Some []) partition_A_split
             = Ok (p', L') ∧
           total_size p' = total_size partition_A_split ∧
           WF p'.
Proof.
  pose proof (size_conservation enqueue_back partition_A_split
                WF_partition_A_split) as (H1 & _ & H3 & _ & _ & _ & _ & H8).
  split_and!; [exact H1 | reflexivity | reflexivity |].
  destruct (H8 (Some [])) as (p' & L' & Hcall & Htot & HWF).
  exists p', L'. split_and!; [exact Hcall | exact Htot |].
  apply HWF. vm_compute. reflexivity.
Defined.

(** * More on the member functions *)

(** ** Fields that a call does not write *)

Lemma Add_fields e c p p' :
  Add e c p = Ok p' →
  visited_classes_ p' = visited_classes_ p ∧
  yes_counter_ p' = yes_counter_ p ∧
  length (classes_ p') = length (classes_ p) ∧
  length (elements_ p') = length (elements_ p).
Proof.
  unfold Add. intros (_ & _ & (_ & _ & H)%bind_Ok)%bind_Ok.
  apply bind_Ok in H as (p1 & H1 & (tc & _ & H)%bind_Ok).
  apply bind_Ok in H as (p2 & H2 & (p3 & H3 & H)%bind_Ok).
  apply bind_Ok in H as (p4 & H4 & (p5 & H5 & (p6 & H6 & H7)%bind_Ok)%bind_Ok).
  apply upd_cls_Ok in H1 as (E1 & V1 & Y1 & L1).
  assert (classes_ p2 = classes_ p1 ∧ visited_classes_ p2 = visited_classes_ p1 ∧
          yes_counter_ p2 = yes_counter_ p1 ∧
          length (elements_ p2) = length (elements_ p1)) as (C2 & V2 & Y2 & L2).
  { destruct (decide (0 <= no_head tc)).
    - by apply upd_elem_Ok in H2.
    - by injection H2 as <-. }
  apply upd_cls_Ok in H3 as (E3 & V3 & Y3 & L3).
  apply upd_elem_Ok in H4 as (C4 & V4 & Y4 & L4).
  apply upd_elem_Ok in H5 as (C5 & V5 & Y5 & L5).
  apply upd_elem_Ok in H6 as (C6 & V6 & Y6 & L6).
  apply upd_elem_Ok in H7 as (C7 & V7 & Y7 & L7).
  split_and!; congruence.
Qed.

Lemma excise_fields e c p p' :
  excise e c p = Ok p' →
  visited_classes_ p' = visited_classes_ p ∧
  length (elements_ p') = length (elements_ p).
Proof.
  unfold excise.
  intros (el & _ & (p1 & H1 & (el1 & _ & H2)%bind_Ok)%bind_Ok)%bind_Ok.
  assert (visited_classes_ p1 = visited_classes_ p ∧
          length (elements_ p1) = length (elements_ p)) as [<- <-].
  { destruct (decide (0 <= prev_element el)).
    - by apply upd_elem_Ok in H1 as (_ & -> & _ & ->).
    - apply bind_Ok in H1 as (tc & _ & (_ & _ & H1)%bind_Ok).
      by apply upd_cls_Ok in H1 as (-> & -> & _ & _). }
  destruct (decide (0 <= next_element el1)).
  - by apply upd_elem_Ok in H2 as (_ & -> & _ & ->).
  - by injection H2 as <-.
Qed.

Lemma Move_fields e c p p' :
  Move e c p = Ok p' →
  visited_classes_ p' = visited_classes_ p ∧
  yes_counter_ p' = yes_counter_ p ∧
  length (classes_ p') = length (classes_ p) ∧
  length (elements_ p') = length (elements_ p).
Proof.
  unfold Move. intros (el & _ & (_ & _ & H)%bind_Ok)%bind_Ok.
  apply bind_Ok in H as (p1 & H1 & (oc & _ & (_ & _ & H)%bind_Ok)%bind_Ok).
  apply bind_Ok in H as (p2 & H2 & H3).
  apply upd_cls_Ok in H1 as (E1 & V1 & Y1 & L1).
  pose proof (excise_classes _ _ _ _ H2) as [L2 Y2].
  apply excise_fields in H2 as [V2 E2].
  apply Add_fields in H3 as (V3 & Y3 & L3 & E3).
  split_and!; congruence.
Qed.

(** ** Reading the lists of a class *)

Lemma class_elements_range p c l :
  class_elements p c = Ok l →
  ∃ k cl, c = Z.of_nat k ∧ classes_ p !! k = Some cl.
Proof.
  unfold class_elements, PartitionIterator_ctor.
  intros (it & (cl & [? Hcl]%at_index_Ok & _)%bind_Ok & _)%bind_Ok.
  exists (Z.to_nat c), cl. split; [lia | done].
Qed.

Lemma yes_elements_range p c l :
  yes_elements p c = Ok l →
  ∃ k cl, c = Z.of_nat k ∧ classes_ p !! k = Some cl.
Proof.
  unfold yes_elements. intros (cl & [? Hcl]%at_index_Ok & _)%bind_Ok.
  exists (Z.to_nat c), cl. split; [lia | done].
Qed.

Lemma yes_elements_out p c :
  ¬ in_range (classes_ p) c → yes_elements p c = Undefined.
Proof. intros H. unfold yes_elements, cls. by rewrite at_index_out. Qed.

Lemma class_elements_out p c :
  ¬ in_range (classes_ p) c → class_elements p c = Undefined.
Proof.
  intros H. unfold class_elements, PartitionIterator_ctor, cls.
  by rewrite at_index_out.
Qed.

Lemma Shape_lists p no ys (k : nat) :
  Shape p no ys → (k < length (classes_ p))%nat →
  class_elements p (Z.of_nat k) = Ok (Z.of_nat <$> no k) ∧
  yes_elements p (Z.of_nat k) = Ok (Z.of_nat <$> ys k).
Proof.
  intros HS Hk. destruct (lookup_lt_is_Some_2 _ _ Hk) as [cl Hcl].
  by apply (Shape_class_elements p no ys k cl).
Qed.

Lemma Shape_class_id_of p no ys (k x : nat) :
  Shape p no ys → (k < length (classes_ p))%nat → x ∈ no k ++ ys k →
  class_id_of p (Z.of_nat x) = Ok (Z.of_nat k).
Proof.
  intros HS Hk Hx. destruct (lookup_lt_is_Some_2 _ _ Hk) as [cl Hcl].
  destruct (Shape_member p no ys k cl x HS Hcl Hx) as (el & Hel & Hcid).
  unfold class_id_of. rewrite (elem_nat _ _ _ Hel). simpl. by rewrite Hcid.
Qed.

(** Two partitions with as many classes, whose 'yes' lists agree in the
    abstract value, have the same 'yes' lists. *)
Lemma yes_elements_same p p' no no' ys :
  Shape p no ys → Shape p' no' ys →
  length (classes_ p') = length (classes_ p) →
  ∀ c, yes_elements p' c = yes_elements p c.
Proof.
  intros HS HS' Hlen c.
  destruct (decide (in_range (classes_ p) c)) as [Hin | Hout].
  - apply in_range_nat in Hin as (k & -> & Hk).
    destruct (Shape_lists p no ys k HS Hk) as [_ ->].
    destruct (Shape_lists p' no' ys k HS') as [_ ->]; [lia | done].
  - rewrite !yes_elements_out; [done | done |].
    unfold in_range in *. by rewrite Hlen.
Qed.

Lemma in_yes_subset_spec p no ys (k x : nat) :
  Inv p no ys → (k < length (classes_ p))%nat → x ∈ no k ++ ys k →
  in_yes_subset p (Z.of_nat x) = true ↔ x ∈ ys k.
Proof.
  intros HInv Hk Hx. pose proof (inv_shape _ _ _ HInv) as HS.
  destruct (lookup_lt_is_Some_2 _ _ Hk) as [cl Hcl].
  destruct (Shape_member p no ys k cl x HS Hcl Hx) as (el & Hel & _).
  unfold in_yes_subset. rewrite (elem_nat _ _ _ Hel), bool_decide_eq_true.
  split.
  - intros Htag. apply elem_of_app in Hx as [Hx | Hx]; [| done].
    by destruct (inv_tag_no _ _ _ HInv k x el Hk Hx Hel).
  - intros Hy. by apply (ok_tag _ _ _ _ _ _ (HS k cl Hcl) x el).
Qed.

Lemma lists_same p p' no ys no' ys' c :
  Shape p no ys → Shape p' no' ys' →
  length (classes_ p') = length (classes_ p) →
  (∀ k, c = Z.of_nat k → no' k = no k ∧ ys' k = ys k) →
  class_elements p' c = class_elements p c ∧
  yes_elements p' c = yes_elements p c.
Proof.
  intros HS HS' Hlen Hsame.
  destruct (decide (in_range (classes_ p) c)) as [Hin | Hout].
  - apply in_range_nat in Hin as (k & -> & Hk).
    destruct (Shape_lists p no ys k HS Hk) as [-> ->].
    destruct (Shape_lists p' no' ys' k HS') as [-> ->]; [lia |].
    by destruct (Hsame k eq_refl) as [-> ->].
  - rewrite !yes_elements_out, !class_elements_out; try done;
      unfold in_range in *; by rewrite Hlen.
Qed.

Lemma bool_not_true (b : bool) : ¬ b = true → b = false.
Proof. by destruct b. Qed.

(** X1.  Add of an element that is in no class, in a well-formed
    partition: the call returns, the element becomes the head of the 'no'
    list of the class and has it as class_id, outside the 'yes' subset;
    every other list, and the class of every element already added, is
    as before. *)
Theorem Add_links_at_head (p : Partition) (e c : Z) :
  WF p → in_range (elements_ p) e → in_range (classes_ p) c →
  owned p e = false →
  ∃ p', Add e c p = Ok p' ∧ WF p' ∧
        owned p' e = true ∧ class_id_of p' e = Ok c ∧
        in_yes_subset p' e = false ∧
        (∀ c' l, class_elements p c' = Ok l →
                 class_elements p' c' =
                 Ok (if decide (c' = c) then e :: l else l)) ∧
        (∀ c', yes_elements p' c' = yes_elements p c') ∧
        (∀ e', owned p e' = true →
               owned p' e' = true ∧ class_id_of p' e' = class_id_of p e').
Proof.
  intros (no & ys & HInv) (x & -> & Hx)%in_range_nat (k & -> & Hk)%in_range_nat
         Hun.
  pose proof (inv_shape _ _ _ HInv) as HS.
  pose proof (not_owned_spec p no ys x HS Hun) as Hun'.
  destruct (Add_Inv p no ys x k HInv Hx Hk Hun') as (p' & Hcall & HInv' & _ & Hlc & _).
  pose proof (inv_shape _ _ _ HInv') as HS'.
  set (no' := upd no k (x :: no k)) in *.
  assert (x ∈ no' k ++ ys k) as Hxin.
  { unfold no'. rewrite upd_eq. left. }
  exists p'. split_and!; try done.
  - by exists no', ys.
  - apply (owned_spec p' no' ys _ HS'). exists x, k. by rewrite Hlc.
  - apply (Shape_class_id_of p' no' ys); [done | lia | done].
  - apply bool_not_true.
    rewrite (in_yes_subset_spec p' no' ys k x HInv'); [| lia | done].
    intros Hy. apply (Hun' k Hk). apply elem_of_app. by right.
  - intros c' l Hl.
    apply class_elements_range in Hl as Hr. destruct Hr as (k' & cl & -> & Hcl).
    apply lookup_lt_Some in Hcl.
    destruct (Shape_lists p no ys k' HS Hcl) as [E _].
    destruct (Shape_lists p' no' ys k' HS') as [-> _]; [lia |].
    assert (l = Z.of_nat <$> no k') as -> by congruence.
    unfold no'. destruct (decide (k' = k)) as [-> | Hne].
    + rewrite upd_eq, decide_True by done. done.
    + rewrite upd_ne, decide_False by lia. done.
  - by apply (yes_elements_same p p' no no' ys).
  - intros e' (y & k' & -> & Hk' & Hy)%(owned_spec p no ys _ HS).
    assert (y ∈ no' k' ++ ys k') as Hy'.
    { unfold no'. destruct (decide (k' = k)) as [-> | Hne].
      - rewrite upd_eq. revert Hy. rewrite !elem_of_app, elem_of_cons. tauto.
      - by rewrite upd_ne. }
    split.
    + apply (owned_spec p' no' ys _ HS'). exists y, k'. by rewrite Hlc.
    + rewrite (Shape_class_id_of p no ys k' y HS Hk' Hy).
      apply (Shape_class_id_of p' no' ys k' y HS'); [lia | done].
Qed.

Lemma Add_links_at_head_witness :
  ∃ p', Add 0 0 one_unassigned = Ok p' ∧ WF p' ∧
        owned p' 0 = true ∧ class_id_of p' 0 = Ok 0 ∧
        in_yes_subset p' 0 = false ∧
        (∀ c' l, class_elements one_unassigned c' = Ok l →
                 class_elements p' c' =
                 Ok (if decide (c' = 0) then 0 :: l else l)) ∧
        (∀ c', yes_elements p' c' = yes_elements one_unassigned c') ∧
        (∀ e', owned one_unassigned e' = true →
               owned p' e' = true ∧
               class_id_of p' e' = class_id_of one_unassigned e').
Proof.
  apply (Add_links_at_head one_unassigned 0 0).
  - exact WF_one_unassigned.
  - unfold in_range. simpl. lia.
  - unfold in_range. simpl. lia.
  - reflexivity.
Defined.

Lemma cls_range p c k :
  cls p c = Ok k → ∃ n, c = Z.of_nat n ∧ classes_ p !! n = Some k.
Proof.
  intros [? H]%at_index_Ok. exists (Z.to_nat c). split; [lia | done].
Qed.

(** X2.  Move of an element of a well-formed partition whose class has an
    empty 'yes' subset: the call returns; the element is taken out of the
    'no' list of its class, the order of the others being kept, and
    becomes the head of the 'no' list of the target class (of the same
    list when the target is its own class); it has the target as
    class_id; the old class is one smaller and the target one larger;
    no other element changes class and no 'yes' list changes. *)
Theorem Move_relinks (p : Partition) (e c : Z) (el : Element) (cl : Class)
    (l : list Z) :
  WF p → owned p e = true → elem p e = Ok el →
  cls p (class_id el) = Ok cl → yes_size cl = 0 →
  in_range (classes_ p) c →
  class_elements p (class_id el) = Ok l →
  ∃ p' l1 l2,
    Move e c p = Ok p' ∧ WF p' ∧ l = l1 ++ e :: l2 ∧
    owned p' e = true ∧ class_id_of p' e = Ok c ∧
    (∀ c' l', class_elements p c' = Ok l' →
       class_elements p' c' =
       Ok ((if decide (c' = c) then [e] else []) ++
           (if decide (c' = class_id el) then l1 ++ l2 else l'))) ∧
    (∀ c', yes_elements p' c' = yes_elements p c') ∧
    (∀ e', e' ≠ e → owned p e' = true →
           owned p' e' = true ∧ class_id_of p' e' = class_id_of p e') ∧
    (∀ c' k, cls p c' = Ok k →
       ∃ k', cls p' c' = Ok k' ∧ yes_size k' = yes_size k ∧
             size k' = size k + (if decide (c' = c) then 1 else 0)
                              - (if decide (c' = class_id el) then 1 else 0)).
Proof.
  intros (no & ys & HInv) Hown Hel Hcl Hys0 (c2 & -> & Hc2)%in_range_nat Hl.
  pose proof (inv_shape _ _ _ HInv) as HS.
  apply (owned_spec p no ys) in Hown as (x & c1 & -> & Hc1 & Hx); [| done].
  destruct (lookup_lt_is_Some_2 _ _ Hc1) as [cl1 Hcl1].
  destruct (Shape_member p no ys c1 cl1 x HS Hcl1 Hx) as (el' & Hel' & Hcid).
  apply at_index_Ok in Hel as [_ Hel]. rewrite Nat2Z.id in Hel.
  assert (el' = el) as -> by congruence.
  rewrite Hcid in *. apply at_index_Ok in Hcl as [_ Hcl].
  rewrite Nat2Z.id in Hcl. assert (cl1 = cl) as -> by congruence.
  assert (ys c1 = []) as Hnil.
  { pose proof (ok_yes_size _ _ _ _ _ _ (HS c1 cl Hcl1)) as Hlen.
    destruct (ys c1); [done | simpl in Hlen; lia]. }
  rewrite Hnil, app_nil_r in Hx.
  apply in_split_list in Hx as (l1 & l2 & Hno).
  destruct (Move_Inv p no ys c1 l1 x l2 c2 HInv Hc1 Hc2 Hno Hnil)
    as (p' & Hcall & HInv' & _ & Hlc & _).
  set (no1 := upd no c1 (l1 ++ l2)) in *.
  set (no2 := upd no1 c2 (x :: no1 c2)) in *.
  pose proof (inv_shape _ _ _ HInv') as HS'.
  destruct (Shape_lists p no ys c1 HS Hc1) as [Ec1 _].
  assert (l = Z.of_nat <$> no c1) as -> by congruence.
  assert (∀ k, no2 k = (if decide (k = c2) then [x] else []) ++
                       (if decide (k = c1) then l1 ++ l2 else no k)) as Hno2.
  { intros k. unfold no2, no1, upd.
    repeat case_decide; subst; simpl; congruence. }
  assert (x ∈ no2 c2 ++ ys c2) as Hxin.
  { rewrite Hno2, decide_True by done. left. }
  exists p', (Z.of_nat <$> l1), (Z.of_nat <$> l2). split_and!; try done.
  - by exists no2, ys.
  - by rewrite Hno, fmap_app.
  - apply (owned_spec p' no2 ys _ HS'). exists x, c2. by rewrite Hlc.
  - apply (Shape_class_id_of p' no2 ys); [done | lia | done].
  - intros c' l' Hl'.
    apply class_elements_range in Hl' as Hr.
    destruct Hr as (k & clk & -> & Hclk). apply lookup_lt_Some in Hclk.
    destruct (Shape_lists p no ys k HS Hclk) as [E _].
    destruct (Shape_lists p' no2 ys k HS') as [-> _]; [lia |].
    assert (l' = Z.of_nat <$> no k) as -> by congruence.
    rewrite Hno2, !fmap_app. f_equal. f_equal.
    + destruct (decide (k = c2)) as [-> | Hne].
      * by rewrite decide_True.
      * rewrite decide_False by lia. done.
    + destruct (decide (k = c1)) as [-> | Hne].
      * rewrite decide_True by done. apply fmap_app.
      * rewrite decide_False by lia. done.
  - by apply (yes_elements_same p p' no no2 ys).
  - intros e' Hne (y & k & -> & Hk & Hy)%(owned_spec p no ys _ HS).
    assert (y ≠ x) as Hyx by (intros ->; done).
    assert (y ∈ no2 k ++ ys k) as Hy'.
    { rewrite Hno2. revert Hy.
      destruct (decide (k = c1)) as [-> | ?].
      - rewrite Hno, !elem_of_app, elem_of_cons. tauto.
      - rewrite !elem_of_app. tauto. }
    split.
    + apply (owned_spec p' no2 ys _ HS'). exists y, k. by rewrite Hlc.
    + rewrite (Shape_class_id_of p no ys k y HS Hk Hy).
      apply (Shape_class_id_of p' no2 ys k y HS'); [lia | done].
  - intros c' k (n & -> & Hn)%cls_range.
    assert (n < length (classes_ p'))%nat as Hn'.
    { rewrite Hlc. by eapply lookup_lt_Some. }
    destruct (lookup_lt_is_Some_2 _ _ Hn') as [k' Hk'].
    exists k'. split; [by apply cls_nat |].
    pose proof (HS n k Hn) as Hok. pose proof (HS' n k' Hk') as Hok'.
    rewrite (ok_yes_size _ _ _ _ _ _ Hok'), (ok_yes_size _ _ _ _ _ _ Hok).
    rewrite (ok_size _ _ _ _ _ _ Hok'), (ok_size _ _ _ _ _ _ Hok).
    split; [done |]. rewrite Hno2, !length_app.
    destruct (decide (n = c2)) as [E2 | ?], (decide (n = c1)) as [E1 | ?];
      try rewrite E1 in *; rewrite ?Hno, ?length_app; simpl;
      repeat case_decide; lia.
Qed.

Lemma Move_relinks_witness :
  ∃ p' l1 l2,
    Move 2 1 partition_A = Ok p' ∧ WF p' ∧ [3; 2; 1; 0] = l1 ++ 2 :: l2 ∧
    owned p' 2 = true ∧ class_id_of p' 2 = Ok 1 ∧
    (∀ c' l', class_elements partition_A c' = Ok l' →
       class_elements p' c' =
       Ok ((if decide (c' = 1) then [2] else []) ++
           (if decide (c' = 0) then l1 ++ l2 else l'))) ∧
    (∀ c', yes_elements p' c' = yes_elements partition_A c') ∧
    (∀ e', e' ≠ 2 → owned partition_A e' = true →
           owned p' e' = true ∧
           class_id_of p' e' = class_id_of partition_A e') ∧
    (∀ c' k, cls partition_A c' = Ok k →
       ∃ k', cls p' c' = Ok k' ∧ yes_size k' = yes_size k ∧
             size k' = size k + (if decide (c' = 1) then 1 else 0)
                              - (if decide (c' = 0) then 1 else 0)).
Proof.
  apply (Move_relinks partition_A 2 1 (mkElement 0 0 1 3) (mkClass 4 0 3 (-1))
           [3; 2; 1; 0]).
  - exact WF_partition_A.
  - reflexivity.
  - reflexivity.
  - reflexivity.
  - reflexivity.
  - unfold in_range. simpl. lia.
  - reflexivity.
Defined.

(** X3.  SplitOn of an element of the 'no' subset of its class, in a
    well-formed partition: the call returns; the element leaves the 'no'
    list, the order of the others being kept, and becomes the head of the
    'yes' list of the same class; the class is appended to
    visited_classes_ exactly when its 'yes' list was empty; its yes_size
    grows by one; the sizes, the class of every element and the lists of
    the other classes are as before. *)
Theorem SplitOn_moves_to_yes_subset (p : Partition) (e : Z) (el : Element)
    (l ly : list Z) :
  WF p → owned p e = true → in_yes_subset p e = false →
  elem p e = Ok el →
  class_elements p (class_id el) = Ok l →
  yes_elements p (class_id el) = Ok ly →
  ∃ p' l1 l2,
    SplitOn e p = Ok p' ∧ WF p' ∧ l = l1 ++ e :: l2 ∧
    class_elements p' (class_id el) = Ok (l1 ++ l2) ∧
    yes_elements p' (class_id el) = Ok (e :: ly) ∧
    in_yes_subset p' e = true ∧
    visited_classes_ p' =
      visited_classes_ p ++ (if decide (ly = []) then [class_id el] else []) ∧
    yes_counter_ p' = yes_counter_ p ∧
    (∀ c', c' ≠ class_id el →
           class_elements p' c' = class_elements p c' ∧
           yes_elements p' c' = yes_elements p c') ∧
    (∀ e', owned p e' = true →
           owned p' e' = true ∧ class_id_of p' e' = class_id_of p e') ∧
    (∀ c' k, cls p c' = Ok k →
       ∃ k', cls p' c' = Ok k' ∧ size k' = size k ∧
             yes_size k' =
             yes_size k + (if decide (c' = class_id el) then 1 else 0)).
Proof.
  intros (no & ys & HInv) Hown Hny Hel Hl Hly.
  pose proof (inv_shape _ _ _ HInv) as HS.
  apply (owned_spec p no ys) in Hown as (x & c & -> & Hc & Hx); [| done].
  destruct (lookup_lt_is_Some_2 _ _ Hc) as [cl Hcl].
  destruct (Shape_member p no ys c cl x HS Hcl Hx) as (el' & Hel' & Hcid).
  apply at_index_Ok in Hel as [_ Hel]. rewrite Nat2Z.id in Hel.
  assert (el' = el) as -> by congruence.
  rewrite Hcid in *.
  assert (x ∈ no c) as Hxno.
  { destruct (proj1 (elem_of_app _ _ _) Hx) as [? | Hy]; [done |].
    apply (in_yes_subset_spec p no ys c x HInv Hc Hx) in Hy. congruence. }
  apply in_split_list in Hxno as (l1 & l2 & Hno).
  destruct (SplitOn_Inv p no ys c l1 x l2 HInv Hc Hno)
    as (p' & Hcall & HInv' & _ & Hlc & _ & Hyc & _).
  set (no' := upd no c (l1 ++ l2)) in *.
  set (ys' := upd ys c (x :: ys c)) in *.
  pose proof (inv_shape _ _ _ HInv') as HS'.
  destruct (Shape_lists p no ys c HS Hc) as [Ec Eyc].
  assert (l = Z.of_nat <$> no c) as -> by congruence.
  assert (ly = Z.of_nat <$> ys c) as -> by congruence.
  assert (c < length (classes_ p'))%nat as Hc' by lia.
  destruct (Shape_lists p' no' ys' c HS' Hc') as [Ec' Eyc'].
  unfold no', ys' in Ec', Eyc'. rewrite upd_eq in Ec', Eyc'.
  assert (x ∈ no' c ++ ys' c) as Hxin.
  { unfold ys'. rewrite upd_eq, elem_of_app, elem_of_cons. tauto. }
  exists p', (Z.of_nat <$> l1), (Z.of_nat <$> l2). split_and!; try done.
  - by exists no', ys'.
  - by rewrite Hno, fmap_app.
  - by rewrite Ec', fmap_app.
  - apply (in_yes_subset_spec p' no' ys' c x HInv' Hc' Hxin).
    unfold ys'. rewrite upd_eq. left.
  - pose proof (HS c cl Hcl) as Hok. rewrite Hno in Hok.
    assert (yes el ≠ yes_counter_ p) as Htag.
    { apply (inv_tag_no _ _ _ HInv c x el Hc); [| done].
      rewrite Hno, elem_of_app, elem_of_cons. tauto. }
    rewrite (SplitOn_closed p c cl l1 x l2 (ys c) el Hcl Hok Hel Htag) in Hcall.
    injection Hcall as <-. simpl.
    destruct (ys c) as [|h t]; simpl; [done |]. by rewrite app_nil_r.
  - intros c' Hne.
    apply (lists_same p p' no ys no' ys'); try done.
    intros k ->. unfold no', ys'. rewrite !upd_ne; [done | |]; by intros ->.
  - intros e' (y & k & -> & Hk & Hy)%(owned_spec p no ys _ HS).
    assert (y ∈ no' k ++ ys' k) as Hy'.
    { unfold no', ys'. destruct (decide (k = c)) as [-> | ?].
      - rewrite !upd_eq. revert Hy.
        rewrite Hno, !elem_of_app, !elem_of_cons. tauto.
      - by rewrite !upd_ne. }
    split.
    + apply (owned_spec p' no' ys' _ HS'). exists y, k. by rewrite Hlc.
    + rewrite (Shape_class_id_of p no ys k y HS Hk Hy).
      apply (Shape_class_id_of p' no' ys' k y HS'); [lia | done].
  - intros c' k (n & -> & Hn)%cls_range.
    assert (n < length (classes_ p'))%nat as Hn'.
    { rewrite Hlc. by eapply lookup_lt_Some. }
    destruct (lookup_lt_is_Some_2 _ _ Hn') as [k' Hk'].
    exists k'. split; [by apply cls_nat |].
    pose proof (HS n k Hn) as Hok. pose proof (HS' n k' Hk') as Hok'.
    rewrite (ok_yes_size _ _ _ _ _ _ Hok'), (ok_yes_size _ _ _ _ _ _ Hok).
    rewrite (ok_size _ _ _ _ _ _ Hok'), (ok_size _ _ _ _ _ _ Hok).
    unfold no', ys'. destruct (decide (n = c)) as [E | ?].
    + rewrite E, !upd_eq, Hno, !length_app. simpl.
      rewrite decide_True by done. lia.
    + rewrite !upd_ne by done. rewrite decide_False by lia. lia.
Qed.

Lemma SplitOn_moves_to_yes_subset_witness :
  ∃ p' l1 l2,
    SplitOn 2 partition_A = Ok p' ∧ WF p' ∧ [3; 2; 1; 0] = l1 ++ 2 :: l2 ∧
    class_elements p' 0 = Ok (l1 ++ l2) ∧
    yes_elements p' 0 = Ok [2] ∧
    in_yes_subset p' 2 = true ∧
    visited_classes_ p' = [0] ∧
    yes_counter_ p' = 1 ∧
    (∀ c', c' ≠ 0 →
           class_elements p' c' = class_elements partition_A c' ∧
           yes_elements p' c' = yes_elements partition_A c') ∧
    (∀ e', owned partition_A e' = true →
           owned p' e' = true ∧
           class_id_of p' e' = class_id_of partition_A e') ∧
    (∀ c' k, cls partition_A c' = Ok k →
       ∃ k', cls p' c' = Ok k' ∧ size k' = size k ∧
             yes_size k' = yes_size k + (if decide (c' = 0) then 1 else 0)).
Proof.
  apply (SplitOn_moves_to_yes_subset partition_A 2 (mkElement 0 0 1 3)
           [3; 2; 1; 0] []).
  - exact WF_partition_A.
  - reflexivity.
  - reflexivity.
  - reflexivity.
  - reflexivity.
  - reflexivity.
Defined.

(** ** Where the loop of FinalizeSplit puts the elements *)

Lemma refined_new vl : ∀ n no ys k,
  NoDup vl → (∀ c, c ∈ vl → (c < n)%nat) →
  (n ≤ k < (refined vl n no ys).2)%nat →
  ∃ c, c ∈ vl ∧ no c ≠ [] ∧
       (refined vl n no ys).1.1 k = moved_list (no c) (ys c) ∧
       (refined vl n no ys).1.2 k = [].
Proof.
  induction vl as [|c0 vl IH]; intros n no ys k Hnd Hlt Hk; simpl in *;
    [lia |].
  apply NoDup_cons in Hnd as [Hc0 Hnd].
  assert (c0 < n)%nat as Hc0n by (apply Hlt; left).
  assert (∀ c', c' ∈ vl → (c' < n)%nat) as Hlt' by (intros; apply Hlt; by right).
  set (n1 := if decide (no c0 = []) then n else S n) in *.
  assert (n ≤ n1)%nat as Hn1 by (unfold n1; case_decide; lia).
  destruct (decide (n1 ≤ k)%nat) as [Hge | Hlow].
  - destruct (IH n1 (split_no n c0 no ys) (split_ys n c0 no ys) k Hnd)
      as (c & Hc & Hne & Hno & Hys); [| lia |].
    { intros c' Hc'. specialize (Hlt' c' Hc'). lia. }
    assert (c ≠ c0) as Hcc by (intros ->; done).
    destruct (split_frame n c0 no ys c Hcc (Hlt' c Hc)) as [Eno Eys].
    rewrite Eno, Eys in *. exists c. split_and!; [by right | done..].
  - assert (no c0 ≠ [] ∧ k = n) as [Hne ->].
    { unfold n1 in *. case_decide; [lia |]. split; [done | lia]. }
    destruct (refined_frame vl n1 (split_no n c0 no ys) (split_ys n c0 no ys) n)
      as [-> ->]; [| lia |].
    { intros Hin. apply Hlt' in Hin. lia. }
    exists c0. split_and!; [left | done | |].
    + unfold split_no. rewrite decide_False by done. by rewrite upd_eq.
    + unfold split_ys. rewrite decide_False by done. by rewrite upd_eq.
Qed.

Lemma kept_or_moved (no ys : list nat) x :
  x ∈ no ++ ys ↔ x ∈ kept_list no ys ∨ x ∈ moved_list no ys.
Proof.
  unfold kept_list, moved_list. rewrite elem_of_app. case_decide; tauto.
Qed.

(** With [NoDup (no ++ ys)], the list kept and the list moved are the two
    subsets, in one order or the other. *)
Lemma kept_moved_subsets (no ys : list nat) :
  (kept_list no ys = no ∧ moved_list no ys = ys) ∨
  (kept_list no ys = ys ∧ moved_list no ys = no).
Proof. unfold kept_list, moved_list. case_decide; tauto. Qed.

Section Destination.
Context (p : Partition) (no ys : nat → list nat) (vl : list nat).
Context (HInv : Inv p no ys).
Context (Hvl : visited_classes_ p = Z.of_nat <$> vl).

Local Abbreviation n := (length (classes_ p)).
Local Abbreviation r := (refined vl (length (classes_ p)) no ys).

Lemma visited_facts :
  NoDup vl ∧ (∀ c, c ∈ vl ↔ (c < n)%nat ∧ ys c ≠ []).
Proof.
  destruct HInv as [_ _ _ (vl' & Hvl' & Hnd & Hiff)].
  assert (vl' = vl) as ->; [| done].
  rewrite Hvl in Hvl'. by apply (inj (fmap Z.of_nat)) in Hvl'.
Qed.

Lemma refined_all_settled c : (c < r.2)%nat → r.1.2 c = [].
Proof.
  destruct visited_facts as [Hnd Hiff].
  apply refined_ys_nil.
  - intros c' Hc'. by apply Hiff in Hc' as [? _].
  - intros c' Hc' Hne. by apply Hiff.
Qed.

(** The class in which a member of class [c] ends. *)
Lemma refined_dest c x :
  (c < n)%nat → x ∈ no c ++ ys c →
  ∃ k, (k < r.2)%nat ∧ x ∈ r.1.1 k ∧
       ((k = c ∧ (c ∈ vl → no c ≠ [] → x ∈ kept_list (no c) (ys c))) ∨
        ((n ≤ k)%nat ∧ c ∈ vl ∧ no c ≠ [] ∧
         x ∈ moved_list (no c) (ys c) ∧
         r.1.1 k = moved_list (no c) (ys c))).
Proof.
  intros Hc Hx. destruct visited_facts as [Hnd Hiff].
  assert (∀ c', c' ∈ vl → (c' < n)%nat) as Hlt.
  { intros c' Hc'. by apply Hiff in Hc' as [? _]. }
  pose proof (refined_mono vl n no ys) as Hmono.
  destruct (decide (c ∈ vl)) as [Hin | Hout].
  - destruct (refined_visited vl n no ys c Hnd Hin Hlt) as (Hk & _ & Hnew).
    destruct (decide (no c = [])) as [E | E].
    + exists c. split_and!; [lia | | left; by split].
      rewrite Hk, E, kept_list_nil. by rewrite E in Hx.
    + apply kept_or_moved in Hx as [Hx | Hx].
      * exists c. split_and!; [lia | by rewrite Hk | left; by split].
      * destruct (Hnew E) as (k & Hkr & Hkno & _).
        exists k. split_and!; [lia | by rewrite Hkno |].
        right. split_and!; (done || lia).
  - destruct (refined_frame vl n no ys c Hout Hc) as [Eno _].
    assert (ys c = []) as Eys.
    { destruct (ys c) eqn:E; [done |]. destruct Hout. apply Hiff.
      by rewrite E. }
    exists c. split_and!; [lia | | left; by split].
    rewrite Eno. by rewrite Eys, app_nil_r in Hx.
Qed.

(** Every member of a class after the loop was a member before. *)
Lemma refined_source k x :
  (k < r.2)%nat → x ∈ r.1.1 k →
  ∃ c, (c < n)%nat ∧ x ∈ no c ++ ys c.
Proof.
  intros Hk Hx. destruct visited_facts as [Hnd Hiff].
  assert (∀ c', c' ∈ vl → (c' < n)%nat) as Hlt.
  { intros c' Hc'. by apply Hiff in Hc' as [? _]. }
  destruct (decide (k < n)%nat) as [Hold | Hnew].
  - exists k. split; [done |].
    destruct (decide (k ∈ vl)) as [Hin | Hout].
    + destruct (refined_visited vl n no ys k Hnd Hin Hlt) as (Hkept & _).
      rewrite Hkept in Hx. apply kept_or_moved. by left.
    + destruct (refined_frame vl n no ys k Hout Hold) as [Eno _].
      rewrite Eno in Hx. apply elem_of_app. by left.
  - destruct (refined_new vl n no ys k Hnd Hlt) as (c & Hc & _ & Hno & _);
      [lia |].
    rewrite Hno in Hx. exists c.
    split; [by apply Hlt |]. apply kept_or_moved. by right.
Qed.
End Destination.

Lemma bool_eq_iff (a b : bool) : (a = true ↔ b = true) → a = b.
Proof. destruct a, b; intros [H1 H2]; try done; [by rewrite H1 | by rewrite H2]. Qed.

Lemma same_subset_kept (no ys : list nat) x y :
  NoDup (no ++ ys) →
  (x ∈ kept_list no ys ∧ y ∈ kept_list no ys) ∨
  (x ∈ moved_list no ys ∧ y ∈ moved_list no ys) →
  (x ∈ ys ↔ y ∈ ys).
Proof.
  intros (_ & Hd & _)%NoDup_app.
  destruct (kept_moved_subsets no ys) as [[-> ->] | [-> ->]];
    intros [[Hx Hy] | [Hx Hy]]; split; intros H; try done;
    first [by destruct (Hd x) | by destruct (Hd y)].
Qed.

Lemma other_subset_moved (no ys : list nat) x y :
  NoDup (no ++ ys) →
  x ∈ kept_list no ys → y ∈ moved_list no ys →
  ¬ (x ∈ ys ↔ y ∈ ys).
Proof.
  intros (_ & Hd & _)%NoDup_app.
  destruct (kept_moved_subsets no ys) as [[-> ->] | [-> ->]];
    intros Hx Hy [H1 H2].
  - apply (Hd x Hx). by apply H2.
  - apply (Hd y Hy). by apply H1.
Qed.

Section Refinement.
Context {Q : Type} (Enqueue : Z → Q → Q).

(** The refinement that FinalizeSplit computes, with the state in which it
    leaves the partition. *)
Lemma FinalizeSplit_refines (L : option Q) (p : Partition) :
  WF p →
  ∃ p' L',
    FinalizeSplit Enqueue L p = Ok (p', L') ∧
    (yes_counter_ p < T_max → WF p') ∧
    visited_classes_ p' = [] ∧
    (∀ e, owned p' e = owned p e) ∧
    (∀ e1 e2, owned p e1 = true → owned p e2 = true →
       (class_id_of p' e1 = class_id_of p' e2 ↔
        class_id_of p e1 = class_id_of p e2 ∧
        in_yes_subset p e1 = in_yes_subset p e2)).
Proof.
  intros HWF. destruct (WF_visited p HWF) as (vl & Hvl).
  destruct HWF as (no & ys & HInv).
  pose proof (inv_shape _ _ _ HInv) as HS.
  destruct (FinalizeSplit_Inv Enqueue p no ys vl L HInv Hvl)
    as (p' & L' & Hcall & HInv' & Hlen' & Hyc' & Hv' & _).
  pose proof (inv_shape _ _ _ HInv') as HS'.
  destruct (visited_facts p no ys vl HInv Hvl) as [Hnd Hiff].
  exists (with_yes_counter (wrap_T (yes_counter_ p + 1)) p'), L'.
  split_and!; [done | | done | |].
  - intros Hlt.
    rewrite (bump_WF _ p' _ _ HInv') by (done || apply HInv).
    by eexists _, _.
  - (* the same elements are owned *)
    intros e. unbump. apply bool_eq_iff.
    rewrite (owned_spec p' _ _ e HS'), (owned_spec p no ys e HS). split.
    + intros (x & k & -> & Hk & Hx). rewrite Hlen' in Hk.
      rewrite (refined_all_settled p no ys vl HInv Hvl k Hk), app_nil_r in Hx.
      destruct (refined_source p no ys vl HInv Hvl k x Hk Hx) as (c & ? & ?).
      by exists x, c.
    + intros (x & c & -> & Hc & Hx).
      destruct (refined_dest p no ys vl HInv Hvl c x Hc Hx) as (k & Hk & Hxk & _).
      exists x, k. rewrite Hlen'. split_and!; [done | done |].
      apply elem_of_app. by left.
  - (* same class afterwards iff same class and same subset before *)
    intros e1 e2 (x1 & c1 & -> & Hc1 & Hx1)%(owned_spec p no ys _ HS)
           (x2 & c2 & -> & Hc2 & Hx2)%(owned_spec p no ys _ HS).
    destruct (refined_dest p no ys vl HInv Hvl c1 x1 Hc1 Hx1)
      as (k1 & Hk1 & Hxk1 & D1).
    destruct (refined_dest p no ys vl HInv Hvl c2 x2 Hc2 Hx2)
      as (k2 & Hk2 & Hxk2 & D2).
    rewrite !bump_class_id_of.
    rewrite (Shape_class_id_of p no ys c1 x1 HS Hc1 Hx1).
    rewrite (Shape_class_id_of p no ys c2 x2 HS Hc2 Hx2).
    rewrite (Shape_class_id_of p' _ _ k1 x1 HS');
      [| lia | apply elem_of_app; by left].
    rewrite (Shape_class_id_of p' _ _ k2 x2 HS');
      [| lia | apply elem_of_app; by left].
    assert (in_yes_subset p (Z.of_nat x1) = in_yes_subset p (Z.of_nat x2) ↔
            (x1 ∈ ys c1 ↔ x2 ∈ ys c2)) as ->.
    { rewrite <-(in_yes_subset_spec p no ys c1 x1 HInv Hc1 Hx1).
      rewrite <-(in_yes_subset_spec p no ys c2 x2 HInv Hc2 Hx2).
      split; [by intros -> | apply bool_eq_iff]. }
    destruct (lookup_lt_is_Some_2 _ _ Hc1) as [cl1 Hcl1].
    pose proof (ok_nodup _ _ _ _ _ _ (HS c1 cl1 Hcl1)) as Hnd1.
    (* two members of one class that stay in it are in the same subset *)
    assert (∀ x y, x ∈ no c1 ++ ys c1 → y ∈ no c1 ++ ys c1 →
              (c1 ∈ vl → no c1 ≠ [] → x ∈ kept_list (no c1) (ys c1)) →
              (c1 ∈ vl → no c1 ≠ [] → y ∈ kept_list (no c1) (ys c1)) →
              (x ∈ ys c1 ↔ y ∈ ys c1)) as Hstay.
    { intros x y Hx Hy Kx Ky.
      destruct (decide (c1 ∈ vl)) as [Hin | Hout].
      - destruct (decide (no c1 = [])) as [E | E].
        + rewrite E in Hx, Hy. simpl in Hx, Hy. tauto.
        + apply (same_subset_kept (no c1)); [done |]. left. auto.
      - assert (ys c1 = []) as Eys.
        { destruct (ys c1) eqn:E; [done |]. destruct Hout. apply Hiff.
          by rewrite E. }
        rewrite Eys. split; by intros ?%elem_of_nil. }
    split.
    + intros [= Hk]. apply Nat2Z.inj in Hk. subst k2.
      destruct D1 as [[-> K1] | (Hn1 & Hv1 & Hne1 & Hm1 & E1)],
               D2 as [[E2 K2] | (Hn2 & Hv2 & Hne2 & Hm2 & E2)];
        try lia.
      * subst c2. split; [done |]. by apply Hstay.
      * assert (c1 = c2) as <-.
        { apply (Shape_disjoint p no ys c1 c2 x1 HS Hc1 Hc2 Hx1).
          apply kept_or_moved. right. by rewrite <-E2, E1. }
        split; [done |].
        apply (same_subset_kept (no c1)); [done |]. by right.
    + intros [[= Hc] Hsame]. apply Nat2Z.inj in Hc. subst c2. f_equal.
      f_equal.
      destruct D1 as [[-> K1] | (Hn1 & Hv1 & Hne1 & Hm1 & E1)],
               D2 as [[E2 K2] | (Hn2 & Hv2 & Hne2 & Hm2 & E2)].
      * done.
      * destruct (other_subset_moved (no c1) (ys c1) x1 x2); auto.
      * destruct (other_subset_moved (no c1) (ys c1) x2 x1); auto.
      * apply (Shape_disjoint p' _ _ k1 k2 x1 HS'); try lia.
        -- apply elem_of_app. by left.
        -- apply elem_of_app. left. by rewrite E2.
Qed.

(** X4.  FinalizeSplit refines a well-formed partition by the marks of
    SplitOn and by nothing else: the call returns, the elements that were
    added stay added, and two of them end in the same class exactly when
    they were in the same class and in the same subset ('yes' or 'no') of
    it.  The result is well-formed when yes_counter_ was below the
    greatest value of its type, so that its increment does not wrap. *)
Theorem FinalizeSplit_refines_by_the_marks (L : option Q) (p : Partition) :
  WF p →
  ∃ p' L',
    FinalizeSplit Enqueue L p = Ok (p', L') ∧
    (yes_counter_ p < T_max → WF p') ∧
    (∀ e, owned p' e = owned p e) ∧
    (∀ e1 e2, owned p e1 = true → owned p e2 = true →
       (class_id_of p' e1 = class_id_of p' e2 ↔
        class_id_of p e1 = class_id_of p e2 ∧
        in_yes_subset p e1 = in_yes_subset p e2)).
Proof.
  intros HWF.
  destruct (FinalizeSplit_refines L p HWF)
    as (p' & L' & Hcall & HWF' & _ & Hown & Hsame).
  by exists p', L'.
Qed.
End Refinement.

Lemma FinalizeSplit_refines_by_the_marks_witness :
  ∃ p' L',
    FinalizeSplit enqueue_back None partition_A_split = Ok (p', L') ∧
    WF p' ∧
    (∀ e, owned p' e = owned partition_A_split e) ∧
    (∀ e1 e2, owned partition_A_split e1 = true →
              owned partition_A_split e2 = true →
       (class_id_of p' e1 = class_id_of p' e2 ↔
        class_id_of partition_A_split e1 = class_id_of partition_A_split e2 ∧
        in_yes_subset partition_A_split e1 =
        in_yes_subset partition_A_split e2)).
Proof.
  destruct (FinalizeSplit_refines_by_the_marks enqueue_back None
              partition_A_split WF_partition_A_split)
    as (p' & L' & H1 & H2 & H3 & H4).
  exists p', L'. split_and!; [exact H1 | | exact H3 | exact H4].
  apply H2. vm_compute. reflexivity.
Defined.

(** ** The classes that FinalizeSplit creates *)

Lemma SplitRefine_result c p p' r :
  SplitRefine c p = Ok (p', r) →
  (r = -1 ∧ length (classes_ p') = length (classes_ p)) ∨
  (r = Z.of_nat (length (classes_ p)) ∧
   length (classes_ p') = S (length (classes_ p))).
Proof.
  intros Hcall.
  assert (∃ cl, cls p c = Ok cl) as [cl Hcl].
  { unfold SplitRefine in Hcall. apply bind_Ok in Hcall as (cl & ? & _).
    by exists cl. }
  destruct (decide (size cl - yes_size cl = 0)) as [Ho | Ho].
  - left. unfold SplitRefine in Hcall. rewrite Hcl in Hcall. simpl in Hcall.
    rewrite decide_True in Hcall by done.
    apply bind_Ok in Hcall as (_ & _ & (p1 & H1 & H)%bind_Ok).
    apply bind_Ok in H as (p2 & H2 & (p3 & H3 & [= <- <-])%bind_Ok).
    apply upd_cls_Ok in H1 as (_ & _ & _ & L1).
    apply upd_cls_Ok in H2 as (_ & _ & _ & L2).
    apply upd_cls_Ok in H3 as (_ & _ & _ & L3).
    split; [done | congruence].
  - right. apply cls_range in Hcl as (k & -> & Hk).
    rewrite (SplitRefine_split p k cl Hk Ho) in Hcall.
    apply bind_Ok in Hcall as (es & _ & [= <- <-]). simpl.
    split; [done |]. rewrite length_app, length_insert. simpl. lia.
Qed.

Section Fresh_ids.
Context {Q : Type} (Enqueue : Z → Q → Q).

Lemma new_classes_seq vs : ∀ p p' (L L' : option Q),
  FinalizeSplit_loop Enqueue vs L p = Ok (p', L') →
  (length (classes_ p) ≤ length (classes_ p'))%nat ∧
  new_classes vs p =
  Z.of_nat <$> seq (length (classes_ p))
                   (length (classes_ p') - length (classes_ p)).
Proof.
  induction vs as [|c vs IH]; intros p p' L L' Hloop; simpl in *.
  - injection Hloop as <- <-. by rewrite Nat.sub_diag.
  - apply bind_Ok in Hloop as ([p1 r] & Hcall & Hloop). rewrite Hcall.
    apply IH in Hloop as [Hle Hnew]. rewrite Hnew.
    destruct (SplitRefine_result c p p1 r Hcall) as [[-> E] | [-> E]].
    + rewrite decide_False by lia. rewrite E in *. done.
    + rewrite decide_True by lia. rewrite E in *. split; [lia |].
      replace (length (classes_ p') - length (classes_ p))%nat
        with (S (length (classes_ p') - S (length (classes_ p)))) by lia.
      done.
Qed.

(** C10.  With a null queue FinalizeSplit makes the same splits and
    yields the same partition as with a queue, and the queue stays null.
    With a queue, something is enqueued exactly when SplitRefine created a
    class: a call of SplitRefine in the loop either returns -1, leaves the
    number of classes as it is and nothing is enqueued, or it appends one
    class and returns its index, which is what is enqueued.  So when
    FinalizeSplit returns, the queue has received the indices of the
    classes appended, from the old number of classes up to the new one,
    and nothing else. *)
Theorem FinalizeSplit_null_queue (q : Q) (p : Partition) :
  FinalizeSplit Enqueue None p =
    (λ r, (r.1, None)) <$> FinalizeSplit Enqueue (Some q) p ∧
  (∀ c p1 n rest (L : option Q),
     SplitRefine c p = Ok (p1, n) →
     (n = -1 ∧ length (classes_ p1) = length (classes_ p) ∧
      FinalizeSplit_loop Enqueue (c :: rest) L p =
      FinalizeSplit_loop Enqueue rest L p1) ∨
     (n = Z.of_nat (length (classes_ p)) ∧
      length (classes_ p1) = S (length (classes_ p)) ∧
      FinalizeSplit_loop Enqueue (c :: rest) L p =
      FinalizeSplit_loop Enqueue rest (Enqueue n <$> L) p1)) ∧
  (∀ p' L',
     FinalizeSplit Enqueue (Some q) p = Ok (p', L') →
     FinalizeSplit Enqueue None p = Ok (p', None) ∧
     (length (classes_ p) ≤ length (classes_ p'))%nat ∧
     L' = Some (foldl (λ q c, Enqueue c q) q
                  (Z.of_nat <$> seq (length (classes_ p))
                     (length (classes_ p') - length (classes_ p)))) ∧
     (length (classes_ p') = length (classes_ p) → L' = Some q)).
Proof.
  assert (FinalizeSplit Enqueue None p =
          (λ r, (r.1, None)) <$> FinalizeSplit Enqueue (Some q) p) as Hnull.
  { unfold FinalizeSplit. rewrite (FinalizeSplit_loop_null Enqueue _ q).
    by destruct (FinalizeSplit_loop Enqueue _ (Some q) p) as [[p1 L1] | | |]. }
  split_and!; [done | |].
  - intros c p1 n rest L Hcall. simpl. rewrite Hcall. simpl.
    destruct (SplitRefine_result c p p1 n Hcall) as [[-> E] | [-> E]].
    + left. by rewrite decide_False by lia.
    + right. rewrite decide_True by lia. split_and!; [done | done |].
      by destruct L.
  - intros p' L' Hcall. rewrite Hnull, Hcall.
    unfold FinalizeSplit in Hcall.
    apply bind_Ok in Hcall as ([p1 L1] & Hloop & [= <- <-]). simpl.
    destruct (new_classes_seq _ _ _ _ _ Hloop) as [Hle Hnew].
    rewrite (FinalizeSplit_loop_queue Enqueue _ q) in Hloop.
    destruct (FinalizeSplit_loop Enqueue _ None p) as [[p2 L2] | | |];
      simpl in Hloop; try done.
    injection Hloop as <- <-. rewrite Hnew.
    split_and!; [done | done | done |].
    intros ->. by rewrite Nat.sub_diag.
Qed.

(** X5.  The class identifiers that FinalizeSplit hands to the queue are
    the fresh ones: whenever the call returns, in any state, the queue has
    received, in increasing order, exactly the indices from the old number
    of classes up to the new one; -1 is never enqueued. *)
Theorem FinalizeSplit_enqueues_the_fresh_ids (q : Q) (p p' : Partition)
    (L' : option Q) :
  FinalizeSplit Enqueue (Some q) p = Ok (p', L') →
  (length (classes_ p) ≤ length (classes_ p'))%nat ∧
  L' = Some (foldl (λ q c, Enqueue c q) q
               (Z.of_nat <$> seq (length (classes_ p))
                  (length (classes_ p') - length (classes_ p)))).
Proof.
  unfold FinalizeSplit. intros ([p1 L1] & Hloop & [= <- <-])%bind_Ok. simpl.
  destruct (new_classes_seq _ _ _ _ _ Hloop) as [Hle Hnew].
  split; [done |].
  rewrite (FinalizeSplit_loop_queue Enqueue _ q) in Hloop.
  destruct (FinalizeSplit_loop Enqueue _ None p) as [[p2 L2] | | |];
    simpl in Hloop; try done.
  injection Hloop as <- <-. by rewrite Hnew.
Qed.
End Fresh_ids.

Lemma FinalizeSplit_enqueues_the_fresh_ids_witness :
  (length (classes_ partition_A_split) ≤ 3)%nat ∧
  Some [2] =
  Some (foldl (λ q c, enqueue_back c q) []
          (Z.of_nat <$> seq (length (classes_ partition_A_split))
             (3 - length (classes_ partition_A_split)))).
Proof.
  apply (FinalizeSplit_enqueues_the_fresh_ids enqueue_back []
           partition_A_split
           (mkPartition
              [mkElement 0 0 (-1) 3; mkElement 2 1 (-1) 2;
               mkElement 2 1 1 (-1); mkElement 0 0 0 (-1)]
              [mkClass 2 0 3 (-1); mkClass 0 0 (-1) (-1); mkClass 2 0 2 (-1)]
              [] 2)
           (Some [2])).
  vm_compute. reflexivity.
Defined.

Section After_FinalizeSplit.
Context {Q : Type} (Enqueue : Z → Q → Q).

(** X6.  FinalizeSplit puts a well-formed partition back to rest, as long
    as yes_counter_ is below the greatest value of its type:
    visited_classes_ is empty, the epoch counter is one greater, every
    class has an empty 'yes' list with yes_size 0 and yes_head -1, no
    element that was added is in a 'yes' subset, and Move, which fails its
    CHECK while a split is pending, returns again for every such element
    and every class.  At the greatest value the increment wraps around:
    the call returns with yes_counter_ at the least value of the type,
    and the partition is no longer well-formed. *)
Theorem FinalizeSplit_resets_the_split (L : option Q) (p : Partition) :
  WF p →
  (yes_counter_ p < T_max →
   ∃ p' L',
     FinalizeSplit Enqueue L p = Ok (p', L') ∧ WF p' ∧
     visited_classes_ p' = [] ∧
     yes_counter_ p' = yes_counter_ p + 1 ∧
     length (elements_ p') = length (elements_ p) ∧
     (∀ c k, cls p' c = Ok k →
             yes_size k = 0 ∧ yes_head k = -1 ∧ yes_elements p' c = Ok []) ∧
     (∀ e, owned p' e = true → in_yes_subset p' e = false) ∧
     (∀ e c, owned p' e = true → in_range (classes_ p') c →
             ∃ p'', Move e c p' = Ok p'' ∧ WF p'')) ∧
  (yes_counter_ p = T_max →
   ∃ p' L',
     FinalizeSplit Enqueue L p = Ok (p', L') ∧
     visited_classes_ p' = [] ∧
     yes_counter_ p' = T_min ∧ ¬ WF p').
Proof.
  intros HWF. destruct (WF_visited p HWF) as (vl & Hvl).
  destruct HWF as (no & ys & HInv).
  destruct (FinalizeSplit_Inv Enqueue p no ys vl L HInv Hvl)
    as (p' & L' & Hcall & HInv' & Hlen' & Hyc & Hv & Hle & _).
  split; [intros Hlt | intros Hmax]; cycle 1.
  { eexists _, L'. split_and!; [exact Hcall | done | |].
    - proj. by rewrite Hmax.
    - proj. rewrite Hmax.
      intros (no' & ys' & [_ H1 _ _]). proj.
      rewrite wrap_T_overflow in H1. by vm_compute in H1. }
  rewrite (bump_WF _ p' _ _ HInv') in Hcall by (done || apply HInv).
  pose proof (inv_shape _ _ _ HInv') as HS'.
  assert (WF p') as HWF' by by eexists _, _.
  assert (∀ c k, cls p' c = Ok k →
            yes_size k = 0 ∧ yes_head k = -1 ∧ yes_elements p' c = Ok [])
    as Hcls.
  { intros c k (k0 & -> & Hk0)%cls_range.
    assert (k0 < (refined vl (length (classes_ p)) no ys).2)%nat as Hlt0.
    { rewrite <-Hlen'. by eapply lookup_lt_Some. }
    pose proof (refined_all_settled p no ys vl HInv Hvl k0 Hlt0) as Hnil.
    destruct (settled_lookup p' _ _ k0 k HS' Hk0 Hnil) as (-> & _ & ? & _).
    done. }
  exists p', L'. split_and!; try done.
  - intros e (x & k & -> & Hk & Hx)%(owned_spec p' _ _ _ HS').
    apply bool_not_true.
    rewrite (in_yes_subset_spec p' _ _ k x HInv' Hk Hx).
    rewrite Hlen' in Hk.
    rewrite (refined_all_settled p no ys vl HInv Hvl k Hk).
    by intros ?%elem_of_nil.
  - intros e c Hown Hc.
    pose proof Hown as (x & k & -> & Hk & Hx)%(owned_spec p' _ _ _ HS').
    destruct (lookup_lt_is_Some_2 _ _ Hk) as [cl Hcl].
    destruct (Shape_member p' _ _ k cl x HS' Hcl Hx) as (el & Hel & Hcid).
    destruct (Move_WF p' (Z.of_nat x) c el cl HWF' Hown) as (p'' & ? & ? & _);
      try done.
    + by apply elem_nat.
    + rewrite Hcid. by apply cls_nat.
    + apply (Hcls (Z.of_nat k)). by apply cls_nat.
    + by exists p''.
Qed.

(** X7.  FinalizeSplit leaves alone the classes that are not in
    visited_classes_: in a well-formed partition the record of such a
    class, the list of its elements and their class_id are the same
    after the call. *)
Theorem FinalizeSplit_keeps_unvisited_classes (L : option Q) (p : Partition)
    (c : Z) (k : Class) :
  WF p → cls p c = Ok k → c ∉ visited_classes_ p →
  ∃ p' L',
    FinalizeSplit Enqueue L p = Ok (p', L') ∧
    cls p' c = Ok k ∧
    class_elements p' c = class_elements p c ∧
    yes_elements p' c = yes_elements p c ∧
    (∀ e l, class_elements p c = Ok l → e ∈ l → class_id_of p' e = Ok c).
Proof.
  intros HWF (c0 & -> & Hk)%cls_range Hnv.
  destruct (WF_visited p HWF) as (vl & Hvl).
  destruct HWF as (no & ys & HInv).
  pose proof (inv_shape _ _ _ HInv) as HS.
  destruct (FinalizeSplit_Inv Enqueue p no ys vl L HInv Hvl)
    as (p' & L' & Hcall & HInv' & Hlen' & _).
  pose proof (inv_shape _ _ _ HInv') as HS'.
  destruct (visited_facts p no ys vl HInv Hvl) as [Hnd Hiff].
  assert (c0 < length (classes_ p))%nat as Hc0 by by eapply lookup_lt_Some.
  assert (c0 ∉ vl) as Hout.
  { intros Hin. apply Hnv. rewrite Hvl. by apply list_elem_of_fmap_2. }
  assert (ys c0 = []) as Eys.
  { destruct (ys c0) eqn:E; [done |]. destruct Hout. apply Hiff.
    by rewrite E. }
  destruct (refined_frame vl (length (classes_ p)) no ys c0 Hout Hc0)
    as [Eno Eys'].
  pose proof (refined_mono vl (length (classes_ p)) no ys) as Hmono.
  assert (c0 < length (classes_ p'))%nat as Hc0' by lia.
  destruct (lookup_lt_is_Some_2 _ _ Hc0') as [k' Hk'].
  rewrite Eys in Eys'.
  destruct (settled_lookup p' _ _ c0 k' HS' Hk' Eys') as (-> & Hn' & Hy' & Hid').
  destruct (settled_lookup p no ys c0 k HS Hk Eys) as (-> & Hn & Hy & _).
  rewrite Eno in *.
  exists (with_yes_counter (wrap_T (yes_counter_ p + 1)) p'), L'. unbump.
  split_and!; try done.
  - by apply cls_nat.
  - congruence.
  - congruence.
  - intros e l Hl He. assert (l = Z.of_nat <$> no c0) as -> by congruence.
    apply list_elem_of_fmap in He as (x & -> & Hx). by apply Hid'.
Qed.
End After_FinalizeSplit.

Lemma FinalizeSplit_keeps_unvisited_classes_witness :
  ∃ p' L',
    FinalizeSplit enqueue_back None partition_A_split = Ok (p', L') ∧
    cls p' 1 = Ok new_Class ∧
    class_elements p' 1 = class_elements partition_A_split 1 ∧
    yes_elements p' 1 = yes_elements partition_A_split 1 ∧
    (∀ e l, class_elements partition_A_split 1 = Ok l → e ∈ l →
            class_id_of p' e = Ok 1).
Proof.
  apply (FinalizeSplit_keeps_unvisited_classes enqueue_back None
           partition_A_split 1 new_Class).
  - exact WF_partition_A_split.
  - reflexivity.
  - vm_compute. intros H. inversion H; subst. inversion H2.
Defined.

Lemma WF_at_T_max : WF (mkPartition [] [] [] T_max).
Proof.
  exists (λ _, []), (λ _, []). split; simpl.
  - intros c cl Hc. simpl in Hc. by rewrite lookup_nil in Hc.
  - by vm_compute.
  - intros c x el Hc. lia.
  - exists []. split_and!; [done | apply NoDup_nil_2 |].
    intros c. split; [by intros ?%elem_of_nil | simpl; lia].
Qed.

Lemma FinalizeSplit_resets_the_split_witness :
  (∃ p' L',
     FinalizeSplit enqueue_back None partition_A_split = Ok (p', L') ∧
     WF p' ∧
     visited_classes_ p' = [] ∧
     yes_counter_ p' = yes_counter_ partition_A_split + 1 ∧
     length (elements_ p') = length (elements_ partition_A_split) ∧
     (∀ c k, cls p' c = Ok k →
             yes_size k = 0 ∧ yes_head k = -1 ∧ yes_elements p' c = Ok []) ∧
     (∀ e, owned p' e = true → in_yes_subset p' e = false) ∧
     (∀ e c, owned p' e = true → in_range (classes_ p') c →
             ∃ p'', Move e c p' = Ok p'' ∧ WF p'')) ∧
  (∃ p' L',
     FinalizeSplit enqueue_back None (mkPartition [] [] [] T_max)
       = Ok (p', L') ∧
     visited_classes_ p' = [] ∧
     yes_counter_ p' = T_min ∧ ¬ WF p').
Proof.
  split.
  - apply (proj1 (FinalizeSplit_resets_the_split enqueue_back None
                    partition_A_split WF_partition_A_split)).
    vm_compute. reflexivity.
  - apply (proj2 (FinalizeSplit_resets_the_split enqueue_back None
                    (mkPartition [] [] [] T_max) WF_at_T_max)).
    reflexivity.
Defined.

Lemma refined_bound vl : ∀ n no ys,
  ((refined vl n no ys).2 ≤ n + length vl)%nat.
Proof.
  induction vl as [|c vl IH]; intros n no ys; simpl; [lia |].
  etrans; [apply IH |]. case_decide; lia.
Qed.

Lemma kept_list_length (no ys : list nat) :
  (length (kept_list no ys) ≤ length no + length ys)%nat ∧
  (length no + length ys ≤ 2 * length (kept_list no ys))%nat.
Proof. unfold kept_list. case_decide; lia. Qed.

Lemma moved_list_nonempty (no ys : list nat) :
  no ≠ [] → ys ≠ [] → moved_list no ys ≠ [].
Proof. unfold moved_list. by case_decide. Qed.

Section Class_sizes.
Context {Q : Type} (Enqueue : Z → Q → Q).

(** X8.  FinalizeSplit of a well-formed partition creates at most one
    class per visited class and no empty class, and it halves a class at
    worst: every class appended by the call has a positive size, and a
    class that existed before keeps at least half of its elements, and is
    empty only if it was. *)
Theorem FinalizeSplit_creates_no_empty_class (L : option Q) (p : Partition) :
  WF p →
  ∃ p' L',
    FinalizeSplit Enqueue L p = Ok (p', L') ∧
    (length (classes_ p) ≤ length (classes_ p'))%nat ∧
    (length (classes_ p') ≤
       length (classes_ p) + length (visited_classes_ p))%nat ∧
    (∀ c k', cls p' c = Ok k' → Z.of_nat (length (classes_ p)) <= c →
             0 < size k') ∧
    (∀ c k k', cls p c = Ok k → cls p' c = Ok k' →
               size k' <= size k ∧ size k <= 2 * size k').
Proof.
  intros HWF. destruct (WF_visited p HWF) as (vl & Hvl).
  destruct HWF as (no & ys & HInv).
  pose proof (inv_shape _ _ _ HInv) as HS.
  destruct (FinalizeSplit_Inv Enqueue p no ys vl L HInv Hvl)
    as (p' & L' & Hcall & HInv' & Hlen' & _).
  pose proof (inv_shape _ _ _ HInv') as HS'.
  destruct (visited_facts p no ys vl HInv Hvl) as [Hnd Hiff].
  assert (∀ c', c' ∈ vl → (c' < length (classes_ p))%nat) as Hlt.
  { intros c' Hc'. by apply Hiff in Hc' as [? _]. }
  pose proof (refined_mono vl (length (classes_ p)) no ys) as Hmono.
  pose proof (refined_bound vl (length (classes_ p)) no ys) as Hbound.
  exists (with_yes_counter (wrap_T (yes_counter_ p + 1)) p'), L'. unbump.
  split_and!; try done.
  - lia.
  - rewrite Hvl, length_fmap. lia.
  - intros c k' (c0 & -> & Hk')%cls_range Hge.
    assert (c0 < (refined vl (length (classes_ p)) no ys).2)%nat as Hc0.
    { rewrite <-Hlen'. by eapply lookup_lt_Some. }
    destruct (refined_new vl (length (classes_ p)) no ys c0 Hnd Hlt)
      as (c & Hc & Hne & Hmoved & Hnil); [lia |].
    destruct (settled_lookup p' _ _ c0 k' HS' Hk' Hnil) as (-> & _).
    rewrite Hmoved. simpl.
    pose proof (moved_list_nonempty (no c) (ys c) Hne) as Hm.
    destruct (moved_list (no c) (ys c)); [| simpl; lia].
    destruct Hm; [| done]. by apply Hiff.
  - intros c k k' (c0 & -> & Hk)%cls_range (c1 & E & Hk')%cls_range.
    apply Nat2Z.inj in E as <-.
    assert (c0 < length (classes_ p))%nat as Hc0 by by eapply lookup_lt_Some.
    assert (c0 < (refined vl (length (classes_ p)) no ys).2)%nat as Hc0' by lia.
    pose proof (refined_all_settled p no ys vl HInv Hvl c0 Hc0') as Hnil.
    destruct (settled_lookup p' _ _ c0 k' HS' Hk' Hnil) as (-> & _).
    rewrite (ok_size _ _ _ _ _ _ (HS c0 k Hk)). simpl.
    destruct (decide (c0 ∈ vl)) as [Hin | Hout].
    + destruct (refined_visited vl (length (classes_ p)) no ys c0 Hnd Hin Hlt)
        as (-> & _).
      pose proof (kept_list_length (no c0) (ys c0)). lia.
    + destruct (refined_frame vl (length (classes_ p)) no ys c0 Hout Hc0)
        as [-> _].
      assert (ys c0 = []) as ->; [| simpl; lia].
      destruct (ys c0) eqn:E; [done |]. destruct Hout. apply Hiff.
      by rewrite E.
Qed.
End Class_sizes.

Lemma FinalizeSplit_creates_no_empty_class_witness :
  ∃ p' L',
    FinalizeSplit enqueue_back None partition_A_split = Ok (p', L') ∧
    (length (classes_ partition_A_split) ≤ length (classes_ p'))%nat ∧
    (length (classes_ p') ≤
       length (classes_ partition_A_split) +
       length (visited_classes_ partition_A_split))%nat ∧
    (∀ c k', cls p' c = Ok k' →
             Z.of_nat (length (classes_ partition_A_split)) <= c →
             0 < size k') ∧
    (∀ c k k', cls partition_A_split c = Ok k → cls p' c = Ok k' →
               size k' <= size k ∧ size k <= 2 * size k').
Proof.
  apply (FinalizeSplit_creates_no_empty_class enqueue_back None
           partition_A_split).
  exact WF_partition_A_split.
Defined.

Lemma Next_n_dlist p cid l : ∀ q i,
  dlist (elements_ p) q l → (i ≤ length l)%nat →
  Next_n i p (mkIterator (hdZ l) cid) = Ok (mkIterator (hdZ (drop i l)) cid).
Proof.
  induction l as [|x l IH]; intros q i Hl Hi.
  - simpl in Hi. by replace i with 0%nat by lia.
  - destruct i as [|i]; [done |].
    destruct Hl as (ex & Hex & Hp & Hn & Hl). simpl in Hi.
    simpl. unfold Next; simpl. rewrite (elem_nat _ _ _ Hex). simpl.
    rewrite Hn. apply (IH (Z.of_nat x)); [done | lia].
Qed.

(** X9.  In a well-formed partition the lists of the classes partition
    the elements that were added: the 'no' list and the 'yes' list of a
    class have no element twice and none in common, an element is on them
    exactly when it was added and class_id names this class, and it is on
    the 'yes' list exactly when its yes tag is the current yes_counter_. *)
Theorem class_lists_partition_the_elements (p : Partition) (c : Z)
    (l1 l2 : list Z) :
  WF p → class_elements p c = Ok l1 → yes_elements p c = Ok l2 →
  NoDup (l1 ++ l2) ∧
  (∀ e, e ∈ l1 ++ l2 ↔ owned p e = true ∧ class_id_of p e = Ok c) ∧
  (∀ e, e ∈ l2 ↔ e ∈ l1 ++ l2 ∧ in_yes_subset p e = true) ∧
  (∀ e, e ∈ l1 ++ l2 → in_range (elements_ p) e).
Proof.
  intros (no & ys & HInv) H1 H2.
  pose proof (inv_shape _ _ _ HInv) as HS.
  destruct (class_elements_range p c l1 H1) as (k & cl & -> & Hcl).
  assert (k < length (classes_ p))%nat as Hk by by eapply lookup_lt_Some.
  destruct (Shape_lists p no ys k HS Hk) as [E1 E2].
  assert (l1 = Z.of_nat <$> no k) as -> by congruence.
  assert (l2 = Z.of_nat <$> ys k) as -> by congruence.
  rewrite <-fmap_app. split_and!.
  - apply (NoDup_fmap_2 _), (ok_nodup _ _ _ _ _ _ (HS k cl Hcl)).
  - intros e. split.
    + intros (x & -> & Hx)%list_elem_of_fmap. split.
      * apply (owned_spec p no ys _ HS). by exists x, k.
      * by apply (Shape_class_id_of p no ys).
    + intros [(x & k' & -> & Hk' & Hx)%(owned_spec p no ys _ HS) Hid].
      rewrite (Shape_class_id_of p no ys k' x HS Hk' Hx) in Hid.
      assert (k' = k) as -> by (injection Hid; lia).
      by apply list_elem_of_fmap_2.
  - intros e. split.
    + intros (x & -> & Hx)%list_elem_of_fmap.
      assert (x ∈ no k ++ ys k) as Hx' by (apply elem_of_app; by right).
      split; [by apply list_elem_of_fmap_2 |].
      by apply (in_yes_subset_spec p no ys k x HInv Hk Hx').
    + intros [(x & -> & Hx)%list_elem_of_fmap Hy].
      apply list_elem_of_fmap_2.
      by apply (in_yes_subset_spec p no ys k x HInv Hk Hx).
  - intros e (x & -> & Hx)%list_elem_of_fmap.
    pose proof (class_ok_lt _ _ _ _ _ _ x (HS k cl Hcl) Hx).
    unfold in_range. lia.
Qed.

Lemma class_lists_partition_the_elements_witness :
  NoDup ([3; 0] ++ [2; 1]) ∧
  (∀ e, e ∈ [3; 0] ++ [2; 1] ↔
        owned partition_A_split e = true ∧
        class_id_of partition_A_split e = Ok 0) ∧
  (∀ e, e ∈ [2; 1] ↔
        e ∈ [3; 0] ++ [2; 1] ∧ in_yes_subset partition_A_split e = true) ∧
  (∀ e, e ∈ [3; 0] ++ [2; 1] → in_range (elements_ partition_A_split) e).
Proof.
  apply (class_lists_partition_the_elements partition_A_split 0).
  - exact WF_partition_A_split.
  - reflexivity.
  - reflexivity.
Defined.

(** X10.  A PartitionIterator over a class of a well-formed partition
    walks the 'no' list of the class: it yields size - yes_size elements;
    after i calls of Next it is not Done and its Value is the i-th of
    them, an element whose class_id is this class and which is not in the
    'yes' subset; after the last one it is Done.  Next on the Done
    iterator reads elements_[-1], out of the bounds of the vector. *)
Theorem PartitionIterator_walks_the_no_list (p : Partition) (c : Z)
    (k : Class) :
  WF p → cls p c = Ok k →
  ∃ l it,
    PartitionIterator_ctor p c = Ok it ∧
    class_elements p c = Ok l ∧
    Z.of_nat (length l) = size k - yes_size k ∧
    (∀ i e, l !! i = Some e →
       ∃ it', Next_n i p it = Ok it' ∧ Done it' = false ∧ Value it' = e ∧
              class_id_of p e = Ok c ∧ in_yes_subset p e = false) ∧
    (∃ it', Next_n (length l) p it = Ok it' ∧ Done it' = true ∧
            Next p it' = Undefined).
Proof.
  intros (no & ys & HInv) Hc.
  pose proof (inv_shape _ _ _ HInv) as HS.
  pose proof Hc as (c0 & -> & Hk)%cls_range.
  assert (c0 < length (classes_ p))%nat as Hc0 by by eapply lookup_lt_Some.
  pose proof (HS c0 k Hk) as Hok.
  destruct (Shape_lists p no ys c0 HS Hc0) as [E1 _].
  exists (Z.of_nat <$> no c0), (mkIterator (no_head k) (Z.of_nat c0)).
  split_and!.
  - unfold PartitionIterator_ctor. by rewrite Hc.
  - done.
  - rewrite length_fmap, (ok_size _ _ _ _ _ _ Hok),
      (ok_yes_size _ _ _ _ _ _ Hok). lia.
  - intros i e Hi. rewrite list_lookup_fmap in Hi.
    apply fmap_Some in Hi as (x & Hx & ->).
    exists (mkIterator (Z.of_nat x) (Z.of_nat c0)).
    assert (x ∈ no c0) as Hin by by eapply list_elem_of_lookup_2.
    assert (x ∈ no c0 ++ ys c0) as Hin' by (apply elem_of_app; by left).
    split_and!.
    + rewrite (ok_no_head _ _ _ _ _ _ Hok).
      rewrite (Next_n_dlist p (Z.of_nat c0) (no c0) (-1) i).
      * by rewrite (drop_S _ _ _ Hx).
      * apply Hok.
      * apply lookup_lt_Some in Hx. lia.
    + unfold Done; simpl. apply bool_decide_eq_false_2. lia.
    + done.
    + by apply (Shape_class_id_of p no ys).
    + apply bool_not_true.
      rewrite (in_yes_subset_spec p no ys c0 x HInv Hc0 Hin').
      intros Hy. pose proof (ok_nodup _ _ _ _ _ _ Hok) as Hnd.
      apply NoDup_app in Hnd as (_ & Hdis & _). by apply (Hdis x).
  - exists (mkIterator (-1) (Z.of_nat c0)). split_and!; [| done..].
    rewrite (ok_no_head _ _ _ _ _ _ Hok), length_fmap.
    rewrite (Next_n_dlist p (Z.of_nat c0) (no c0) (-1) (length (no c0)));
      [| apply Hok | done].
    by rewrite drop_all.
Qed.

Lemma PartitionIterator_walks_the_no_list_witness :
  ∃ l it,
    PartitionIterator_ctor partition_A_split 0 = Ok it ∧
    class_elements partition_A_split 0 = Ok l ∧
    Z.of_nat (length l) = size (mkClass 4 2 3 2) - yes_size (mkClass 4 2 3 2) ∧
    (∀ i e, l !! i = Some e →
       ∃ it', Next_n i partition_A_split it = Ok it' ∧ Done it' = false ∧
              Value it' = e ∧
              class_id_of partition_A_split e = Ok 0 ∧
              in_yes_subset partition_A_split e = false) ∧
    (∃ it', Next_n (length l) partition_A_split it = Ok it' ∧
            Done it' = true ∧ Next partition_A_split it' = Undefined).
Proof.
  apply (PartitionIterator_walks_the_no_list partition_A_split 0
           (mkClass 4 2 3 2)).
  - exact WF_partition_A_split.
  - reflexivity.
Defined.

Lemma AddClass_iter (n : nat) p :
  Nat.iter n (λ q, (AddClass q).1) p =
  with_classes (classes_ p ++ replicate n new_Class) p.
Proof.
  induction n as [|n IH].
  - simpl. rewrite app_nil_r. by destruct p.
  - rewrite Nat.iter_succ, IH. unfold AddClass. proj. rewrite resize_push.
    by rewrite <-(assoc_L (++)), <-replicate_S_end.
Qed.

Lemma AddClass_iter_WF (n : nat) p :
  WF p → WF (Nat.iter n (λ q, (AddClass q).1) p).
Proof.
  intros H. induction n as [|n IH]; [done |].
  rewrite Nat.iter_succ. by apply AddClass_WF.
Qed.

Lemma AllocateClasses_length (k : Z) (cs : list Class) :
  0 <= Z.of_nat (length cs) + k < 2 ^ 64 →
  to_size_t (Z.of_nat (length cs) + to_size_t k) = Z.of_nat (length cs) + k.
Proof.
  intros H. unfold to_size_t.
  rewrite Zplus_mod_idemp_r. by apply Z.mod_small.
Qed.

(** X11.  AllocateClasses with a count k >= 0 that stays within max_size()
    does what k calls of AddClass do: it appends k empty classes and
    changes nothing else; the lists of the classes that were there are as
    before, the new classes enumerate no element and have size 0, and a
    well-formed partition stays well-formed. *)
Theorem AllocateClasses_appends_empty_classes (max_size k : Z)
    (p : Partition) :
  0 <= k → Z.of_nat (length (classes_ p)) + k <= max_size →
  max_size < 2 ^ 64 →
  ∃ p',
    AllocateClasses max_size k p = Some p' ∧
    p' = Nat.iter (Z.to_nat k) (λ q, (AddClass q).1) p ∧
    p' = with_classes (classes_ p ++ replicate (Z.to_nat k) new_Class) p ∧
    num_classes p' = num_classes p + k ∧
    (WF p → WF p') ∧
    (∀ c, in_range (classes_ p) c →
          cls p' c = cls p c ∧
          class_elements p' c = class_elements p c ∧
          yes_elements p' c = yes_elements p c) ∧
    (∀ c, num_classes p <= c < num_classes p + k →
          cls p' c = Ok new_Class ∧ class_elements p' c = Ok [] ∧
          class_size p' c = Ok 0).
Proof.
  intros Hk Hmax H64.
  set (p' := with_classes (classes_ p ++ replicate (Z.to_nat k) new_Class) p).
  assert (p' = Nat.iter (Z.to_nat k) (λ q, (AddClass q).1) p) as Hiter
    by by rewrite AddClass_iter.
  assert (∀ c, in_range (classes_ p) c → cls p' c = cls p c) as Hold.
  { intros c (c0 & -> & Hc0)%in_range_nat. unfold cls, at_index, p'. proj.
    rewrite !Nat2Z.id. by rewrite lookup_app_l. }
  assert (∀ c, num_classes p <= c < num_classes p + k →
               cls p' c = Ok new_Class) as Hnew.
  { intros c Hc. unfold num_classes in Hc. unfold cls, at_index, p'. proj.
    rewrite decide_True by lia.
    rewrite lookup_app_r by lia.
    rewrite (lookup_replicate_2 _ new_Class); [done | lia]. }
  exists p'. split_and!; try done.
  - unfold AllocateClasses.
    rewrite AllocateClasses_length by lia.
    rewrite decide_True by done. do 2 f_equal.
    replace (Z.to_nat (Z.of_nat (length (classes_ p)) + k))
      with (length (classes_ p) + Z.to_nat k)%nat by lia.
    by rewrite resize_add, resize_all, drop_all, resize_nil.
  - unfold num_classes, p'. proj. rewrite length_app, length_replicate. lia.
  - intros HWF. rewrite Hiter. by apply AddClass_iter_WF.
  - intros c Hc. pose proof (Hold c Hc) as Hcls.
    unfold class_elements, yes_elements, PartitionIterator_ctor.
    rewrite Hcls. split_and!; [done | |].
    + destruct (cls p c); simpl; try done. by apply drain_elements.
    + destruct (cls p c); simpl; try done. by apply drain_elements.
  - intros c Hc. pose proof (Hnew c Hc) as Hcls.
    unfold class_elements, class_size, PartitionIterator_ctor.
    rewrite Hcls. split_and!; [done | | done].
    simpl. by destruct (length (elements_ p)).
Qed.

Lemma AllocateClasses_appends_empty_classes_witness :
  ∃ p',
    AllocateClasses (2 ^ 59) 3 partition_A = Some p' ∧
    p' = Nat.iter (Z.to_nat 3) (λ q, (AddClass q).1) partition_A ∧
    p' = with_classes
           (classes_ partition_A ++ replicate (Z.to_nat 3) new_Class)
           partition_A ∧
    num_classes p' = num_classes partition_A + 3 ∧
    (WF partition_A → WF p') ∧
    (∀ c, in_range (classes_ partition_A) c →
          cls p' c = cls partition_A c ∧
          class_elements p' c = class_elements partition_A c ∧
          yes_elements p' c = yes_elements partition_A c) ∧
    (∀ c, num_classes partition_A <= c < num_classes partition_A + 3 →
          cls p' c = Ok new_Class ∧ class_elements p' c = Ok [] ∧
          class_size p' c = Ok 0).
Proof.
  apply (AllocateClasses_appends_empty_classes (2 ^ 59) 3 partition_A).
  - lia.
  - vm_compute. discriminate.
  - reflexivity.
Defined.

(** X12.  AllocateClasses does not reject a negative count: converted to
    size_t and added to the length it wraps around, so that a count k < 0
    with |k| at most the number of classes removes the last |k| classes,
    whatever they hold.  The elements of a removed class keep its index as
    class_id, which then names no class. *)
Theorem AllocateClasses_negative_count_drops_classes (max_size k : Z)
    (p : Partition) :
  k < 0 → 0 <= Z.of_nat (length (classes_ p)) + k →
  Z.of_nat (length (classes_ p)) + k <= max_size → max_size < 2 ^ 64 →
  ∃ p',
    AllocateClasses max_size k p = Some p' ∧
    p' = with_classes
           (take (Z.to_nat (Z.of_nat (length (classes_ p)) + k)) (classes_ p))
           p ∧
    num_classes p' = num_classes p + k ∧
    (∀ c, 0 <= c < num_classes p + k → cls p' c = cls p c) ∧
    (∀ e c, class_id_of p e = Ok c → num_classes p + k <= c →
            class_id_of p' e = Ok c ∧ cls p' c = Undefined ∧
            owned p' e = false).
Proof.
  intros Hk H0 Hmax H64.
  set (n := Z.to_nat (Z.of_nat (length (classes_ p)) + k)).
  exists (with_classes (take n (classes_ p)) p).
  assert (∀ c, num_classes p + k <= c →
               cls (with_classes (take n (classes_ p)) p) c = Undefined)
    as Hgone.
  { intros c Hc. unfold num_classes in Hc. unfold cls, at_index. proj.
    rewrite decide_True by lia.
    rewrite lookup_take_ge; [done | lia]. }
  split_and!; try done.
  - unfold AllocateClasses.
    rewrite AllocateClasses_length by lia.
    rewrite decide_True by done. do 2 f_equal.
    apply resize_le. lia.
  - unfold num_classes. proj. rewrite length_take. lia.
  - intros c Hc. unfold num_classes in Hc. unfold cls, at_index. proj.
    rewrite !decide_True by lia.
    rewrite lookup_take_lt; [done | lia].
  - intros e c He Hc. split_and!; [done | by apply Hgone |].
    unfold class_id_of, elem in He. unfold owned, elem. proj.
    destruct (at_index (elements_ p) e) as [el | | |]; try done.
    simpl in He. injection He as ->.
    unfold is_member, class_elements, PartitionIterator_ctor.
    by rewrite Hgone.
Qed.

Lemma AllocateClasses_negative_count_drops_classes_witness :
  ∃ p',
    AllocateClasses (2 ^ 59) (-2) partition_A = Some p' ∧
    p' = with_classes
           (take (Z.to_nat (Z.of_nat (length (classes_ partition_A)) + -2))
                 (classes_ partition_A))
           partition_A ∧
    num_classes p' = num_classes partition_A + -2 ∧
    (∀ c, 0 <= c < num_classes partition_A + -2 →
          cls p' c = cls partition_A c) ∧
    (∀ e c, class_id_of partition_A e = Ok c →
            num_classes partition_A + -2 <= c →
            class_id_of p' e = Ok c ∧ cls p' c = Undefined ∧
            owned p' e = false).
Proof.
  apply (AllocateClasses_negative_count_drops_classes (2 ^ 59) (-2)
           partition_A).
  - lia.
  - vm_compute. discriminate.
  - vm_compute. discriminate.
  - reflexivity.
Defined.

(** What one call of SplitOn changes for the elements that were added:
    the mark of its argument. *)
Lemma SplitOn_marks p e :
  WF p → owned p e = true →
  ∃ p', SplitOn e p = Ok p' ∧ WF p' ∧
        yes_counter_ p' = yes_counter_ p ∧
        (∀ e', owned p' e' = owned p e') ∧
        (∀ e', owned p e' = true → class_id_of p' e' = class_id_of p e') ∧
        (∀ e', owned p e' = true →
               (in_yes_subset p' e' = true ↔
                in_yes_subset p e' = true ∨ e' = e)).
Proof.
  intros (no & ys & HInv) Hown.
  pose proof (inv_shape _ _ _ HInv) as HS.
  pose proof Hown as (x & c & -> & Hc & Hx)%(owned_spec p no ys _ HS).
  destruct (lookup_lt_is_Some_2 _ _ Hc) as [cl Hcl].
  destruct (proj1 (elem_of_app _ _ _) Hx) as [Hxn | Hxy].
  - pose proof Hxn as (l1 & l2 & Hno)%list_elem_of_split.
    destruct (SplitOn_Inv p no ys c l1 x l2 HInv Hc Hno)
      as (p' & Hcall & HInv' & _ & Hlen & _ & Hyc' & _).
    pose proof (inv_shape _ _ _ HInv') as HS'.
    assert (∀ k y, y ∈ upd no c (l1 ++ l2) k ++ upd ys c (x :: ys c) k ↔
                   y ∈ no k ++ ys k) as Hmem.
    { intros k y. unfold upd. case_decide as E; [| done]. subst k.
      rewrite Hno.
      repeat first [rewrite elem_of_app | rewrite elem_of_cons]. tauto. }
    exists p'. split_and!; [done | by eexists _, _ | done | | |].
    + intros e'. apply bool_eq_iff.
      rewrite (owned_spec p' _ _ e' HS'), (owned_spec p no ys e' HS).
      split; intros (y & k & -> & Hk & Hy); exists y, k;
        (split_and!; [done | lia | by apply Hmem]).
    + intros e' (y & k & -> & Hk & Hy)%(owned_spec p no ys _ HS).
      rewrite (Shape_class_id_of p no ys k y HS Hk Hy).
      apply (Shape_class_id_of p' _ _ k y HS'); [lia | by apply Hmem].
    + intros e' (y & k & -> & Hk & Hy)%(owned_spec p no ys _ HS).
      rewrite (in_yes_subset_spec p no ys k y HInv Hk Hy).
      rewrite (in_yes_subset_spec p' _ _ k y HInv'); [| lia | by apply Hmem].
      unfold upd. case_decide as E.
      * subst k. rewrite elem_of_cons. split.
        -- intros [-> | H]; [by right | by left].
        -- intros [H | H]; [by right | left; by apply Nat2Z.inj].
      * split; [by left |]. intros [H | H]; [done |].
        apply Nat2Z.inj in H as ->. destruct E.
        by apply (Shape_disjoint p no ys k c x HS).
  - assert (in_yes_subset p (Z.of_nat x) = true) as Hy
      by by apply (in_yes_subset_spec p no ys c x HInv Hc Hx).
    exists p. split_and!; [| by exists no, ys | done | done | done |].
    + destruct (ok_owner _ _ _ _ _ _ (HS c cl Hcl) x Hx) as (ex & Hex & _).
      unfold SplitOn. rewrite (elem_nat _ _ _ Hex). simpl.
      by rewrite decide_True
        by by eapply (ok_tag _ _ _ _ _ _ (HS c cl Hcl) x).
    + intros e' _. split; [by left |]. by intros [H | ->].
Qed.

Lemma forallb_same {A} (f g : A → bool) (l : list A) :
  (∀ x, f x = g x) → forallb f l = forallb g l.
Proof. intros H. induction l as [|x l IH]; simpl; [done |]. by rewrite H, IH. Qed.

Lemma SplitOn_all_marks l : ∀ p,
  WF p → forallb (owned p) l = true →
  ∃ p', SplitOn_all l p = Ok p' ∧ WF p' ∧
        yes_counter_ p' = yes_counter_ p ∧
        (∀ e', owned p' e' = owned p e') ∧
        (∀ e', owned p e' = true → class_id_of p' e' = class_id_of p e') ∧
        (∀ e', owned p e' = true →
               (in_yes_subset p' e' = true ↔
                in_yes_subset p e' = true ∨ e' ∈ l)).
Proof.
  induction l as [|e l IH]; intros p HWF Hl.
  - exists p. split_and!; try done.
    intros e' _. split; [by left |]. by intros [? | ?%elem_of_nil].
  - simpl in Hl. apply andb_true_iff in Hl as [He Hl].
    destruct (SplitOn_marks p e HWF He)
      as (p1 & Hcall & HWF1 & Hk1 & Ho1 & Hc1 & Hy1).
    destruct (IH p1 HWF1) as (p' & Hcall' & HWF' & Hk' & Ho' & Hc' & Hy').
    { rewrite <-Hl. apply forallb_same. intros z. apply Ho1. }
    exists p'. split_and!; [| done | | | |].
    + simpl. by rewrite Hcall.
    + congruence.
    + intros e'. by rewrite Ho', Ho1.
    + intros e' H. rewrite Hc' by by rewrite Ho1. by apply Hc1.
    + intros e' H. rewrite Hy' by by rewrite Ho1. rewrite (Hy1 e' H).
      rewrite elem_of_cons. tauto.
Qed.

(** Between two splits no element is marked. *)
Lemma no_mark_at_rest p e :
  WF p → visited_classes_ p = [] → owned p e = true →
  in_yes_subset p e = false.
Proof.
  intros HWF Hv Hown. destruct (WF_visited p HWF) as (vl & Hvl).
  destruct HWF as (no & ys & HInv).
  pose proof (inv_shape _ _ _ HInv) as HS.
  destruct (visited_facts p no ys vl HInv Hvl) as [_ Hiff].
  rewrite Hv in Hvl. symmetry in Hvl. apply fmap_nil_inv in Hvl. subst vl.
  apply (owned_spec p no ys _ HS) in Hown as (x & c & -> & Hc & Hx).
  apply bool_not_true.
  rewrite (in_yes_subset_spec p no ys c x HInv Hc Hx).
  intros Hy. assert (c ∈ ([] : list nat)) as H%elem_of_nil; [| done].
  apply Hiff. split; [done |]. intros E. rewrite E in Hy.
  by apply elem_of_nil in Hy.
Qed.

Section Refinement_step.
Context {Q : Type} (Enqueue : Z → Q → Q).

(** X13.  One refinement step, as the callers run it.  In a well-formed
    partition with no split pending, SplitOn on each element of a list of
    added elements, in any order and with repetitions, followed by
    FinalizeSplit, returns and splits every class by membership in the
    list: two elements are in the same class afterwards exactly when they
    were in the same class and are both in the list or both outside it.
    No split is pending afterwards, and the partition is well-formed when
    yes_counter_ was below the greatest value of its type. *)
Theorem SplitOn_then_FinalizeSplit_splits_by_the_list (L : option Q)
    (p : Partition) (l : list Z) :
  WF p → visited_classes_ p = [] → forallb (owned p) l = true →
  ∃ p1 p' L',
    SplitOn_all l p = Ok p1 ∧
    FinalizeSplit Enqueue L p1 = Ok (p', L') ∧
    (yes_counter_ p < T_max → WF p') ∧ visited_classes_ p' = [] ∧
    (∀ e, owned p' e = owned p e) ∧
    (∀ e1 e2, owned p e1 = true → owned p e2 = true →
       (class_id_of p' e1 = class_id_of p' e2 ↔
        class_id_of p e1 = class_id_of p e2 ∧ (e1 ∈ l ↔ e2 ∈ l))).
Proof.
  intros HWF Hv Hl.
  destruct (SplitOn_all_marks l p HWF Hl)
    as (p1 & Hcall1 & HWF1 & Hk1 & Ho1 & Hc1 & Hy1).
  destruct (FinalizeSplit_refines Enqueue L p1 HWF1)
    as (p' & L' & Hcall & HWF' & Hv' & Ho' & Hsame).
  exists p1, p', L'. split_and!; try done.
  - intros Hlt. apply HWF'. by rewrite Hk1.
  - intros e. by rewrite Ho', Ho1.
  - intros e1 e2 H1 H2.
    rewrite (Hsame e1 e2) by by rewrite Ho1.
    rewrite (Hc1 e1 H1), (Hc1 e2 H2).
    assert (∀ e, owned p e = true → (in_yes_subset p1 e = true ↔ e ∈ l))
      as Hmark.
    { intros e He. rewrite (Hy1 e He), (no_mark_at_rest p e HWF Hv He).
      split; [by intros [? | ?] | by right]. }
    rewrite <-(Hmark e1 H1), <-(Hmark e2 H2).
    split; intros [? Hm]; (split; [done |]).
    + by rewrite Hm.
    + by apply bool_eq_iff.
Qed.
End Refinement_step.

Lemma SplitOn_then_FinalizeSplit_splits_by_the_list_witness :
  ∃ p1 p' L',
    SplitOn_all [1; 2; 1] partition_A = Ok p1 ∧
    FinalizeSplit enqueue_back (Some []) p1 = Ok (p', L') ∧
    WF p' ∧ visited_classes_ p' = [] ∧
    (∀ e, owned p' e = owned partition_A e) ∧
    (∀ e1 e2, owned partition_A e1 = true → owned partition_A e2 = true →
       (class_id_of p' e1 = class_id_of p' e2 ↔
        class_id_of partition_A e1 = class_id_of partition_A e2 ∧
        (e1 ∈ [1; 2; 1] ↔ e2 ∈ [1; 2; 1]))).
Proof.
  destruct (SplitOn_then_FinalizeSplit_splits_by_the_list enqueue_back
              (Some []) partition_A [1; 2; 1] WF_partition_A eq_refl eq_refl)
    as (p1 & p' & L' & H1 & H2 & H3 & H4 & H5 & H6).
  exists p1, p', L'. split_and!; [exact H1 | exact H2 | | exact H4 | exact H5 | exact H6].
  apply H3. vm_compute. reflexivity.
Defined.

Lemma added_to_cons e c l k :
  added_to ((e, c) :: l) k =
  added_to l k ++ (if decide (c = k) then [e] else []).
Proof.
  unfold added_to. case_decide as E.
  - rewrite filter_cons_True by done.
    by rewrite fmap_cons, reverse_cons.
  - rewrite filter_cons_False by done. by rewrite app_nil_r.
Qed.

Lemma elem_of_added_to e c l : e ∈ added_to l c ↔ (e, c) ∈ l.
Proof.
  unfold added_to. rewrite elem_of_reverse, list_elem_of_fmap. split.
  - intros ([e' c'] & -> & [E Hin]%list_elem_of_filter). simpl in E.
    by subst c'.
  - intros H. exists (e, c). split; [done |].
    by apply list_elem_of_filter.
Qed.

Lemma forallb_addable p l :
  forallb (addable p) l = true →
  ∀ e c, (e, c) ∈ l →
         in_range (elements_ p) e ∧ in_range (classes_ p) c ∧
         owned p e = false.
Proof.
  intros H e c Hin. apply forallb_forall with (x := (e, c)) in H.
  - unfold addable in H. simpl in H.
    apply andb_true_iff in H as [[H1 H2]%andb_true_iff H3].
    apply bool_decide_eq_true in H1, H2. apply negb_true_iff in H3. done.
  - by apply list_elem_of_In.
Qed.

Lemma Add_all_Inv l : ∀ p no ys,
  Inv p no ys → NoDup l.*1 →
  (∀ e c, (e, c) ∈ l →
          in_range (elements_ p) e ∧ in_range (classes_ p) c ∧
          owned p e = false) →
  ∃ p' no',
    Add_all l p = Ok p' ∧ Inv p' no' ys ∧
    (∀ k, Z.of_nat <$> no' k =
          added_to l (Z.of_nat k) ++ (Z.of_nat <$> no k)) ∧
    length (elements_ p') = length (elements_ p) ∧
    length (classes_ p') = length (classes_ p) ∧
    total_size p' = total_size p + Z.of_nat (length l).
Proof.
  induction l as [|[e c] l IH]; intros p no ys HInv Hnd Hl.
  - exists p, no. split_and!; try done. simpl. lia.
  - simpl in Hnd. apply NoDup_cons in Hnd as [Hnin Hnd].
    destruct (Hl e c (list_elem_of_here _ _))
      as ((x & -> & Hx)%in_range_nat & (k & -> & Hk)%in_range_nat & Hun).
    pose proof (inv_shape _ _ _ HInv) as HS.
    pose proof (not_owned_spec p no ys x HS Hun) as Hun'.
    destruct (Add_Inv p no ys x k HInv Hx Hk Hun')
      as (p1 & Hcall & HInv1 & Hle1 & Hlc1 & Htot1).
    pose proof (inv_shape _ _ _ HInv1) as HS1.
    destruct (IH p1 (upd no k (x :: no k)) ys HInv1 Hnd)
      as (p' & no' & Hcall' & HInv' & Hno' & Hle' & Hlc' & Htot').
    { intros e' c' Hin.
      destruct (Hl e' c' (list_elem_of_further _ _ _ Hin))
        as (He' & Hc' & Hun1).
      unfold in_range in *. rewrite Hle1, Hlc1. split_and!; [lia.. |].
      apply bool_not_true.
      intros (y & k' & -> & Hk' & Hy)%(owned_spec p1 _ _ _ HS1).
      assert (owned p (Z.of_nat y) = true) as Hown; [| congruence].
      apply (owned_spec p no ys _ HS). exists y, k'.
      split_and!; [done | lia |].
      revert Hy. unfold upd. case_decide as E; [| done]. subst k'.
      rewrite !elem_of_app, elem_of_cons. intros [[-> | ?] | ?]; auto.
      destruct Hnin. apply list_elem_of_fmap. by exists (Z.of_nat x, c'). }
    exists p', no'. split_and!.
    + simpl. by rewrite Hcall.
    + done.
    + intros k'. rewrite Hno', added_to_cons, <-(assoc_L (++)). f_equal.
      unfold upd. destruct (decide (k' = k)) as [-> | Hne].
      * by rewrite decide_True.
      * rewrite decide_False by lia. done.
    + lia.
    + lia.
    + rewrite Htot', Htot1. simpl. lia.
Qed.

(** X14.  Building the classes.  In a well-formed partition, Add of each
    pair of a list (element, class), the elements distinct, in range and
    in no class, the classes in range: every call returns; each element
    of the list is then in the class it was added to; the 'no' list of a
    class is the list of the elements added to it, the one added last
    first, followed by what it was; the elements added before stay where
    they were; the sizes sum to what they did plus the length of the
    list. *)
Theorem Add_all_builds_the_classes (p : Partition) (l : list (Z * Z)) :
  WF p → NoDup l.*1 → forallb (addable p) l = true →
  ∃ p',
    Add_all l p = Ok p' ∧ WF p' ∧
    (∀ e c, (e, c) ∈ l → owned p' e = true ∧ class_id_of p' e = Ok c) ∧
    (∀ e, owned p e = true →
          owned p' e = true ∧ class_id_of p' e = class_id_of p e) ∧
    (∀ c lc, class_elements p c = Ok lc →
             class_elements p' c = Ok (added_to l c ++ lc)) ∧
    (∀ c, yes_elements p' c = yes_elements p c) ∧
    total_size p' = total_size p + Z.of_nat (length l).
Proof.
  intros (no & ys & HInv) Hnd Hl.
  pose proof (forallb_addable p l Hl) as Hl'.
  pose proof (inv_shape _ _ _ HInv) as HS.
  destruct (Add_all_Inv l p no ys HInv Hnd Hl')
    as (p' & no' & Hcall & HInv' & Hno' & Hle & Hlc & Htot).
  pose proof (inv_shape _ _ _ HInv') as HS'.
  assert (∀ y k, y ∈ no' k ↔
                 Z.of_nat y ∈ added_to l (Z.of_nat k) ∨ y ∈ no k) as Hmem.
  { intros y k. split.
    - intros H. apply (list_elem_of_fmap_2 Z.of_nat) in H.
      rewrite Hno' in H. apply elem_of_app in H as [H | H]; [by left | right].
      by apply (list_elem_of_fmap_inj_2 Z.of_nat).
    - intros H. apply (list_elem_of_fmap_inj_2 Z.of_nat).
      rewrite Hno'. apply elem_of_app.
      destruct H as [H | H]; [by left | right].
      by apply list_elem_of_fmap_2. }
  exists p'. split_and!; [done | by exists no', ys | | | | | done].
  - intros e c Hin.
    destruct (Hl' e c Hin) as ((x & -> & Hx)%in_range_nat &
                               (k & -> & Hk)%in_range_nat & _).
    assert (x ∈ no' k ++ ys k) as Hx'.
    { apply elem_of_app. left. apply Hmem. left. by apply elem_of_added_to. }
    split.
    + apply (owned_spec p' no' ys _ HS'). exists x, k. by rewrite Hlc.
    + apply (Shape_class_id_of p' no' ys k x HS'); [lia | done].
  - intros e (y & k & -> & Hk & Hy)%(owned_spec p no ys _ HS).
    assert (y ∈ no' k ++ ys k) as Hy'.
    { revert Hy. rewrite !elem_of_app, Hmem. tauto. }
    split.
    + apply (owned_spec p' no' ys _ HS'). exists y, k. by rewrite Hlc.
    + rewrite (Shape_class_id_of p no ys k y HS Hk Hy).
      apply (Shape_class_id_of p' no' ys k y HS'); [lia | done].
  - intros c lc Hc.
    apply class_elements_range in Hc as Hr.
    destruct Hr as (k & cl & -> & Hcl). apply lookup_lt_Some in Hcl.
    destruct (Shape_lists p no ys k HS Hcl) as [E _].
    destruct (Shape_lists p' no' ys k HS') as [-> _]; [lia |].
    assert (lc = Z.of_nat <$> no k) as -> by congruence.
    by rewrite Hno'.
  - by apply (yes_elements_same p p' no no' ys).
Qed.

Lemma Add_all_builds_the_classes_witness :
  ∃ p',
    Add_all [(2, 1); (0, 0); (3, 1)]
            (AddClass (AddClass (Partition_ctor 4)).1).1 = Ok p' ∧
    WF p' ∧
    (∀ e c, (e, c) ∈ [(2, 1); (0, 0); (3, 1)] →
            owned p' e = true ∧ class_id_of p' e = Ok c) ∧
    (∀ e, owned (AddClass (AddClass (Partition_ctor 4)).1).1 e = true →
          owned p' e = true ∧
          class_id_of p' e =
          class_id_of (AddClass (AddClass (Partition_ctor 4)).1).1 e) ∧
    (∀ c lc,
       class_elements (AddClass (AddClass (Partition_ctor 4)).1).1 c = Ok lc →
       class_elements p' c =
       Ok (added_to [(2, 1); (0, 0); (3, 1)] c ++ lc)) ∧
    (∀ c, yes_elements p' c =
          yes_elements (AddClass (AddClass (Partition_ctor 4)).1).1 c) ∧
    total_size p' =
    total_size (AddClass (AddClass (Partition_ctor 4)).1).1 +
    Z.of_nat (length [(2, 1); (0, 0); (3, 1)]).
Proof.
  apply (Add_all_builds_the_classes
           (AddClass (AddClass (Partition_ctor 4)).1).1
           [(2, 1); (0, 0); (3, 1)]).
  - apply AddClass_WF, AddClass_WF, WF_ctor.
  - apply (bool_decide_unpack _). by vm_compute.
  - reflexivity.
Defined.

(** * EscapeChars *)

Lemma EscapeChars_loop_app c : ∀ ns,
  EscapeChars_loop c ns = ns ++ EscapeChars_loop c [].
Proof.
  induction c as [|ch c IH]; intros ns; simpl.
  - by rewrite app_nil_r.
  - case_decide; [by rewrite app_nil_r |].
    rewrite IH. rewrite (IH (_ ++ [ch])).
    case_decide; simpl; by rewrite <-!(assoc_L (++)).
Qed.

Lemma EscapeChars_loop_cons ch c ns :
  ch ≠ 0 →
  EscapeChars_loop (ch :: c) ns =
  ns ++ escaped_char ch ++ EscapeChars_loop c [].
Proof.
  intros H. simpl. rewrite decide_False by done.
  rewrite EscapeChars_loop_app. unfold escaped_char.
  case_decide; simpl; by rewrite <-!(assoc_L (++)).
Qed.

(** The loop as a function of the characters before the first NUL. *)
Lemma EscapeChars_flat s ns :
  EscapeChars s ns = ns ++ mjoin (escaped_char <$> before_NUL s).
Proof.
  unfold EscapeChars, c_str. rewrite EscapeChars_loop_app. f_equal.
  induction s as [|ch s IH].
  - reflexivity.
  - rewrite <-app_comm_cons. simpl before_NUL.
    destruct (decide (ch = 0)) as [-> | Hne]; [done |].
    rewrite EscapeChars_loop_cons by done. simpl. by rewrite IH.
Qed.

Lemma before_NUL_app_NUL s1 s2 :
  before_NUL (s1 ++ 0 :: s2) = before_NUL s1.
Proof.
  induction s1 as [|c s1 IH]; simpl; [done |].
  case_decide; [done |]. by rewrite IH.
Qed.

Lemma before_NUL_app s1 s2 :
  0 ∉ s1 → before_NUL (s1 ++ s2) = s1 ++ before_NUL s2.
Proof.
  induction s1 as [|c s1 IH]; intros H; simpl; [done |].
  apply not_elem_of_cons in H as [H0 H].
  rewrite decide_False by done. by rewrite IH.
Qed.

Lemma before_NUL_id s : 0 ∉ s → before_NUL s = s.
Proof.
  induction s as [|c s IH]; intros H; simpl; [done |].
  apply not_elem_of_cons in H as [H0 H].
  rewrite decide_False by done. by rewrite IH.
Qed.

Lemma unescape_escaped ch l :
  ch ≠ 0 → unescape (escaped_char ch ++ l) = cons ch <$> unescape l.
Proof.
  intros _. unfold escaped_char.
  destruct (decide (ch = backslash ∨ ch = double_quote)) as [H | H]; simpl.
  - done.
  - rewrite !decide_False by tauto. done.
Qed.

Lemma unescape_EscapeChars s :
  unescape (EscapeChars s []) = Some (before_NUL s).
Proof.
  rewrite EscapeChars_flat. simpl.
  induction s as [|ch s IH]; simpl; [done |].
  destruct (decide (ch = 0)) as [-> | Hne]; [done |].
  change (mjoin (escaped_char <$> ch :: before_NUL s))
    with (escaped_char ch ++ mjoin (escaped_char <$> before_NUL s)).
  rewrite unescape_escaped by done. by rewrite IH.
Qed.

(** X15.  EscapeChars only appends to the string it is given, and it reads
    its argument as a C string: what follows the first NUL of the argument
    is dropped without a word.  Over arguments without NUL the call
    distributes over concatenation. *)
Theorem EscapeChars_appends_up_to_the_first_NUL (s1 s2 ns : list Z) :
  EscapeChars s1 ns = ns ++ EscapeChars s1 [] ∧
  EscapeChars (s1 ++ 0 :: s2) ns = EscapeChars s1 ns ∧
  EscapeChars s1 ns = EscapeChars (before_NUL s1) ns ∧
  (0 ∉ s1 → EscapeChars (s1 ++ s2) ns = EscapeChars s2 (EscapeChars s1 ns)).
Proof.
  split_and!.
  - by rewrite (EscapeChars_flat s1 ns), (EscapeChars_flat s1 []).
  - by rewrite !EscapeChars_flat, before_NUL_app_NUL.
  - rewrite !EscapeChars_flat. do 3 f_equal.
    induction s1 as [|c s1 IH]; simpl; [done |].
    case_decide; [done |]. simpl. rewrite decide_False by done.
    by rewrite <-IH.
  - intros H. rewrite !EscapeChars_flat, before_NUL_app by done.
    rewrite (before_NUL_id s1) by done.
    by rewrite fmap_app, join_app, <-(assoc_L (++)).
Qed.

(** X16.  EscapeChars loses nothing of the C string: read back, a
    backslash taking the next character with it, its output gives the
    characters of the argument up to the first NUL.  So the output has no
    double quote without a backslash before it and no backslash left
    alone at its end, and two arguments with the same output are the same
    C string. *)
Theorem EscapeChars_can_be_read_back (s : list Z) :
  unescape (EscapeChars s []) = Some (before_NUL s) ∧
  (∀ s', EscapeChars s [] = EscapeChars s' [] →
         before_NUL s = before_NUL s').
Proof.
  split; [apply unescape_EscapeChars |].
  intros s' H. pose proof (unescape_EscapeChars s) as H1.
  rewrite H, unescape_EscapeChars in H1. by injection H1.
Qed.

(** X17.  The length of what EscapeChars appends: one character for each
    character before the first NUL, and one more for each of them that is
    a backslash or a double quote; so at most twice as many.  A string
    with no NUL, backslash or double quote is appended as it is. *)
Theorem EscapeChars_length (s ns : list Z) :
  length (EscapeChars s ns) =
    (length ns + length (before_NUL s) +
     length (filter (λ c, c = backslash ∨ c = double_quote) (before_NUL s)))%nat ∧
  (length (EscapeChars s ns) ≤ length ns + 2 * length s)%nat ∧
  (Forall (λ c, c ≠ 0 ∧ c ≠ backslash ∧ c ≠ double_quote) s →
   EscapeChars s ns = ns ++ s).
Proof.
  assert (length (EscapeChars s ns) =
    (length ns + length (before_NUL s) +
     length (filter (λ c, c = backslash ∨ c = double_quote) (before_NUL s)))%nat)
    as Hlen.
  { rewrite EscapeChars_flat, length_app, <-(assoc_L Nat.add)%nat. f_equal.
    induction (before_NUL s) as [|c l IH]; [done |].
    change (mjoin (escaped_char <$> c :: l))
      with (escaped_char c ++ mjoin (escaped_char <$> l)).
    rewrite length_app, IH. unfold escaped_char.
    destruct (decide (c = backslash ∨ c = double_quote)) as [H | H].
    - rewrite filter_cons_True by done. simpl. lia.
    - rewrite filter_cons_False by done. simpl. lia. }
  split_and!; [done | |].
  - rewrite Hlen.
    pose proof (length_filter (λ c, c = backslash ∨ c = double_quote)
                  (before_NUL s)).
    assert (length (before_NUL s) ≤ length s)%nat; [| lia].
    clear. induction s as [|c s IH]; simpl; [done |].
    case_decide; simpl; lia.
  - intros H. rewrite EscapeChars_flat. f_equal. clear Hlen.
    induction H as [|c s (H0 & Hb & Hq) H IH]; simpl; [done |].
    rewrite decide_False by done.
    change (mjoin (escaped_char <$> c :: before_NUL s))
      with (escaped_char c ++ mjoin (escaped_char <$> before_NUL s)).
    rewrite IH.
    unfold escaped_char. rewrite decide_False by tauto. done.
Qed.

(** X18.  Initialize on a partition that was in use.  The result is
    well-formed exactly when no split was pending.  It has no class, so no
    element is in a class; but the elements kept by the resize are not
    reset: class_id still answers what it did, and for the elements that
    the resize creates it answers 0 (not -1), as it does for every element
    of a partition just constructed. *)
Theorem Initialize_forgets_classes_not_elements (n : nat) (p : Partition) :
  (WF (Initialize n p) ↔ visited_classes_ p = []) ∧
  num_classes (Initialize n p) = 0 ∧
  (∀ e, owned (Initialize n p) e = false) ∧
  (∀ e, 0 <= e < Z.of_nat n →
        class_id_of (Initialize n p) e =
        if decide (e < Z.of_nat (length (elements_ p)))
        then class_id_of p e else Ok 0) ∧
  (∀ e, 0 <= e < Z.of_nat n → class_id_of (Partition_ctor n) e = Ok 0).
Proof.
  assert (∀ q e, 0 <= e < Z.of_nat n →
            class_id_of (Initialize n q) e =
            if decide (e < Z.of_nat (length (elements_ q)))
            then class_id_of q e else Ok 0) as Hid.
  { intros q e He. unfold class_id_of, elem, at_index, Initialize. simpl.
    rewrite decide_True by lia.
    case_decide.
    - rewrite lookup_resize by lia. by rewrite decide_True by lia.
    - rewrite lookup_resize_new by lia. done. }
  split_and!.
  - split; [| apply WF_Initialize].
    intros HWF. destruct (WF_visited _ HWF) as (vl & Hvl).
    destruct HWF as (no & ys & HInv).
    destruct (visited_facts _ no ys vl HInv Hvl) as [_ Hiff].
    simpl in Hvl. rewrite Hvl.
    destruct vl as [|c vl]; [done |].
    destruct (proj1 (Hiff c)) as [Hc _]; [left |]. simpl in Hc. lia.
  - done.
  - intros e. unfold owned.
    destruct (elem (Initialize n p) e); try done.
    unfold is_member. rewrite class_elements_out; [done |].
    unfold in_range. simpl. lia.
  - apply Hid.
  - intros e He. unfold Partition_ctor. rewrite Hid by done.
    simpl. rewrite decide_False by lia. done.
Qed.

(** * The CHECKs of Move *)

(** What follows the first branch of [excise] has no CHECK. *)
Lemma excise_tail_never e p :
  (element ← elem p e;
   if decide (0 <= next_element element)
   then upd_elem (next_element element)
                 (set_prev_element (prev_element element)) p
   else Ok p) ≠ CheckFailed.
Proof.
  unfold elem. destruct (at_index_never (elements_ p) e).
  destruct (at_index (elements_ p) e) as [el | | |]; simpl; try done.
  case_decide; [apply upd_elem_never | done].
Qed.

(** The one CHECK of the excision: an element without predecessor has
    to be the head of the 'no' list. *)
Lemma excise_CheckFailed e c p :
  excise e c p = CheckFailed ↔
  ∃ el cl, elem p e = Ok el ∧ prev_element el < 0 ∧
           cls p c = Ok cl ∧ no_head cl ≠ e.
Proof.
  unfold excise, elem, cls.
  destruct (at_index_never (elements_ p) e).
  destruct (at_index (elements_ p) e) as [el | | |] eqn:Eel; simpl;
    try (split; [done | by intros (? & ? & ? & _)]).
  destruct (decide (0 <= prev_element el)) as [Hp | Hp].
  { split; [| intros (el' & cl & [= <-] & ? & _); lia].
    destruct (upd_elem_never (prev_element el)
                (set_next_element (next_element el)) p).
    destruct (upd_elem _ _ p) as [p1 | | |]; simpl; try done.
    intros Hbad. by destruct (excise_tail_never e p1). }
  destruct (at_index_never (classes_ p) c).
  destruct (at_index (classes_ p) c) as [cl | | |] eqn:Ecl; simpl;
    try (split; [done | by intros (? & ? & _ & _ & ? & _)]).
  destruct (decide (no_head cl = e)) as [Hh | Hh].
  - rewrite bool_decide_eq_true_2 by done. simpl.
    split; [| intros (el' & cl' & _ & _ & [= <-] & ?); done].
    destruct (upd_cls_never c (set_no_head (next_element el)) p).
    destruct (upd_cls _ _ p) as [p1 | | |]; simpl; try done.
    intros Hbad. by destruct (excise_tail_never e p1).
  - rewrite bool_decide_eq_false_2 by done. simpl.
    split; [| done]. intros _. exists el, cl. split_and!; [done | lia | done..].
Qed.

Lemma WF_one_added_one_not : WF one_added_one_not.
Proof.
  pose proof (AddClass_WF _ (AddClass_WF _ (WF_ctor 2))) as H0.
  destruct (Add_WF _ 0 0 H0) as (p1 & E1 & H1 & _);
    [unfold in_range; simpl; lia.. | by vm_compute |].
  vm_compute in E1. injection E1 as <-. exact H1.
Qed.

(** C7, amended.  Move has three CHECKs and fails exactly when one of
    them does: when the element is in the 'yes' subset; when, after the
    decrement, the size of the class of the element is negative or its
    'yes' subset is not empty; when the element has no predecessor and is
    not the head of the 'no' list of its class.  No other violation of its
    precondition is seen: Move of an element that was never added returns,
    and leaves a partition that is not well-formed, where class 0 has
    size 0 and an iteration over it does not end.  Add has no CHECK at
    all: it never aborts. *)
Theorem Move_is_checked_Add_is_not :
  (∀ p e c,
     Move e c p = CheckFailed ↔
     ∃ el, elem p e = Ok el ∧
           (yes el = yes_counter_ p ∨
            ∃ cl, cls p (class_id el) = Ok cl ∧
                  (size cl - 1 < 0 ∨ yes_size cl ≠ 0 ∨
                   (prev_element el < 0 ∧ no_head cl ≠ e)))) ∧
  (∀ p e c, Add e c p ≠ CheckFailed) ∧
  (WF one_added_one_not ∧ owned one_added_one_not 1 = false ∧
   ∃ p', Move 1 1 one_added_one_not = Ok p' ∧ ¬ WF p' ∧
         class_size p' 0 = Ok 0 ∧ class_elements p' 0 = Diverges).
Proof.
  split; [| split; [intros; apply Add_never |]].
  - intros p e c. unfold Move.
    destruct (at_index_never (elements_ p) e).
    destruct (elem p e) as [el | | |] eqn:Eel; simpl;
      try (split; [done | by intros (? & ? & _)]).
    destruct (decide (yes el = yes_counter_ p)) as [Hy | Hy].
    { rewrite bool_decide_eq_false_2 by tauto. simpl.
      split; [| done]. intros _. exists el. split; [done | by left]. }
    rewrite bool_decide_eq_true_2 by done. simpl.
    destruct (at_index_never (classes_ p) (class_id el)) as [Hn1 Hn2].
    destruct (cls p (class_id el)) as [cl | | |] eqn:Ecl;
      try (unfold cls in Ecl; congruence); cycle 1.
    { unfold upd_cls, modify_index. unfold cls in Ecl. rewrite Ecl. simpl.
      split; [done |].
      intros (el' & [= <-] & [? | (cl' & E & _)]); [done |].
      unfold cls in E. congruence. }
    pose proof Ecl as (k & Ek & Hk)%cls_range.
    assert (k < length (classes_ p))%nat as Hlt by by eapply lookup_lt_Some.
    rewrite Ek in *. rewrite upd_cls_nat by done. simpl.
    rewrite (cls_nat _ _ (set_size (size cl - 1) cl))
      by (simpl; by rewrite list_lookup_alter_eq, Hk).
    simpl.
    destruct (decide (0 <= size cl - 1 ∧ yes_size cl = 0)) as [Hs | Hs].
    + rewrite bool_decide_eq_true_2 by done. simpl.
      set (p1 := with_classes _ p).
      assert (elem p1 e = Ok el) as Eel1 by done.
      assert (cls p1 (Z.of_nat k) = Ok (set_size (size cl - 1) cl)) as Ecl1.
      { apply cls_nat. unfold p1. simpl. by rewrite list_lookup_alter_eq, Hk. }
      split.
      * intros Hbad. exists el. split; [done | right]. exists cl.
        split; [by rewrite Ek |]. right. right.
        destruct (excise e (Z.of_nat k) p1) as [p2 | | |] eqn:Eex;
          simpl in Hbad; try done.
        -- by destruct (Add_never e c p2).
        -- apply excise_CheckFailed in Eex as (el' & cl' & E1 & ? & E2 & ?).
           rewrite Eel1 in E1. injection E1 as <-.
           rewrite Ecl1 in E2. injection E2 as <-. done.
      * intros (el' & [= <-] & [? | (cl' & E & Hbad)]); [done |].
        rewrite Ek, Ecl in E. injection E as <-.
        destruct Hbad as [? | [? | [Hp Hh]]]; [lia | tauto |].
        assert (excise e (Z.of_nat k) p1 = CheckFailed) as ->; [| done].
        apply excise_CheckFailed. by exists el, (set_size (size cl - 1) cl).
    + rewrite bool_decide_eq_false_2 by done. simpl.
      split; [| done]. intros _. exists el. split; [done | right].
      exists cl. split; [by rewrite Ek |].
      destruct (decide (size cl - 1 < 0)); [by left | right; left]. lia.
  - split; [apply WF_one_added_one_not |]. split; [by vm_compute |].
    eexists. split; [vm_compute; reflexivity |].
    split; [| by vm_compute].
    intros (no & ys & HInv).
    destruct (Shape_lists _ no ys 0 (inv_shape _ _ _ HInv)) as [E _];
      [simpl; lia |].
    vm_compute in E. discriminate.
Qed.

Lemma Move_is_checked_witness : Move 0 1 partition_A_split = CheckFailed.
Proof.
  apply (proj1 Move_is_checked_Add_is_not partition_A_split 0 1).
  exists (mkElement 0 0 (-1) 3). split; [reflexivity |].
  right. exists (mkClass 4 2 3 2). split; [reflexivity |].
  right. left. simpl. lia.
Defined.
